(** * Listing acquisition pipeline of the Phil's-website bot backend

    A shallow embedding of the scraping pipeline found in [bot.js]
    (monolithic variant) and in [services/chatService.js] +
    [services/parsers.js] + [services/utils.js] (modular variant), and the
    properties of it that the specification states.

    JavaScript strings are modelled by [string]: a sequence of code units
    in the Latin-1 range (one [ascii] per UTF-16 code unit below 256).
    JavaScript integers that the code only counts with are modelled by [Z]. *)

From Stdlib Require Import ZArith List String Ascii Bool Lia.
From Stdlib Require Import DecimalString.
Import ListNotations.
Local Open Scope string_scope.
Local Open Scope Z_scope.

(** ** JavaScript built-ins used by the scraper *)
Module JS.

Definition code (c : ascii) : N := N_of_ascii c.

(** [\d] *)
Definition is_digit (c : ascii) : bool :=
  ((48 <=? code c) && (code c <=? 57))%N.

(** [[A-Z]] *)
Definition is_upper (c : ascii) : bool :=
  ((65 <=? code c) && (code c <=? 90))%N.

(** [\s], and the characters removed by [String.prototype.trim]:
    TAB, LF, VT, FF, CR, SPACE and NBSP are the ones below 256. *)
Definition is_space (c : ascii) : bool :=
  (((9 <=? code c) && (code c <=? 13)) || (code c =? 32) || (code c =? 160))%N.

(** A value is falsy when it is [undefined] or the empty string. *)
Definition truthy (s : string) : bool :=
  match s with EmptyString => false | String _ _ => true end.

(** [a || b] on an optional string [a] ([None] is [undefined]). *)
Definition or_else (a : option string) (b : string) : string :=
  match a with
  | Some s => if truthy s then s else b
  | None => b
  end.

(** [s.split(sep)] for a one-character separator. *)
Fixpoint split (sep : ascii) (s : string) : list string :=
  match s with
  | EmptyString => [EmptyString]
  | String c rest =>
      if Ascii.eqb c sep then EmptyString :: split sep rest
      else match split sep rest with
           | [] => [String c EmptyString]
           | p :: ps => String c p :: ps
           end
  end.

(** [arr.join(sep)] on an array of strings. *)
Definition join (sep : string) (parts : list string) : string :=
  String.concat sep parts.

(** [arr.indexOf(x)]: position of the first element strictly equal to [x],
    [-1] when there is none. *)
Fixpoint array_indexOf_from (i : Z) (x : string) (arr : list string) : Z :=
  match arr with
  | [] => -1
  | y :: ys => if String.eqb y x then i else array_indexOf_from (i + 1) x ys
  end.

Definition array_indexOf (x : string) (arr : list string) : Z :=
  array_indexOf_from 0 x arr.

(** [arr.slice(start)]: a negative [start] counts from the end. *)
Definition slice_from {A} (start : Z) (arr : list A) : list A :=
  let len := Z.of_nat (List.length arr) in
  let k := if start <? 0 then Z.max (len + start) 0 else Z.min start len in
  skipn (Z.to_nat k) arr.

(** [str.indexOf(pat)]: position of the first occurrence, [-1] if none. *)
Fixpoint indexOf_from (i : Z) (pat s : string) : Z :=
  if String.prefix pat s then i
  else match s with
       | EmptyString => -1
       | String _ rest => indexOf_from (i + 1) pat rest
       end.

Definition indexOf (pat s : string) : Z := indexOf_from 0 pat s.

(** [str.includes(pat)] *)
Definition includes (pat s : string) : bool := 0 <=? indexOf pat s.

(** [str.substring(a, b)]: both ends are clamped to [0, length] and
    swapped when [a > b]. *)
Definition substring (a b : Z) (s : string) : string :=
  let len := Z.of_nat (String.length s) in
  let a' := Z.min (Z.max a 0) len in
  let b' := Z.min (Z.max b 0) len in
  let lo := Z.min a' b' in
  let hi := Z.max a' b' in
  String.substring (Z.to_nat lo) (Z.to_nat (hi - lo)) s.

Fixpoint trimStart (s : string) : string :=
  match s with
  | EmptyString => EmptyString
  | String c rest => if is_space c then trimStart rest else s
  end.

(** [trimEnd]: a character is dropped when it is white space and all that
    follows it has been dropped. *)
Fixpoint trimEnd (s : string) : string :=
  match s with
  | EmptyString => EmptyString
  | String c rest =>
      match trimEnd rest with
      | EmptyString => if is_space c then EmptyString else String c EmptyString
      | t => String c t
      end
  end.

Definition trim (s : string) : string := trimEnd (trimStart s).

(** [toLowerCase] on code units below 256: A-Z, and the Latin-1 capitals
    U+00C0..U+00DE except the multiplication sign U+00D7. *)
Definition lower_char (c : ascii) : ascii :=
  let n := code c in
  if (((65 <=? n) && (n <=? 90))
      || ((192 <=? n) && (n <=? 222) && negb (n =? 215)))%N
  then ascii_of_N (n + 32) else c.

Fixpoint toLowerCase (s : string) : string :=
  match s with
  | EmptyString => EmptyString
  | String c rest => String (lower_char c) (toLowerCase rest)
  end.

(** [str.replace(/[...]/g, "")]: every character of the class is removed. *)
Fixpoint remove_chars (cls : ascii -> bool) (s : string) : string :=
  match s with
  | EmptyString => EmptyString
  | String c rest =>
      if cls c then remove_chars cls rest else String c (remove_chars cls rest)
  end.

(** [str.replace(/\s+/g, " ")]: every maximal run of white space becomes
    one space. [in_run] tells that the previous character was white space. *)
Fixpoint collapse_spaces (in_run : bool) (s : string) : string :=
  match s with
  | EmptyString => EmptyString
  | String c rest =>
      if is_space c
      then if in_run then collapse_spaces true rest
           else String " " (collapse_spaces true rest)
      else String c (collapse_spaces false rest)
  end.

(** *** Regular expressions, matched by derivatives *)
Inductive regex : Type :=
| Void
| Eps
| Cls (p : ascii -> bool)
| Cat (r1 r2 : regex)
| Alt (r1 r2 : regex).

Fixpoint nullable (r : regex) : bool :=
  match r with
  | Void => false
  | Eps => true
  | Cls _ => false
  | Cat r1 r2 => nullable r1 && nullable r2
  | Alt r1 r2 => nullable r1 || nullable r2
  end.

Fixpoint deriv (c : ascii) (r : regex) : regex :=
  match r with
  | Void => Void
  | Eps => Void
  | Cls p => if p c then Eps else Void
  | Cat r1 r2 =>
      if nullable r1 then Alt (Cat (deriv c r1) r2) (deriv c r2)
      else Cat (deriv c r1) r2
  | Alt r1 r2 => Alt (deriv c r1) (deriv c r2)
  end.

(** [/^r$/.test(s)] (no [m] flag: the anchors are the ends of [s]). *)
Fixpoint test_anchored (r : regex) (s : string) : bool :=
  match s with
  | EmptyString => nullable r
  | String c rest => test_anchored (deriv c r) rest
  end.

Definition Opt (r : regex) : regex := Alt Eps r.

End JS.

(** ** utils.js / bot.js: [cleanText] *)
Definition cleanText (text : string) : string :=
  JS.trim (JS.collapse_spaces false text).

(** ** AddressParser: [parseAddress] (bot.js 98-115, parsers.js 3-16) *)

Record Address : Type := mkAddress {
  streetNumber : option string;   (* parts[0] *)
  streetName : option string;     (* parts[1], undefined when absent *)
  streetType : option string;     (* parts[2], undefined when absent *)
  city : string;
  postalCode : string;
  neighborhood : string
}.

(** [/^[A-Z]\d[A-Z]\s?\d[A-Z]\d$/] *)
Definition postal_regex : JS.regex :=
  JS.Cat (JS.Cls JS.is_upper) (JS.Cat (JS.Cls JS.is_digit)
  (JS.Cat (JS.Cls JS.is_upper) (JS.Cat (JS.Opt (JS.Cls JS.is_space))
  (JS.Cat (JS.Cls JS.is_digit) (JS.Cat (JS.Cls JS.is_upper)
  (JS.Cls JS.is_digit)))))).

Definition is_postal (part : string) : bool :=
  JS.test_anchored postal_regex part.

(** [part === "Burnaby" || part === "Vancouver" || part === "Richmond"];
    parsers.js writes the same test with [includes]. *)
Definition is_city (part : string) : bool :=
  String.eqb part "Burnaby" || String.eqb part "Vancouver"
  || String.eqb part "Richmond".

Definition parseAddress (addressString : string) : Address :=
  let parts := JS.split " " addressString in
  let postalCode := JS.or_else (List.find is_postal parts) "" in
  {| streetNumber := nth_error parts 0;
     streetName := nth_error parts 1;
     streetType := nth_error parts 2;
     city := JS.or_else (List.find is_city parts) "";
     postalCode := postalCode;
     neighborhood :=
       JS.or_else
         (Some (JS.join " "
                  (JS.slice_from (JS.array_indexOf postalCode parts + 1) parts)))
         "" |}.

(** ** JavaScript numbers, as [parseFloat] makes them

    [Dec neg m e] stands for the double nearest to [(-1)^neg * m * 10^e];
    an integer below [2^53] in magnitude is that double exactly. *)
Inductive JSNumber : Type :=
| NaN
| Infinity (neg : bool)
| Dec (neg : bool) (mant : N) (exp10 : Z).

(** Leading [DecimalDigits] of [s], accumulated onto [acc]: the value, how
    many digits were read, and the rest of the string. *)
Fixpoint read_digits (acc : N) (count : nat) (s : string) : N * nat * string :=
  match s with
  | String c rest =>
      if JS.is_digit c
      then read_digits (acc * 10 + (JS.code c - 48))%N (S count) rest
      else (acc, count, s)
  | EmptyString => (acc, count, s)
  end.

(** [ExponentPart]: [e] or [E], an optional sign, at least one digit;
    [0] when the text does not start with one. *)
Definition read_exponent (s : string) : Z :=
  match s with
  | String c rest =>
      if Ascii.eqb c "e" || Ascii.eqb c "E" then
        let '(neg, body) :=
          match rest with
          | String "-" r => (true, r)
          | String "+" r => (false, r)
          | _ => (false, rest)
          end in
        let '(v, n, _) := read_digits 0 0 body in
        match n with
        | O => 0
        | S _ => if neg then - Z.of_N v else Z.of_N v
        end
      else 0
  | EmptyString => 0
  end.

(** [parseFloat(s)]: white space is skipped, then the longest prefix that
    is a [StrDecimalLiteral] is read; [NaN] when there is none. *)
Definition parseFloat (s : string) : JSNumber :=
  let t := JS.trimStart s in
  let '(neg, t1) :=
    match t with
    | String "-" r => (true, r)
    | String "+" r => (false, r)
    | _ => (false, t)
    end in
  if String.prefix "Infinity" t1 then Infinity neg
  else
    let '(ip, ni, t2) := read_digits 0 0 t1 in
    match t2 with
    | String "." r =>
        let '(m, nf, t3) := read_digits ip 0 r in
        match ni, nf with
        | O, O => NaN
        | _, _ => Dec neg m (read_exponent t3 - Z.of_nat nf)
        end
    | _ =>
        match ni with
        | O => NaN
        | S _ => Dec neg ip (read_exponent t2)
        end
    end.

(** The double that [Dec neg m e] stands for is a zero: [m] is 0, or the
    value is at most [2^-1075] and rounds to 0. *)
Definition rounds_to_zero (m : N) (e : Z) : bool :=
  if (m =? 0)%N then true
  else if 0 <=? e then false
  else Z.of_N m * 2 ^ 1075 <=? 10 ^ (- e).

(** [x || 0] on a number: [NaN] and the zeros are falsy. *)
Definition number_or_zero (x : JSNumber) : JSNumber :=
  match x with
  | NaN => Dec false 0 0
  | Infinity _ => x
  | Dec _ m e => if rounds_to_zero m e then Dec false 0 0 else x
  end.

(** [/[$,]/] *)
Definition is_dollar_or_comma (c : ascii) : bool :=
  Ascii.eqb c "$" || Ascii.eqb c ",".

(** utils.js 5-7. *)
Definition parsePrice (priceStr : string) : JSNumber :=
  number_or_zero (parseFloat (JS.remove_chars is_dollar_or_comma priceStr)).

(** ** Exceptions and completions *)
Inductive Exn : Type :=
| NetworkError (msg : string)
| ParseError (msg : string)
| TypeError (msg : string)
| ReferenceError (msg : string).

(** Result of evaluating an expression that may throw. *)
Inductive Completion (A : Type) : Type :=
| Normal (a : A)
| Abrupt (e : Exn).
Arguments Normal {A} a.
Arguments Abrupt {A} e.

(** ** The extractors the properties do not look into

    [extractDetailsFromSummary] and the feature, room, tax and lot
    extractors of [parseDetailedInfo] are pattern matches over a text blob;
    each is a pure function of its argument and is kept abstract. *)
Class Extractors : Type := {
  Details : Type;
  extractDetailsFromSummary : string -> Details;
  DetailFields : Type;
  extractDetailFields : string -> DetailFields
}.

(** ** Data model *)
Record Price : Type := mkPrice {
  amount : JSNumber;
  formatted : string
}.

(** What cheerio reads off one [li.mrp-listing-result] element: attribute
    values ([None] is [undefined]) and the [.text()] of the selected
    descendants (empty when nothing is selected). *)
Record ListingNode : Type := mkNode {
  attr_data_listing_id : option string;
  attr_data_share_url : option string;
  img_data_src : option string;
  img_src : option string;
  summary_outer_text : string;
  price_container_text : string;
  status_line_text : string;
  address_info_text : string
}.

Record Listing `{Extractors} : Type := mkListing {
  listingId : option string;
  shareUrl : option string;
  price : Price;
  status : string;
  location : Address;
  imageUrl : option string;      (* [None] is [null] *)
  details : Details
}.

Record DetailedInfo `{Extractors} : Type := mkDetailedInfo {
  description : string;
  fields : DetailFields
}.

(** [{ ...listing, detailedInfo }]; [None] is [null]. *)
Record Enriched `{Extractors} : Type := mkEnriched {
  summary : Listing;
  detailedInfo : option DetailedInfo
}.

(** What cheerio makes of a response body: the listing elements and the
    text of [.mrp-listing-info-container], or an exception on loading or
    querying it. *)
Record Document : Type := mkDocument {
  listing_nodes : list ListingNode;
  info_container_text : string
}.

Inductive Body : Type :=
| Html (d : Document)
| BadData (e : Exn).

(** ** DetailTextParser: [extractDescription] (bot.js 167-172,
    parsers.js 82-87) *)
Definition extractDescription (text : string) : string :=
  let descEnd := JS.indexOf "Documents & Links:" text in
  JS.trim
    (JS.substring 0
       (if 0 <? descEnd then descEnd else JS.indexOf "General Info:" text)
       text).

(** [imgElement.attr("data-src") || imgElement.attr("src")], then
    [imageUrl ? imageUrl.trim() : null]. *)
Definition pick_image (data_src src : option string) : option string :=
  let imageUrl :=
    match data_src with
    | Some s => if JS.truthy s then Some s else src
    | None => src
    end in
  match imageUrl with
  | Some s => if JS.truthy s then Some (JS.trim s) else None
  | None => None
  end.

(** ** SummaryExtractor: [extractListingInfo] *)
Section SummaryExtractor.
Context `{Extractors}.

(** The record without its price amount, which the two variants compute
    differently. *)
Definition listing_of_node (amount_of : string -> JSNumber) (element : ListingNode)
  : Listing :=
  {| listingId := attr_data_listing_id element;
     shareUrl := attr_data_share_url element;
     price :=
       {| amount := amount_of (JS.trim (price_container_text element));
          formatted := JS.trim (price_container_text element) |};
     status := JS.trim (status_line_text element);
     location := parseAddress (cleanText (address_info_text element));
     imageUrl := pick_image (img_data_src element) (img_src element);
     details := extractDetailsFromSummary (cleanText (summary_outer_text element)) |}.

End SummaryExtractor.

(** ** Effects: network requests and timers

    A computation runs in one logical task. It sees the origin through
    [origin url n], the reply to the task's [n]-th request when that request
    is for [url], and it records what it does in a log. Loops are given
    fuel; [NoFuel] is a loop that was cut before its test became false. *)
Inductive Reply : Type :=
| Data (data : Body)
| Failure (e : Exn).

Inductive Event : Type :=
| EvGet (url : option string) (timeout : option Z)  (* [axios.get(url[, config])] *)
| EvSleep (ms : Z).                                 (* [setTimeout(resolve, ms)], awaited *)

Record World : Type := mkWorld {
  issued : nat;            (* requests issued so far by this task *)
  log : list Event
}.

Definition fresh_world : World := {| issued := 0; log := [] |}.

Inductive Outcome (A : Type) : Type :=
| Ret (a : A)
| Throw (e : Exn)
| NoFuel.
Arguments Ret {A} a.
Arguments Throw {A} e.
Arguments NoFuel {A}.

Definition M (A : Type) : Type := World -> Outcome A * World.

Definition ret {A} (a : A) : M A := fun w => (Ret a, w).
Definition throw {A} (e : Exn) : M A := fun w => (Throw e, w).
Definition out_of_fuel {A} : M A := fun w => (NoFuel, w).

Definition bind {A B} (m : M A) (k : A -> M B) : M B :=
  fun w =>
    match m w with
    | (Ret a, w') => k a w'
    | (Throw e, w') => (Throw e, w')
    | (NoFuel, w') => (NoFuel, w')
    end.

(** [try { m } catch (error) { handler error }] *)
Definition try_catch {A} (m : M A) (handler : Exn -> M A) : M A :=
  fun w =>
    match m w with
    | (Throw e, w') => handler e w'
    | r => r
    end.

Notation "x <- m ;; k" := (bind m (fun x => k))
  (at level 61, m at next level, right associativity).

Definition lift {A} (c : Completion A) : M A :=
  match c with
  | Normal a => ret a
  | Abrupt e => throw e
  end.

(** [await new Promise((resolve) => setTimeout(resolve, ms))] *)
Definition sleep (ms : Z) : M unit :=
  fun w => (Ret tt, {| issued := issued w; log := log w ++ [EvSleep ms] |}).

(** [cheerio.load(data)] followed by the queries on it. *)
Definition cheerio_load (data : Body) : M Document :=
  match data with
  | Html d => ret d
  | BadData e => throw e
  end.

(** Number of requests in a log. *)
Fixpoint count_gets (l : list Event) : nat :=
  match l with
  | [] => O
  | EvGet _ _ :: l' => S (count_gets l')
  | EvSleep _ :: l' => count_gets l'
  end.

(** [`${n}`] for an integer [n]. *)
Definition string_of_Z (n : Z) : string :=
  NilZero.string_of_int (Z.to_int n).

(** The test inside [listings.some(...)] of [getLinksFromPage]. *)
Definition is_inactive_status (status : string) : bool :=
  JS.includes "not active" (JS.toLowerCase status)
  || JS.includes "inactive" (JS.toLowerCase status)
  || JS.includes "sold" (JS.toLowerCase status)
  || JS.includes "pending" (JS.toLowerCase status).

(** State of the crawl loop: the three [let] variables. *)
Record Crawl `{Extractors} : Type := mkCrawl {
  allListings : list Listing;
  currentPage : Z;
  foundInactive : bool
}.

(** How one pass through the loop body ends. *)
Inductive Control `{Extractors} : Type :=
| Continue (st : Crawl)          (* the end of the body is reached *)
| BreakEmpty                     (* [break] of the empty-page test *)
| BreakCatch (error : Exn).      (* [break] of the loop's [catch] *)

(** [Promise.all] over tasks that have all settled. *)
Fixpoint promise_all {A} (tasks : list (Outcome A)) : Outcome (list A) :=
  match tasks with
  | [] => Ret []
  | t :: ts =>
      match t, promise_all ts with
      | Ret a, Ret l => Ret (a :: l)
      | Throw e, _ => Throw e
      | NoFuel, _ => NoFuel
      | Ret _, Throw e => Throw e
      | Ret _, NoFuel => NoFuel
      end
  end.

(** ** The pipeline (bot.js 41-62 and 251-360; chatService.js 203-327) *)
Section Pipeline.
Context `{Extractors}.
Variable origin : option string -> nat -> Reply.
Variable extractListingInfo : ListingNode -> Listing.
Variable parseDetailedInfo : string -> Completion (option DetailedInfo).

(** [await axios.get(url, config)]: one request. *)
Definition axios_get (url : option string) (timeout : option Z) : M Body :=
  fun w =>
    let w' := {| issued := S (issued w); log := log w ++ [EvGet url timeout] |} in
    match origin url (issued w) with
    | Data data => (Ret data, w')
    | Failure e => (Throw e, w')
    end.

(** Fetcher: the [for] loop of [axiosWithRetry], entered with counter [i].
    The value is the response ([Some]) or [undefined] ([None]) when the
    loop ends without returning. *)
Fixpoint axiosWithRetry_from (fuel : nat) (url : option string)
    (retries delay timeout : Z) (i : Z) : M (option Body) :=
  if i <? retries then
    match fuel with
    | O => out_of_fuel
    | S fuel' =>
        try_catch
          (data <- axios_get url (Some timeout) ;; ret (Some data))
          (fun err =>
             if i =? retries - 1 then throw err
             else _ <- sleep delay ;;
                  axiosWithRetry_from fuel' url retries delay timeout (i + 1))
    end
  else ret None.

Definition axiosWithRetry (fuel : nat) (url : option string)
    (retries delay timeout : Z) : M (option Body) :=
  axiosWithRetry_from fuel url retries delay timeout 0.

(** [getLinksFromPage(url)]: the pair is [{ listings, foundInactive }]. *)
Definition getLinksFromPage (url : string) : M (list Listing * bool) :=
  try_catch
    (data <- axios_get (Some url) None ;;
     doc <- cheerio_load data ;;
     let listings := map extractListingInfo (listing_nodes doc) in
     if (List.length listings =? 0)%nat then ret ([], true)
     else ret (listings, existsb (fun listing => is_inactive_status (status listing)) listings))
    (fun error => ret ([], false)).

(** [scrapeListingDetails(shareUrl)], calling the Fetcher with its default
    arguments; destructuring [undefined] raises a TypeError. *)
Definition scrapeListingDetails (fuel : nat) (shareUrl : option string)
  : M (option DetailedInfo) :=
  try_catch
    (response <- axiosWithRetry fuel shareUrl 3 1000 10000 ;;
     data <- match response with
             | Some data => ret data
             | None => throw (TypeError "Cannot destructure property 'data'")
             end ;;
     doc <- cheerio_load data ;;
     lift (parseDetailedInfo (cleanText (info_container_text doc))))
    (fun error => ret None).

(** One pass through the body of the [while] loop. The two assignments
    stand before the only statement left in the [try] block, the timer,
    which does not throw: the [catch] never sees them half done. *)
Definition crawl_body (baseUrl : string) (st : Crawl) : M Control :=
  let pageUrl := baseUrl ++ "?_pg=" ++ string_of_Z (currentPage st) in
  try_catch
    (page <- getLinksFromPage pageUrl ;;
     let '(listings, pageHasInactive) := page in
     if (List.length listings =? 0)%nat then ret BreakEmpty
     else
       _ <- sleep 1500 ;;
       ret (Continue {| allListings := allListings st ++ listings;
                        currentPage := currentPage st + 1;
                        foundInactive := pageHasInactive |}))
    (fun error => ret (BreakCatch error)).

(** [while (!foundInactive && currentPage <= maxPages) { ... }] *)
Fixpoint crawl_loop (fuel : nat) (baseUrl : string) (maxPages : Z) (st : Crawl)
  : M Crawl :=
  if negb (foundInactive st) && (currentPage st <=? maxPages) then
    match fuel with
    | O => out_of_fuel
    | S fuel' =>
        c <- crawl_body baseUrl st ;;
        match c with
        | Continue st' => crawl_loop fuel' baseUrl maxPages st'
        | BreakEmpty => ret st
        | BreakCatch _ => ret st
        end
    end
  else ret st.

Definition crawl_start : Crawl :=
  {| allListings := []; currentPage := 1; foundInactive := false |}.

(** The crawl phase of [scrapeAllListingsWithDetails]. *)
Definition crawl (fuel : nat) (baseUrl : string) (maxPages : Z) : M Crawl :=
  crawl_loop fuel baseUrl maxPages crawl_start.

(** The callback of [allListings.map(async (listing) => ...)], run as a
    task of its own. *)
Definition enrich_task (fuel : nat) (listing : Listing) : Outcome Enriched :=
  fst (try_catch
         (info <- scrapeListingDetails fuel (shareUrl listing) ;;
          ret {| summary := listing; detailedInfo := info |})
         (fun error => ret {| summary := listing; detailedInfo := None |})
         fresh_world).

Definition has_details (e : Enriched) : bool :=
  match detailedInfo e with Some _ => true | None => false end.

(** The enrichment phase: [Promise.all] over the tasks, then the filter. *)
Definition enrich_all (fuel : nat) (listings : list Listing)
  : Outcome (list Enriched) :=
  match promise_all (map (enrich_task fuel) listings) with
  | Ret detailedListings => Ret (filter has_details detailedListings)
  | Throw e => Throw e
  | NoFuel => NoFuel
  end.

Definition scrapeAllListingsWithDetails (fuel : nat) (baseUrl : string)
    (maxPages : Z) : M (list Enriched) :=
  st <- crawl fuel baseUrl maxPages ;;
  (fun w => (enrich_all fuel (allListings st), w)).

End Pipeline.

(** ** bot.js: the monolithic variant *)
Module BotJs.
Section Parsers.
Context `{Extractors}.

(** bot.js 65-95: the amount is
    [parseFloat(text.trim().replace(/[$,]/g, ""))]. *)
Definition extractListingInfo (element : ListingNode) : Listing :=
  listing_of_node
    (fun trimmed => parseFloat (JS.remove_chars is_dollar_or_comma trimmed))
    element.

(** bot.js 148-164. The object literal is evaluated field by field;
    [extractDescription], [extractYearBuilt], [extractParking] and
    [extractHeating] return, and the next field calls [extractAmenities],
    which bot.js declares nowhere: the call raises a ReferenceError. *)
Definition parseDetailedInfo (detailedInfo : string)
  : Completion (option DetailedInfo) :=
  if negb (JS.truthy detailedInfo) then Normal None
  else Abrupt (ReferenceError "extractAmenities is not defined").

End Parsers.

Section Run.
Context `{Extractors}.
Variable origin : option string -> nat -> Reply.

Definition getLinksFromPage := getLinksFromPage origin extractListingInfo.
Definition scrapeListingDetails := scrapeListingDetails origin parseDetailedInfo.
Definition crawl := crawl origin extractListingInfo.
Definition enrich_all := enrich_all origin parseDetailedInfo.
Definition scrapeAllListingsWithDetails :=
  scrapeAllListingsWithDetails origin extractListingInfo parseDetailedInfo.

End Run.
End BotJs.

(** ** services/parsers.js with services/utils.js: the modular variant *)
Module Services.
Section Parsers.
Context `{Extractors}.

(** parsers.js 44-62: the amount is [parsePrice(text.trim())]. *)
Definition extractListingInfo (element : ListingNode) : Listing :=
  listing_of_node parsePrice element.

(** parsers.js 64-80. *)
Definition parseDetailedInfo (detailedInfo : string)
  : Completion (option DetailedInfo) :=
  if negb (JS.truthy detailedInfo) then Normal None
  else Normal (Some {| description := extractDescription detailedInfo;
                       fields := extractDetailFields detailedInfo |}).

End Parsers.

(** chatService.js: [ScraperService], whose methods import the parsers
    above. *)
Section Run.
Context `{Extractors}.
Variable origin : option string -> nat -> Reply.

Definition getLinksFromPage := getLinksFromPage origin extractListingInfo.
Definition scrapeListingDetails := scrapeListingDetails origin parseDetailedInfo.
Definition crawl := crawl origin extractListingInfo.
Definition enrich_all := enrich_all origin parseDetailedInfo.
Definition scrapeAllListingsWithDetails :=
  scrapeAllListingsWithDetails origin extractListingInfo parseDetailedInfo.

End Run.
End Services.

(** ** Definitions used to state the properties *)

(** A stand-in for the abstract extractors, for concrete runs: each keeps
    the text it is given. *)
#[export] Instance text_extractors : Extractors := {|
  Details := string;
  extractDetailsFromSummary := fun summaryText => summaryText;
  DetailFields := string;
  extractDetailFields := fun text => text
|}.

(** The part of [parts] after its first empty token, if it has one. *)
Fixpoint after_first_empty (parts : list string) : option (list string) :=
  match parts with
  | [] => None
  | p :: ps =>
      match p with
      | EmptyString => Some ps
      | String _ _ => after_first_empty ps
      end
  end.

(** The reading of the specification: the text before whichever of the two
    markers comes first. *)
Definition description_up_to_first_marker (text : string) : string :=
  JS.trim
    (JS.substring 0
       (Z.min (JS.indexOf "Documents & Links:" text)
              (JS.indexOf "General Info:" text))
       text).

(** What the Fetcher does when its first [k] attempts fail: each failed
    attempt is followed by the wait, then comes attempt [k + 1]. *)
Fixpoint retry_log (url : option string) (delay timeout : Z) (k : nat)
  : list Event :=
  match k with
  | O => [EvGet url (Some timeout)]
  | S k' => EvGet url (Some timeout) :: EvSleep delay :: retry_log url delay timeout k'
  end.

(** The world after one plain request for [url]. *)
Definition after_get (url : string) (w : World) : World :=
  {| issued := S (issued w); log := log w ++ [EvGet (Some url) None] |}.

Definition after_sleep (ms : Z) (w : World) : World :=
  {| issued := issued w; log := log w ++ [EvSleep ms] |}.

(** A reply that is an error, or a body that cheerio cannot take. *)
Definition page_failed (reply : Reply) : bool :=
  match reply with
  | Data (Html _) => false
  | Data (BadData _) => true
  | Failure _ => true
  end.

Section CrawlerSpec.
Context `{Extractors}.
Variable extractListingInfo : ListingNode -> Listing.

(** What [getLinksFromPage] returns for a reply of the origin. *)
Definition page_result (reply : Reply) : list Listing * bool :=
  match reply with
  | Data (Html doc) =>
      match map extractListingInfo (listing_nodes doc) with
      | [] => ([], true)
      | listings =>
          (listings,
           existsb (fun listing => is_inactive_status (status listing)) listings)
      end
  | Data (BadData _) => ([], false)
  | Failure _ => ([], false)
  end.

Definition page_url (baseUrl : string) (st : Crawl) : string :=
  baseUrl ++ "?_pg=" ++ string_of_Z (currentPage st).

End CrawlerSpec.

Section EnricherSpec.
Context `{Extractors}.
Variable origin : option string -> nat -> Reply.
Variable parseDetailedInfo : string -> Completion (option DetailedInfo).

(** All of the Fetcher's three attempts for [url] fail, counted from the
    start of a task. *)
Definition fetch_fails_permanently (url : option string) : Prop :=
  forall j, (j < 3)%nat -> exists e, origin url j = Failure e.

(** The [detailedInfo] a listing ends up with. *)
Definition detail_of (fuel : nat) (listing : Listing) : option DetailedInfo :=
  match fst (scrapeListingDetails origin parseDetailedInfo fuel (shareUrl listing)
               fresh_world) with
  | Ret info => info
  | Throw _ => None
  | NoFuel => None
  end.

Definition enriched (fuel : nat) (listing : Listing) : Enriched :=
  {| summary := listing; detailedInfo := detail_of fuel listing |}.

End EnricherSpec.

(** ** Sample data for concrete runs *)

(** An element with nothing but a price text. *)
Definition node_with_price (text : string) : ListingNode :=
  mkNode None None None None "" text "" "".

Definition sample_node (id status : string) : ListingNode :=
  mkNode (Some id) (Some ("https://dorisgee.com/listing/" ++ id)) None None
    "Bedrooms: 2" "$1,234,500" status "123 Main St Burnaby V5H1A1 Metrotown".

Definition active_page : Document :=
  mkDocument [sample_node "1" "Active"; sample_node "2" "Active"] "".

(** The page of the specification's example: Active, Sold, Active. *)
Definition sold_page : Document :=
  mkDocument
    [sample_node "3" "Active"; sample_node "4" "Sold"; sample_node "5" "Active"] "".

Definition listings_url : string := "https://dorisgee.com/mylistings.html".

(** An origin whose first [failures] replies to a task are errors and
    whose later replies are a page with [nodes] and [info]. *)
Definition flaky_origin (failures : nat) (nodes : list ListingNode) (info : string)
  : option string -> nat -> Reply :=
  fun _ n =>
    if (n <? failures)%nat then Failure (NetworkError "ECONNRESET")
    else Data (Html (mkDocument nodes info)).

(** Every page is [active_page]. *)
Definition endless_origin : option string -> nat -> Reply :=
  fun _ _ => Data (Html active_page).

(** The second page is [sold_page]. *)
Definition boundary_origin : option string -> nat -> Reply :=
  fun _ n =>
    match n with
    | 1%nat => Data (Html sold_page)
    | _ => Data (Html active_page)
    end.

(** Every request fails. *)
Definition dead_origin : option string -> nat -> Reply :=
  fun _ _ => Failure (NetworkError "ETIMEDOUT").

(** Ten summaries, numbered 0 to 9. *)
Definition ten_nodes : list ListingNode :=
  map (fun id => sample_node id "Active")
    ["0"; "1"; "2"; "3"; "4"; "5"; "6"; "7"; "8"; "9"].

Definition detail_page : Document :=
  mkDocument [] "Bright corner unit.  General Info: Condo  Year built: 1994".

(** A site with one index page of the ten summaries. The detail page of
    listing 3 never answers; the other detail pages answer at once. *)
Definition one_down_origin : option string -> nat -> Reply :=
  fun url _ =>
    match url with
    | Some u =>
        if String.eqb u "https://dorisgee.com/listing/3"
        then Failure (NetworkError "ETIMEDOUT")
        else if String.prefix "https://dorisgee.com/listing/" u
        then Data (Html detail_page)
        else if String.eqb u "https://dorisgee.com/mylistings.html?_pg=1"
        then Data (Html (mkDocument ten_nodes ""))
        else Data (Html (mkDocument [] ""))
    | None => Failure (TypeError "Invalid URL")
    end.

(** ** Further definitions used to state properties *)

(** The first character of [s], if any, is not white space. *)
Definition starts_clean (s : string) : bool :=
  match s with
  | EmptyString => true
  | String c _ => negb (JS.is_space c)
  end.

(** The last character of [s], if any, is not white space. *)
Fixpoint ends_clean (s : string) : bool :=
  match s with
  | EmptyString => true
  | String c EmptyString => negb (JS.is_space c)
  | String _ rest => ends_clean rest
  end.

(** Every white-space character of [s] is a plain space that follows a
    character other than white space; [prev_space] tells whether the
    character before [s] was white space. *)
Fixpoint single_spaced (prev_space : bool) (s : string) : bool :=
  match s with
  | EmptyString => true
  | String c rest =>
      if JS.is_space c
      then Ascii.eqb c " " && negb prev_space && single_spaced true rest
      else single_spaced false rest
  end.

(** No character of [s] is white space. *)
Fixpoint no_space (s : string) : bool :=
  match s with
  | EmptyString => true
  | String c rest => negb (JS.is_space c) && no_space rest
  end.

(** A word: not empty, and free of white space. *)
Definition is_word (s : string) : bool := JS.truthy s && no_space s.

(** The language of a regular expression. *)
Inductive regex_matches : JS.regex -> string -> Prop :=
| MatchEps : regex_matches JS.Eps ""
| MatchCls (p : ascii -> bool) (c : ascii) :
    p c = true -> regex_matches (JS.Cls p) (String c "")
| MatchCat (r1 r2 : JS.regex) (s1 s2 : string) :
    regex_matches r1 s1 -> regex_matches r2 s2 ->
    regex_matches (JS.Cat r1 r2) (s1 ++ s2)
| MatchAltL (r1 r2 : JS.regex) (s : string) :
    regex_matches r1 s -> regex_matches (JS.Alt r1 r2) s
| MatchAltR (r1 r2 : JS.regex) (s : string) :
    regex_matches r2 s -> regex_matches (JS.Alt r1 r2) s.

(** Letter, digit, letter, at most one white-space character, digit,
    letter, digit. *)
Definition postal_shape (s : string) : Prop :=
  exists a b c d e f gap,
    s = String a (String b (String c (gap ++ String d (String e (String f "")))))
    /\ JS.is_upper a = true /\ JS.is_digit b = true /\ JS.is_upper c = true
    /\ JS.is_digit d = true /\ JS.is_upper e = true /\ JS.is_digit f = true
    /\ (gap = "" \/ exists w, gap = String w "" /\ JS.is_space w = true).

(** [pat] occurs somewhere in [s]. *)
Definition occurs_in (pat s : string) : Prop :=
  exists before rest, s = before ++ pat ++ rest.

(** Every character of [s] is a digit, a dollar sign or a comma. *)
Fixpoint only_price_chars (s : string) : bool :=
  match s with
  | EmptyString => true
  | String c rest => (JS.is_digit c || is_dollar_or_comma c) && only_price_chars rest
  end.

Fixpoint has_digit (s : string) : bool :=
  match s with
  | EmptyString => false
  | String c rest => JS.is_digit c || has_digit rest
  end.

(** The number spelled by the digits of [s], read in order onto [acc];
    other characters are passed over. *)
Fixpoint digits_number (acc : N) (s : string) : N :=
  match s with
  | EmptyString => acc
  | String c rest =>
      if JS.is_digit c then digits_number (acc * 10 + (JS.code c - 48))%N rest
      else digits_number acc rest
  end.

(** [`${baseUrl}?_pg=${page}`] *)
Definition numbered_url (baseUrl : string) (page : Z) : string :=
  baseUrl ++ "?_pg=" ++ string_of_Z page.

Section CrawlerTrace.
Context `{Extractors}.
Variable origin : option string -> nat -> Reply.
Variable extractListingInfo : ListingNode -> Listing.

(** The listings of the [n] pages that a crawl asks for from page number
    [page] on, when its next request is its [request]-th. *)
Fixpoint pages_from (baseUrl : string) (page : Z) (request : nat) (n : nat)
  : list (list Listing) :=
  match n with
  | O => []
  | S n' =>
      fst (page_result extractListingInfo
             (origin (Some (numbered_url baseUrl page)) request))
      :: pages_from baseUrl (page + 1) (S request) n'
  end.

End CrawlerTrace.

(** The log of [n] accepted pages from page number [page] on: a request
    for each, in turn, and the wait after it. *)
Fixpoint rounds_log (baseUrl : string) (page : Z) (n : nat) : list Event :=
  match n with
  | O => []
  | S n' =>
      EvGet (Some (numbered_url baseUrl page)) None
      :: EvSleep 1500 :: rounds_log baseUrl (page + 1) n'
  end.

(** The summaries that end up with details. *)
Definition gets_details `{Extractors} (origin : option string -> nat -> Reply)
    (parseDetailedInfo : string -> Completion (option DetailedInfo))
    (fuel : nat) (listing : Listing) : bool :=
  match detail_of origin parseDetailedInfo fuel listing with
  | Some _ => true
  | None => false
  end.

(** ** utils.js: [parseDimensions] *)
Module Utils.

Record Dimensions : Type := mkDimensions {
  length : string;
  width : string
}.

(** The multiplication sign U+00D7, one code unit. *)
Definition times_sign : ascii := ascii_of_N 215.

(** utils.js 10-16. *)
Definition parseDimensions (dimStr : string) : Dimensions :=
  let parts := map JS.trim (JS.split times_sign dimStr) in
  {| length := JS.or_else (nth_error parts 0) "";
     width := JS.or_else (nth_error parts 1) "" |}.

End Utils.

(** [c] does not occur in [s]. *)
Fixpoint lacks_char (c : ascii) (s : string) : bool :=
  match s with
  | EmptyString => true
  | String d rest => negb (Ascii.eqb d c) && lacks_char c rest
  end.

(** ** Regular expressions with groups, matched by backtracking

    [String.prototype.match] with a pattern without the [g] flag: the
    leftmost match, alternatives and repetitions tried in the order of the
    language definition, and the text of each capturing group. *)
Module Rx.

Inductive rx : Type :=
| Empty                              (* matches the empty text *)
| Chr (p : ascii -> bool)            (* one character of a class *)
| Seq (a b : rx)
| Alt (a b : rx)                     (* [a|b]: [a] is tried first *)
| Star (greedy : bool) (a : rx)      (* [a*] or [a*?] *)
| Group (i : nat) (a : rx)           (* the capturing group number [i] *)
| Ahead (a : rx).                    (* [(?=a)] *)

(** The groups that took part in the match, the latest first. *)
Definition Caps : Type := list (nat * string).

Fixpoint group (i : nat) (caps : Caps) : option string :=
  match caps with
  | [] => None
  | (j, text) :: rest => if Nat.eqb j i then Some text else group i rest
  end.

(** The part of [s] that leads to its suffix [s1]. *)
Definition consumed (s s1 : string) : string :=
  String.substring 0 (String.length s - String.length s1) s.

Definition Cont : Type := string -> Caps -> option (string * Caps).

(** The iterations of a [Star]: [step] matches the body once. An
    iteration that consumes nothing is not taken; [n] bounds the number of
    iterations by the length of the text. *)
Fixpoint star_loop (step : string -> Caps -> Cont -> option (string * Caps))
    (greedy : bool) (k : Cont) (n : nat) (s : string) (caps : Caps)
  : option (string * Caps) :=
  let again :=
    match n with
    | O => None
    | S n' =>
        step s caps
          (fun s1 c1 =>
             if (String.length s1 <? String.length s)%nat
             then star_loop step greedy k n' s1 c1
             else None)
    end in
  if greedy
  then match again with Some x => Some x | None => k s caps end
  else match k s caps with Some x => Some x | None => again end.

(** Match [r] at the start of [s], then go on with [k]; [None] when every
    way of matching [r] here makes [k] fail. *)
Fixpoint run (r : rx) (s : string) (caps : Caps) (k : Cont) {struct r}
  : option (string * Caps) :=
  match r with
  | Empty => k s caps
  | Chr p =>
      match s with
      | String c s' => if p c then k s' caps else None
      | EmptyString => None
      end
  | Seq a b => run a s caps (fun s1 c1 => run b s1 c1 k)
  | Alt a b =>
      match run a s caps k with
      | Some x => Some x
      | None => run b s caps k
      end
  | Star greedy a => star_loop (run a) greedy k (String.length s) s caps
  | Group i a => run a s caps (fun s1 c1 => k s1 ((i, consumed s s1) :: c1))
  | Ahead a =>
      match run a s caps (fun s1 c1 => Some (s1, c1)) with
      | Some (_, c1) => k s c1
      | None => None
      end
  end.

Definition accept : Cont := fun s1 c1 => Some (s1, c1).

(** [text.match(r)]: the groups of the leftmost match, [None] for [null]. *)
Fixpoint search (r : rx) (s : string) : option Caps :=
  match run r s [] accept with
  | Some (_, caps) => Some caps
  | None =>
      match s with
      | String _ rest => search r rest
      | EmptyString => None
      end
  end.

(** A literal text. *)
Fixpoint lit (s : string) : rx :=
  match s with
  | EmptyString => Empty
  | String c rest => Seq (Chr (Ascii.eqb c)) (lit rest)
  end.

Definition plus (greedy : bool) (a : rx) : rx := Seq a (Star greedy a).
Definition opt (a : rx) : rx := Alt a Empty.

Fixpoint rep (n : nat) (a : rx) : rx :=
  match n with
  | O => Empty
  | S n' => Seq a (rep n' a)
  end.

(** [\w] *)
Definition is_word_char (c : ascii) : bool :=
  let n := JS.code c in
  (((48 <=? n) && (n <=? 57)) || ((65 <=? n) && (n <=? 90))
   || ((97 <=? n) && (n <=? 122)) || (n =? 95))%N.

Definition ws : rx := Chr JS.is_space.
Definition digit : rx := Chr JS.is_digit.
Definition word : rx := Chr is_word_char.
(** [.] under the [s] flag *)
Definition any : rx := Chr (fun _ => true).

(** What the relation below says of [run]: [r] matches a prefix of [s],
    leaving [s1], and turns the groups [caps] into [c1]. *)
Inductive matches : rx -> string -> Caps -> string -> Caps -> Prop :=
| MEmpty s c : matches Empty s c s c
| MChr (p : ascii -> bool) ch s c : p ch = true -> matches (Chr p) (String ch s) c s c
| MSeq a b s c s1 c1 s2 c2 :
    matches a s c s1 c1 -> matches b s1 c1 s2 c2 -> matches (Seq a b) s c s2 c2
| MAltL a b s c s1 c1 : matches a s c s1 c1 -> matches (Alt a b) s c s1 c1
| MAltR a b s c s1 c1 : matches b s c s1 c1 -> matches (Alt a b) s c s1 c1
| MStarDone g a s c : matches (Star g a) s c s c
| MStarMore g a s c s1 c1 s2 c2 :
    matches a s c s1 c1 -> matches (Star g a) s1 c1 s2 c2 ->
    matches (Star g a) s c s2 c2
| MGroup i a s c s1 c1 :
    matches a s c s1 c1 -> matches (Group i a) s c s1 ((i, consumed s s1) :: c1)
| MAhead a s c s1 c1 : matches a s c s1 c1 -> matches (Ahead a) s c s c1.

End Rx.

(** [parseInt(s)] with no radix given: white space is skipped, then a sign,
    then hexadecimal digits after [0x] or decimal digits otherwise are
    read as far as they go; [NaN] when there is none. *)
Definition hex_digit (c : ascii) : option N :=
  let n := JS.code c in
  if ((48 <=? n) && (n <=? 57))%N then Some (n - 48)%N
  else if ((97 <=? n) && (n <=? 102))%N then Some (n - 87)%N
  else if ((65 <=? n) && (n <=? 70))%N then Some (n - 55)%N
  else None.

Fixpoint read_hex (acc : N) (count : nat) (s : string) : N * nat :=
  match s with
  | String c rest =>
      match hex_digit c with
      | Some d => read_hex (acc * 16 + d)%N (S count) rest
      | None => (acc, count)
      end
  | EmptyString => (acc, count)
  end.

Definition parseInt (s : string) : JSNumber :=
  let t := JS.trimStart s in
  let '(neg, t1) :=
    match t with
    | String "-" r => (true, r)
    | String "+" r => (false, r)
    | _ => (false, t)
    end in
  let decimal :=
    let '(v, n, _) := read_digits 0 0 t1 in
    match n with
    | O => NaN
    | S _ => Dec neg v 0
    end in
  match t1 with
  | String "0" (String x r) =>
      if Ascii.eqb x "x" || Ascii.eqb x "X" then
        let '(v, n) := read_hex 0 0 r in
        match n with
        | O => NaN
        | S _ => Dec neg v 0
        end
      else decimal
  | _ => decimal
  end.

(** ** services/parsers.js: the extractors (part_001 18-149) *)
Module ParsersJs.

Record Area : Type := mkArea {
  sqft : JSNumber;
  sqm : JSNumber
}.

(** A property that is not set is [None]. *)
Record SummaryDetails : Type := mkSummaryDetails {
  mlsNumber : option string;
  bedrooms : option JSNumber;
  bathrooms : option JSNumber;
  floorArea : option Area
}.

Record Features : Type := mkFeatures {
  yearBuilt : option JSNumber;      (* [None] is [null] *)
  parking : list string;
  heating : list string;
  amenities : list string;
  construction : option string      (* [None] is [null] *)
}.

Record Room : Type := mkRoom {
  floor : string;
  type : string;
  dimensions : Utils.Dimensions
}.

Record Taxes : Type := mkTaxes {
  amount : JSNumber;
  year : JSNumber
}.

Record LotInfo : Type := mkLotInfo {
  area : option Area                (* [None] is [null] *)
}.

Record Fields : Type := mkFields {
  features : Features;
  rooms : list Room;
  taxes : option Taxes;             (* [None] is [null] *)
  lotInfo : LotInfo
}.

Definition is_comma (c : ascii) : bool := Ascii.eqb c ",".
Definition not_dot (c : ascii) : bool := negb (Ascii.eqb c ".").
Definition is_digit_or_comma (c : ascii) : bool := JS.is_digit c || is_comma c.
Definition is_upper_or_digit (c : ascii) : bool := JS.is_upper c || JS.is_digit c.

(** The classes of digit, apostrophe and quotation mark, and of these
    with the multiplication sign. *)
Definition is_dim_char (c : ascii) : bool :=
  JS.is_digit c || Ascii.eqb c "'" || Ascii.eqb c (ascii_of_N 34).
Definition is_dim_or_times (c : ascii) : bool :=
  is_dim_char c || Ascii.eqb c Utils.times_sign.

(** The registered sign U+00AE of "MLS®". *)
Definition registered_sign : ascii := ascii_of_N 174.

(** [/MLS®\s*Num:\s*([A-Z0-9]+)/] *)
Definition mls_rx : Rx.rx :=
  Rx.Seq (Rx.lit "MLS") (Rx.Seq (Rx.Chr (Ascii.eqb registered_sign))
  (Rx.Seq (Rx.Star true Rx.ws) (Rx.Seq (Rx.lit "Num:")
  (Rx.Seq (Rx.Star true Rx.ws)
     (Rx.Group 1 (Rx.plus true (Rx.Chr is_upper_or_digit))))))).

(** [/Label:\s*(\d+)/] *)
Definition count_rx (label : string) : Rx.rx :=
  Rx.Seq (Rx.lit label) (Rx.Seq (Rx.Star true Rx.ws)
    (Rx.Group 1 (Rx.plus true Rx.digit))).

(** [/Label:\s*([\d,]+)\s*sq\.\s*ft\./] *)
Definition sqft_rx (label : string) : Rx.rx :=
  Rx.Seq (Rx.lit label) (Rx.Seq (Rx.Star true Rx.ws)
  (Rx.Seq (Rx.Group 1 (Rx.plus true (Rx.Chr is_digit_or_comma)))
  (Rx.Seq (Rx.Star true Rx.ws) (Rx.Seq (Rx.lit "sq.")
  (Rx.Seq (Rx.Star true Rx.ws) (Rx.lit "ft.")))))).

(** [/(\d+)\s*m2/] *)
Definition m2_whole_rx : Rx.rx :=
  Rx.Seq (Rx.Group 1 (Rx.plus true Rx.digit))
    (Rx.Seq (Rx.Star true Rx.ws) (Rx.lit "m2")).

(** The pattern of part_001 line 147: group 1 is [\d+\.?\d*], followed
    by [\s*m2]. *)
Definition m2_decimal_rx : Rx.rx :=
  Rx.Seq
    (Rx.Group 1 (Rx.Seq (Rx.plus true Rx.digit)
                   (Rx.Seq (Rx.opt (Rx.Chr (Ascii.eqb ".")))
                      (Rx.Star true Rx.digit))))
    (Rx.Seq (Rx.Star true Rx.ws) (Rx.lit "m2")).

(** [text.match(r)?.[1] || "0"] *)
Definition first_group_or_zero (r : Rx.rx) (text : string) : string :=
  JS.or_else
    (match Rx.search r text with
     | Some caps => Rx.group 1 caps
     | None => None
     end)
    "0".

(** part_001 18-42. *)
Definition extractDetailsFromSummary (summaryText : string) : SummaryDetails :=
  {| mlsNumber :=
       match Rx.search mls_rx summaryText with
       | Some mlsMatch => Rx.group 1 mlsMatch
       | None => None
       end;
     bedrooms :=
       match Rx.search (count_rx "Bedrooms:") summaryText with
       | Some bedroomsMatch =>
           Some (parseInt (JS.or_else (Rx.group 1 bedroomsMatch) "undefined"))
       | None => None
       end;
     bathrooms :=
       match Rx.search (count_rx "Bathrooms:") summaryText with
       | Some bathroomsMatch =>
           Some (parseInt (JS.or_else (Rx.group 1 bathroomsMatch) "undefined"))
       | None => None
       end;
     floorArea :=
       match Rx.search (sqft_rx "Floor Area:") summaryText with
       | Some floorAreaMatch =>
           Some {| sqft :=
                     parseInt (JS.remove_chars is_comma
                                 (JS.or_else (Rx.group 1 floorAreaMatch) "undefined"));
                   sqm := parseInt (first_group_or_zero m2_whole_rx summaryText) |}
       | None => None
       end |}.

(** [/Year built:\s*(\d{4})/] *)
Definition year_built_rx : Rx.rx :=
  Rx.Seq (Rx.lit "Year built:") (Rx.Seq (Rx.Star true Rx.ws)
    (Rx.Group 1 (Rx.rep 4 Rx.digit))).

(** part_001 89-92. *)
Definition extractYearBuilt (text : string) : option JSNumber :=
  match Rx.search year_built_rx text with
  | Some m => Some (parseInt (JS.or_else (Rx.group 1 m) "undefined"))
  | None => None
  end.

(** [/Label:([^.]+)/] *)
Definition sentence_rx (label : string) : Rx.rx :=
  Rx.Seq (Rx.lit label) (Rx.Group 1 (Rx.plus true (Rx.Chr not_dot))).

(** [match[1].trim().split(",").map(x => x.trim())], or [[]]. *)
Definition comma_list (label : string) (text : string) : list string :=
  match Rx.search (sentence_rx label) text with
  | Some m =>
      map JS.trim (JS.split "," (JS.trim (JS.or_else (Rx.group 1 m) "")))
  | None => []
  end.

(** part_001 94-107. *)
Definition extractParking (text : string) : list string := comma_list "Parking:" text.
Definition extractHeating (text : string) : list string := comma_list "Heating:" text.
Definition extractAmenities (text : string) : list string :=
  comma_list "Features Included:" text.

(** part_001 109-112. *)
Definition extractConstruction (text : string) : option string :=
  match Rx.search (sentence_rx "Construction:") text with
  | Some m => Some (JS.trim (JS.or_else (Rx.group 1 m) ""))
  | None => None
  end.

(** [/Room Information:(.+?)(?=Bathrooms:)/s] *)
Definition room_section_rx : Rx.rx :=
  Rx.Seq (Rx.lit "Room Information:")
    (Rx.Seq (Rx.Group 1 (Rx.plus false Rx.any)) (Rx.Ahead (Rx.lit "Bathrooms:"))).

(** The pattern of part_001 line 121: group 1 is [\w+], then [\s+],
    group 2 is [\w+\s*\w*], then [\s+], group 3 is one or more of digit,
    apostrophe, quotation mark and multiplication sign, then [\s*], the
    multiplication sign, [\s*], and group 4 is one or more of digit,
    apostrophe and quotation mark. *)
Definition room_line_rx : Rx.rx :=
  Rx.Seq (Rx.Group 1 (Rx.plus true Rx.word))
  (Rx.Seq (Rx.plus true Rx.ws)
  (Rx.Seq (Rx.Group 2 (Rx.Seq (Rx.plus true Rx.word)
                         (Rx.Seq (Rx.Star true Rx.ws) (Rx.Star true Rx.word))))
  (Rx.Seq (Rx.plus true Rx.ws)
  (Rx.Seq (Rx.Group 3 (Rx.plus true (Rx.Chr is_dim_or_times)))
  (Rx.Seq (Rx.Star true Rx.ws)
  (Rx.Seq (Rx.Chr (Ascii.eqb Utils.times_sign))
  (Rx.Seq (Rx.Star true Rx.ws)
     (Rx.Group 4 (Rx.plus true (Rx.Chr is_dim_char)))))))))).

(** The body of the [for] loop: the room of one line, if the line has one. *)
Definition room_of_line (line : string) : option Room :=
  match Rx.search room_line_rx line with
  | Some roomMatch =>
      let g i := JS.or_else (Rx.group i roomMatch) "" in
      Some {| floor := g 1%nat;
              type := g 2%nat;
              dimensions :=
                Utils.parseDimensions
                  (g 3%nat ++ String " " (String Utils.times_sign (String " " (g 4%nat)))) |}
  | None => None
  end.

(** [rooms.push] in the order of the lines. *)
Fixpoint rooms_of_lines (roomLines : list string) : list Room :=
  match roomLines with
  | [] => []
  | line :: rest =>
      match room_of_line line with
      | Some room => room :: rooms_of_lines rest
      | None => rooms_of_lines rest
      end
  end.

Definition line_feed : ascii := ascii_of_N 10.

(** part_001 114-132. *)
Definition extractRooms (text : string) : list Room :=
  match Rx.search room_section_rx text with
  | Some roomSection =>
      rooms_of_lines (JS.split line_feed (JS.or_else (Rx.group 1 roomSection) ""))
  | None => []
  end.

(** The pattern of part_001 line 135: [Taxes:\s*\$?], group 1 is
    [[\d,]+\.?\d*], then [\s*\/\s*], and group 2 is [\d{4}]. *)
Definition taxes_rx : Rx.rx :=
  Rx.Seq (Rx.lit "Taxes:") (Rx.Seq (Rx.Star true Rx.ws)
  (Rx.Seq (Rx.opt (Rx.Chr (Ascii.eqb "$")))
  (Rx.Seq (Rx.Group 1 (Rx.Seq (Rx.plus true (Rx.Chr is_digit_or_comma))
                         (Rx.Seq (Rx.opt (Rx.Chr (Ascii.eqb ".")))
                            (Rx.Star true Rx.digit))))
  (Rx.Seq (Rx.Star true Rx.ws) (Rx.Seq (Rx.Chr (Ascii.eqb "/"))
  (Rx.Seq (Rx.Star true Rx.ws) (Rx.Group 2 (Rx.rep 4 Rx.digit)))))))).

(** part_001 134-140. *)
Definition extractTaxes (text : string) : option Taxes :=
  match Rx.search taxes_rx text with
  | Some m =>
      Some {| amount :=
                parseFloat (JS.remove_chars is_comma
                              (JS.or_else (Rx.group 1 m) "undefined"));
              year := parseInt (JS.or_else (Rx.group 2 m) "undefined") |}
  | None => None
  end.

(** part_001 142-149. *)
Definition extractLotInfo (text : string) : LotInfo :=
  {| area :=
       match Rx.search (sqft_rx "Lot Area:") text with
       | Some lotAreaMatch =>
           Some {| sqft :=
                     parseInt (JS.remove_chars is_comma
                                 (JS.or_else (Rx.group 1 lotAreaMatch) "undefined"));
                   sqm := parseInt (first_group_or_zero m2_decimal_rx text) |}
       | None => None
       end |}.

(** The fields of [parseDetailedInfo] other than the description
    (part_001 69-79), in the order of the object literal. *)
Definition extractFields (text : string) : Fields :=
  {| features :=
       {| yearBuilt := extractYearBuilt text;
          parking := extractParking text;
          heating := extractHeating text;
          amenities := extractAmenities text;
          construction := extractConstruction text |};
     rooms := extractRooms text;
     taxes := extractTaxes text;
     lotInfo := extractLotInfo text |}.

End ParsersJs.

(** The extractors of parsers.js in the place of the abstract ones. *)
Definition parsers_js_extractors : Extractors := {|
  Details := ParsersJs.SummaryDetails;
  extractDetailsFromSummary := ParsersJs.extractDetailsFromSummary;
  DetailFields := ParsersJs.Fields;
  extractDetailFields := ParsersJs.extractFields
|}.

(** * The chat sessions (chatService.js 1-185)

    The state of a [ChatService] as its session methods use it: the
    [sessions] map, the timers that [setTimeout] has started and that
    have neither fired nor been cleared, and what has gone out to the
    sockets and to OpenAI. [uuidv4()] and [Date.now()] are inputs of the
    methods that call them. *)
Module ChatService.

Record Session : Type :=
  { threadId : option string;
    lastActive : Z;
    timeoutId : option nat }.        (* the handle [setTimeout] returned *)

(** A pending [setTimeout(() => this.cleanupSession(sessionId), ms)]. *)
Record Timer : Type :=
  { handle : nat;
    target : string;                 (* the [sessionId] of the callback *)
    due : Z }.

Inductive Emitted : Type :=
| SessionCreated (sessionId : string)   (* [socket.emit('session_created', ...)] *)
| ThreadDel (thread : string)           (* [openai.beta.threads.del(thread)] *)
| ClearChat (sessionId : string).       (* [io.emit('clear_chat', ...)] *)

Record Service : Type :=
  { sessions : list (string * Session);
    timers : list Timer;
    next_handle : nat;
    emitted : list Emitted }.

Definition SESSION_TIMEOUT : Z := 30 * 60 * 1000.

(** [Map.get], [Map.has], [Map.set] and [Map.delete]; the first binding
    of a key is its entry. *)
Fixpoint sessions_get (k : string) (m : list (string * Session)) : option Session :=
  match m with
  | [] => None
  | (k', v) :: rest => if String.eqb k' k then Some v else sessions_get k rest
  end.

Definition sessions_has (k : string) (m : list (string * Session)) : bool :=
  match sessions_get k m with Some _ => true | None => false end.

Fixpoint sessions_set (k : string) (v : Session) (m : list (string * Session))
  : list (string * Session) :=
  match m with
  | [] => [(k, v)]
  | (k', v') :: rest =>
      if String.eqb k' k then (k, v) :: rest else (k', v') :: sessions_set k v rest
  end.

Fixpoint sessions_delete (k : string) (m : list (string * Session))
  : list (string * Session) :=
  match m with
  | [] => []
  | (k', v') :: rest =>
      if String.eqb k' k then sessions_delete k rest
      else (k', v') :: sessions_delete k rest
  end.

Definition with_sessions (m : list (string * Session)) (sv : Service) : Service :=
  {| sessions := m; timers := timers sv; next_handle := next_handle sv;
     emitted := emitted sv |}.

Definition emit (es : list Emitted) (sv : Service) : Service :=
  {| sessions := sessions sv; timers := timers sv; next_handle := next_handle sv;
     emitted := (emitted sv ++ es)%list |}.

(** [setTimeout(() => this.cleanupSession(sessionId), this.SESSION_TIMEOUT)]:
    the new handle and the service with the timer pending. *)
Definition setTimeout (sessionId : string) (now : Z) (sv : Service) : nat * Service :=
  (next_handle sv,
   {| sessions := sessions sv;
      timers := (timers sv ++ [{| handle := next_handle sv; target := sessionId;
                                  due := now + SESSION_TIMEOUT |}])%list;
      next_handle := S (next_handle sv);
      emitted := emitted sv |}).

Definition clearTimeout (h : nat) (sv : Service) : Service :=
  {| sessions := sessions sv;
     timers := filter (fun t => negb (Nat.eqb (handle t) h)) (timers sv);
     next_handle := next_handle sv;
     emitted := emitted sv |}.

(** chatService.js 24-33. *)
Definition createSession (uuid : string) (now : Z) (sv : Service) : string * Service :=
  let sessionId := uuid in
  let session := {| threadId := None; lastActive := now; timeoutId := None |} in
  (sessionId, with_sessions (sessions_set sessionId session (sessions sv)) sv).

(** chatService.js 35-47, run without another handler in between;
    [del_ok] tells whether [openai.beta.threads.del] resolves. *)
Definition cleanupSession (sessionId : string) (del_ok : bool) (sv : Service) : Service :=
  let sv1 :=
    match sessions_get sessionId (sessions sv) with
    | Some session =>
        match threadId session with
        | Some thread =>
            if JS.truthy thread
            then if del_ok then emit [ThreadDel thread; ClearChat sessionId] sv
                 else emit [ThreadDel thread] sv
            else sv
        | None => sv
        end
    | None => sv
    end in
  with_sessions (sessions_delete sessionId (sessions sv1)) sv1.

(** chatService.js 175-184. Both callers pass the object that the map
    holds under [sessionId] (lines 86-87 and 100-101), so the assignments
    to its fields are written to that entry. *)
Definition refreshSession (session : Session) (sessionId : string) (now : Z)
    (sv : Service) : Service :=
  let sv1 :=
    match timeoutId session with
    | Some h => clearTimeout h sv
    | None => sv
    end in
  let '(h, sv2) := setTimeout sessionId now sv1 in
  with_sessions
    (sessions_set sessionId
       {| threadId := threadId session; lastActive := now; timeoutId := Some h |}
       (sessions sv2))
    sv2.

(** The handlers of [setupSocketHandlers] act on the [sessionId] variable
    of their socket and on the service. *)
Definition Connection : Type := (option string * Service)%type.

(** chatService.js 77-81. *)
Definition init_session (uuid : string) (now : Z) (st : Connection) : Connection :=
  let '(sessionId, sv1) := createSession uuid now (snd st) in
  (Some sessionId, emit [SessionCreated sessionId] sv1).

(** chatService.js 83-92; [data_sessionId] is [data.sessionId]. *)
Definition resume_session (data_sessionId : option string) (uuid : string)
    (now : Z) (st : Connection) : Connection :=
  let sv := snd st in
  let known :=
    match data_sessionId with
    | Some id =>
        if JS.truthy id && sessions_has id (sessions sv)
        then match sessions_get id (sessions sv) with
             | Some session => Some (id, session)
             | None => None
             end
        else None
    | None => None
    end in
  match known with
  | Some (sessionId, session) =>
      (Some sessionId, refreshSession session sessionId now sv)
  | None =>
      let '(sessionId, sv1) := createSession uuid now sv in
      (Some sessionId, emit [SessionCreated sessionId] sv1)
  end.

(** chatService.js 162-172. *)
Definition disconnect (now : Z) (st : Connection) : Connection :=
  let sv := snd st in
  match fst st with
  | Some sessionId =>
      if JS.truthy sessionId
      then match sessions_get sessionId (sessions sv) with
           | Some session =>
               let '(h, sv1) := setTimeout sessionId now sv in
               (Some sessionId,
                with_sessions
                  (sessions_set sessionId
                     {| threadId := threadId session;
                        lastActive := lastActive session;
                        timeoutId := Some h |}
                     (sessions sv1))
                  sv1)
           | None => st
           end
      else st
  | None => st
  end.

(** The timer [h] fires: it is no longer pending and its callback runs
    [cleanupSession]. *)
Definition fire (h : nat) (del_ok : bool) (sv : Service) : Service :=
  match find (fun t => Nat.eqb (handle t) h) (timers sv) with
  | Some t => cleanupSession (target t) del_ok (clearTimeout h sv)
  | None => sv
  end.


End ChatService.

(** A service in which one session has been created and resumed once. *)
Definition new_service : ChatService.Service :=
  {| ChatService.sessions := []; ChatService.timers := [];
     ChatService.next_handle := 0; ChatService.emitted := [] |}.

Definition resumed_service : ChatService.Service :=
  snd (ChatService.resume_session (Some "session-1") "session-2" 5000
         (ChatService.init_session "session-1" 0 (None, new_service))).

(** * Properties *)

(** [Hin : In x l] for a list [l] that computes to its elements: [tac]
    closes the goal for each element in turn. *)
Ltac each_member Hin tac :=
  vm_compute in Hin;
  repeat (destruct Hin as [<-|Hin]; [tac|]);
  contradiction.

(** ** Strings and arrays *)

Lemma split_not_nil (sep : ascii) (s : string) : JS.split sep s <> [].
Proof.
  destruct s as [|c rest]; simpl; [discriminate|].
  destruct (Ascii.eqb c sep); [discriminate|].
  destruct (JS.split sep rest); discriminate.
Qed.

(** Joining what [split] made gives the string back. *)
Lemma join_split (sep : ascii) (s : string) :
  JS.join (String sep EmptyString) (JS.split sep s) = s.
Proof.
  unfold JS.join.
  induction s as [|c rest IH]; simpl; [reflexivity|].
  destruct (Ascii.eqb_spec c sep) as [->|Hne].
  - pose proof (split_not_nil sep rest) as Hnil.
    destruct (JS.split sep rest) as [|p ps] eqn:Hs; [contradiction|].
    simpl in *. now rewrite IH.
  - pose proof (split_not_nil sep rest) as Hnil.
    destruct (JS.split sep rest) as [|p ps] eqn:Hs; [contradiction|].
    simpl in *. destruct ps as [|q qs]; simpl in *; now rewrite <- IH.
Qed.

Lemma slice_from_0 {A} (arr : list A) : JS.slice_from 0 arr = arr.
Proof.
  unfold JS.slice_from. simpl.
  replace (Z.min 0 (Z.of_nat (List.length arr))) with 0 by lia. reflexivity.
Qed.

Lemma array_indexOf_from_empty (parts : list string) (i : Z) :
  0 <= i ->
  match after_first_empty parts with
  | Some rest =>
      exists k : nat,
        JS.array_indexOf_from i "" parts = i + Z.of_nat k /\
        skipn (S k) parts = rest
  | None => JS.array_indexOf_from i "" parts = -1
  end.
Proof.
  revert i. induction parts as [|p ps IH]; intros i Hi; simpl; [reflexivity|].
  destruct p as [|c p']; simpl.
  - exists 0%nat. split; [lia | reflexivity].
  - specialize (IH (i + 1) ltac:(lia)).
    destruct (after_first_empty ps) as [rest|]; [|exact IH].
    destruct IH as (k & Hk & Hrest).
    exists (S k). split; [lia | exact Hrest].
Qed.

Lemma slice_after_indexOf_empty (parts : list string) :
  JS.slice_from (JS.array_indexOf "" parts + 1) parts
  = match after_first_empty parts with
    | Some rest => rest
    | None => parts
    end.
Proof.
  unfold JS.array_indexOf.
  pose proof (array_indexOf_from_empty parts 0 ltac:(lia)) as Hidx.
  destruct (after_first_empty parts) as [rest|].
  - destruct Hidx as (k & -> & <-).
    unfold JS.slice_from.
    assert (Hlen : (k < List.length parts)%nat \/ (List.length parts <= k)%nat) by lia.
    destruct Hlen as [Hlt|Hge].
    + replace (0 + Z.of_nat k + 1 <? 0) with false by (symmetry; apply Z.ltb_ge; lia).
      f_equal. lia.
    + replace (0 + Z.of_nat k + 1 <? 0) with false by (symmetry; apply Z.ltb_ge; lia).
      rewrite !skipn_all2 by lia. reflexivity.
  - rewrite Hidx. simpl. apply slice_from_0.
Qed.

Lemma find_all_false {A} (f : A -> bool) (l : list A) :
  (forall x, In x l -> f x = false) -> List.find f l = None.
Proof.
  induction l as [|a l IH]; intros Hall; simpl; [reflexivity|].
  rewrite (Hall a (or_introl eq_refl)). apply IH.
  intros x Hx. apply Hall. now right.
Qed.

Lemma or_else_some_self (s : string) : JS.or_else (Some s) "" = s.
Proof. destruct s; reflexivity. Qed.

(** ** AddressParser *)

(** With the postal code written in one word the six fields come out as
    the specification lists them. *)
Example parseAddress_joined_postal :
  parseAddress "123 Main St Burnaby V5H1A1 Metrotown"
  = mkAddress (Some "123") (Some "Main") (Some "St") "Burnaby" "V5H1A1"
      "Metrotown".
Proof. vm_compute. reflexivity. Qed.

(** C4, on the code. [parseAddress] applied to
    "123 Main St Burnaby V5H 1A1 Metrotown" returns the street and city
    fields of the claim, but an empty [postalCode] and the whole input as
    [neighborhood]: the input is split at every space, so no token holds
    "V5H 1A1", although the pattern allows for the space. *)
Theorem parseAddress_spaced_postal :
  parseAddress "123 Main St Burnaby V5H 1A1 Metrotown"
  = mkAddress (Some "123") (Some "Main") (Some "St") "Burnaby" ""
      "123 Main St Burnaby V5H 1A1 Metrotown".
Proof. vm_compute. reflexivity. Qed.

(** The pattern itself accepts the spaced postal code. *)
Example is_postal_spaced : is_postal "V5H 1A1" = true.
Proof. vm_compute. reflexivity. Qed.

(** C8 as stated fails: no token of "123 Main St" is a postal code, and
    the neighborhood is the whole input, not the tokens from index 1. *)
Lemma neighborhood_not_from_index_1 :
  (forall part, In part (JS.split " " "123 Main St") -> is_postal part = false)
  /\ postalCode (parseAddress "123 Main St") = ""
  /\ neighborhood (parseAddress "123 Main St") = "123 Main St"
  /\ neighborhood (parseAddress "123 Main St")
     <> JS.join " " (skipn 1 (JS.split " " "123 Main St")).
Proof.
  repeat split; try (vm_compute; reflexivity).
  - intros part Hin. each_member Hin ltac:(vm_compute; reflexivity).
  - vm_compute. discriminate.
Qed.

(** C8, amended. When no token of the address matches the postal-code
    pattern, [postalCode] is empty and [neighborhood] is made of the tokens
    after the first empty token; when no token is empty it is the whole
    address. *)
Theorem parseAddress_without_postal (addressString : string) :
  (forall part, In part (JS.split " " addressString) -> is_postal part = false) ->
  postalCode (parseAddress addressString) = ""
  /\ neighborhood (parseAddress addressString)
     = match after_first_empty (JS.split " " addressString) with
       | Some rest => JS.join " " rest
       | None => addressString
       end.
Proof.
  intros Hnone. unfold parseAddress. cbn [postalCode neighborhood].
  rewrite (find_all_false _ _ Hnone).
  change (JS.or_else None "") with "". split; [reflexivity|].
  rewrite or_else_some_self, slice_after_indexOf_empty.
  destruct (after_first_empty (JS.split " " addressString)); [reflexivity|].
  apply join_split.
Qed.

Lemma parseAddress_without_postal_witness :
  postalCode (parseAddress "123 Main St") = ""
  /\ neighborhood (parseAddress "123 Main St")
     = match after_first_empty (JS.split " " "123 Main St") with
       | Some rest => JS.join " " rest
       | None => "123 Main St"
       end.
Proof.
  apply (parseAddress_without_postal "123 Main St").
  intros part Hin. each_member Hin ltac:(vm_compute; reflexivity).
Defined.

(** The one input with no postal code for which the claim's "from index 1"
    reading holds after [cleanText]: the empty address. *)
Example parseAddress_empty :
  parseAddress "" = mkAddress (Some "") None None "" "" "".
Proof. vm_compute. reflexivity. Qed.

(** ** Searching in strings *)

Lemma prefix_app (pat s : string) :
  String.prefix pat s = true -> exists rest, s = pat ++ rest.
Proof.
  revert s. induction pat as [|c pat IH]; intros s Hp.
  - now exists s.
  - destruct s as [|d s]; [discriminate|].
    cbn [String.prefix] in Hp.
    destruct (Ascii.ascii_dec c d) as [Heq|]; [subst d|discriminate].
    destruct (IH s Hp) as (rest & ->). now exists rest.
Qed.

(** A non-negative [indexOf] is the position of an occurrence. *)
Lemma indexOf_from_occurrence (pat s : string) (i : Z) :
  0 <= i -> 0 <= JS.indexOf_from i pat s ->
  exists before rest,
    s = before ++ pat ++ rest
    /\ Z.of_nat (String.length before) = JS.indexOf_from i pat s - i.
Proof.
  revert i. induction s as [|c s IH]; intros i Hi Hfound;
    cbn [JS.indexOf_from] in *.
  - destruct (String.prefix pat "") eqn:Hp; [|lia].
    destruct (prefix_app _ _ Hp) as (rest & Hrest).
    exists "", rest. split; [exact Hrest | cbn [String.length]; lia].
  - destruct (String.prefix pat (String c s)) eqn:Hp.
    + destruct (prefix_app _ _ Hp) as (rest & Hrest).
      exists "", rest. split; [exact Hrest | cbn [String.length]; lia].
    + destruct (IH (i + 1) ltac:(lia) Hfound) as (before & rest & Hs & Hlen).
      exists (String c before), rest. split.
      * cbn [String.append]. now rewrite <- Hs.
      * cbn [String.length]. lia.
Qed.

Lemma indexOf_occurrence (pat s : string) :
  0 <= JS.indexOf pat s ->
  exists before rest,
    s = before ++ pat ++ rest
    /\ Z.of_nat (String.length before) = JS.indexOf pat s.
Proof.
  intros Hfound. unfold JS.indexOf in *.
  destruct (indexOf_from_occurrence pat s 0 ltac:(lia) Hfound)
    as (before & rest & Hs & Hlen).
  exists before, rest. split; [assumption | lia].
Qed.

Lemma string_length_app (s t : string) :
  String.length (s ++ t) = (String.length s + String.length t)%nat.
Proof. induction s; simpl; [reflexivity | now rewrite IHs]. Qed.

Lemma substring_0_0 (s : string) : String.substring 0 0 s = "".
Proof. destruct s; reflexivity. Qed.

Lemma substring_0_length (before rest : string) :
  String.substring 0 (String.length before) (before ++ rest) = before.
Proof.
  induction before as [|c before IH]; simpl.
  - apply substring_0_0.
  - now rewrite IH.
Qed.

(** [text.substring(0, n)] where [n] is the length of a prefix of [text]. *)
Lemma js_substring_prefix (before rest : string) :
  JS.substring 0 (Z.of_nat (String.length before)) (before ++ rest) = before.
Proof.
  unfold JS.substring. rewrite string_length_app.
  set (n := String.length before). set (m := String.length rest).
  replace (Z.min (Z.max 0 0) (Z.of_nat (n + m))) with 0 by lia.
  replace (Z.min (Z.max (Z.of_nat n) 0) (Z.of_nat (n + m))) with (Z.of_nat n) by lia.
  replace (Z.min 0 (Z.of_nat n)) with 0 by lia.
  replace (Z.max 0 (Z.of_nat n)) with (Z.of_nat n) by lia.
  rewrite Z.sub_0_r, Nat2Z.id. simpl. apply substring_0_length.
Qed.

(** ** DetailTextParser: the description *)

(** C7 as stated fails: with "General Info:" before "Documents & Links:"
    the description runs up to the later marker. *)
Lemma description_runs_past_general_info :
  let text := "abc General Info: x Documents & Links: y" in
  JS.indexOf "General Info:" text = 4
  /\ JS.indexOf "Documents & Links:" text = 20
  /\ extractDescription text = "abc General Info: x"
  /\ description_up_to_first_marker text = "abc"
  /\ extractDescription text <> description_up_to_first_marker text.
Proof.
  cbv zeta. repeat split; try (vm_compute; reflexivity).
  vm_compute. discriminate.
Qed.

(** C7, amended. For a blob that contains both markers, the description is
    the trimmed text before the first "Documents & Links:" when that marker
    does not open the blob, wherever "General Info:" stands; when it opens
    the blob, it is the trimmed text before the first "General Info:". *)
Theorem extractDescription_both_markers (text : string) :
  0 <= JS.indexOf "Documents & Links:" text ->
  0 <= JS.indexOf "General Info:" text ->
  let docs_ends := 0 <? JS.indexOf "Documents & Links:" text in
  exists before rest,
    text = before ++ (if docs_ends then "Documents & Links:" else "General Info:") ++ rest
    /\ Z.of_nat (String.length before)
       = (if docs_ends then JS.indexOf "Documents & Links:" text
          else JS.indexOf "General Info:" text)
    /\ extractDescription text = JS.trim before.
Proof.
  intros Hdocs Hgeneral docs_ends. unfold extractDescription. subst docs_ends.
  destruct (0 <? JS.indexOf "Documents & Links:" text).
  - destruct (indexOf_occurrence _ _ Hdocs) as (before & rest & Htext & Hlen).
    exists before, rest. repeat split; try assumption.
    rewrite <- Hlen, Htext. now rewrite js_substring_prefix.
  - destruct (indexOf_occurrence _ _ Hgeneral) as (before & rest & Htext & Hlen).
    exists before, rest. repeat split; try assumption.
    rewrite <- Hlen, Htext. now rewrite js_substring_prefix.
Qed.

Lemma extractDescription_both_markers_witness :
  exists before rest,
    "abc General Info: x Documents & Links: y"
    = before ++ "Documents & Links:" ++ rest
    /\ Z.of_nat (String.length before) = 20
    /\ extractDescription "abc General Info: x Documents & Links: y"
       = JS.trim before.
Proof.
  apply (extractDescription_both_markers
           "abc General Info: x Documents & Links: y");
    vm_compute; discriminate.
Defined.

(** Where the documents marker comes first and does not open the blob, the
    claim's reading and the code agree. *)
Lemma extractDescription_docs_first (text : string) :
  0 < JS.indexOf "Documents & Links:" text ->
  JS.indexOf "Documents & Links:" text <= JS.indexOf "General Info:" text ->
  extractDescription text = description_up_to_first_marker text.
Proof.
  intros Hpos Hfirst. unfold extractDescription, description_up_to_first_marker.
  rewrite (proj2 (Z.ltb_lt _ _) Hpos). now rewrite Z.min_l.
Qed.

(** ** SummaryExtractor: the price *)

Example parseFloat_plain_integer : parseFloat "1234500" = Dec false 1234500 0.
Proof. vm_compute. reflexivity. Qed.

Example parseFloat_empty : parseFloat "" = NaN.
Proof. vm_compute. reflexivity. Qed.

Example parseFloat_fraction_exponent :
  parseFloat "  -12.5e-3 sq" = Dec true 125 (-4).
Proof. vm_compute. reflexivity. Qed.

(** C9 as stated fails in the modular variant: [parsePrice] turns the NaN
    of an absent price into 0. *)
Lemma parsePrice_absent_is_zero :
  parsePrice "" = Dec false 0 0
  /\ amount (price (Services.extractListingInfo (node_with_price ""))) = Dec false 0 0
  /\ amount (price (Services.extractListingInfo (node_with_price ""))) <> NaN.
Proof.
  repeat split; try (vm_compute; reflexivity). vm_compute. discriminate.
Qed.

(** C9, amended. In both variants [formatted] is the trimmed price text,
    and the price text "$1,234,500" gives the amount 1234500; for an absent
    (empty) price text the amount is NaN in bot.js and 0 in the modular
    variant, [formatted] being the empty text in both. *)
Theorem price_extraction `{Extractors} (element : ListingNode) :
  formatted (price (BotJs.extractListingInfo element))
    = JS.trim (price_container_text element)
  /\ formatted (price (Services.extractListingInfo element))
    = JS.trim (price_container_text element)
  /\ (JS.trim (price_container_text element) = "$1,234,500" ->
      price (BotJs.extractListingInfo element)
        = mkPrice (Dec false 1234500 0) "$1,234,500"
      /\ price (Services.extractListingInfo element)
        = mkPrice (Dec false 1234500 0) "$1,234,500")
  /\ (JS.trim (price_container_text element) = "" ->
      price (BotJs.extractListingInfo element) = mkPrice NaN ""
      /\ price (Services.extractListingInfo element) = mkPrice (Dec false 0 0) "").
Proof.
  unfold BotJs.extractListingInfo, Services.extractListingInfo, listing_of_node.
  cbn [price formatted].
  split; [reflexivity|]. split; [reflexivity|].
  split; intros ->; split; vm_compute; reflexivity.
Qed.

Lemma price_extraction_witness :
  price (BotJs.extractListingInfo (node_with_price "  $1,234,500 "))
    = mkPrice (Dec false 1234500 0) "$1,234,500"
  /\ price (Services.extractListingInfo (node_with_price "  $1,234,500 "))
    = mkPrice (Dec false 1234500 0) "$1,234,500"
  /\ price (BotJs.extractListingInfo (node_with_price "")) = mkPrice NaN ""
  /\ price (Services.extractListingInfo (node_with_price ""))
    = mkPrice (Dec false 0 0) "".
Proof.
  destruct (price_extraction (node_with_price "  $1,234,500 "))
    as (_ & _ & Hprice & _).
  destruct (price_extraction (node_with_price "")) as (_ & _ & _ & Habsent).
  destruct (Hprice eq_refl) as [Hbot Hsvc].
  destruct (Habsent eq_refl) as [Hbot0 Hsvc0].
  repeat split; assumption.
Defined.

(** ** Fetcher *)

Lemma count_gets_app (l1 l2 : list Event) :
  count_gets (l1 ++ l2) = (count_gets l1 + count_gets l2)%nat.
Proof.
  induction l1 as [|[url t|ms] l1 IH]; simpl; [reflexivity | now rewrite IH | exact IH].
Qed.

Lemma count_gets_retry_log url delay timeout k :
  count_gets (retry_log url delay timeout k) = S k.
Proof. induction k; simpl; [reflexivity | now rewrite IHk]. Qed.

Section FetcherProperties.
Variable origin : option string -> nat -> Reply.
Variables (url : option string) (retries delay timeout : Z).

(** One pass of the loop, spelled out. *)
Lemma axiosWithRetry_from_step (fuel : nat) (i : Z) (w : World) :
  axiosWithRetry_from origin (S fuel) url retries delay timeout i w
  = if i <? retries then
      let w1 := {| issued := S (issued w);
                   log := log w ++ [EvGet url (Some timeout)] |} in
      match origin url (issued w) with
      | Data data => (Ret (Some data), w1)
      | Failure e =>
          if i =? retries - 1 then (Throw e, w1)
          else axiosWithRetry_from origin fuel url retries delay timeout (i + 1)
                 {| issued := S (issued w);
                    log := (log w ++ [EvGet url (Some timeout)]) ++ [EvSleep delay] |}
      end
    else (Ret None, w).
Proof.
  cbn [axiosWithRetry_from].
  destruct (i <? retries); [|reflexivity].
  unfold try_catch, bind, axios_get.
  destruct (origin url (issued w)); [reflexivity|].
  destruct (i =? retries - 1); reflexivity.
Qed.

(** The loop entered with counter [i], [i < retries]. *)
Lemma axiosWithRetry_from_spec (fuel : nat) :
  forall (i : Z) (w : World),
    0 <= i < retries ->
    (Z.to_nat (retries - i) <= fuel)%nat ->
    exists k : nat,
      Z.of_nat k < retries - i
      /\ (forall j, (j < k)%nat ->
            exists e, origin url (issued w + j)%nat = Failure e)
      /\ snd (axiosWithRetry_from origin fuel url retries delay timeout i w)
         = {| issued := issued w + S k;
              log := log w ++ retry_log url delay timeout k |}
      /\ match origin url (issued w + k)%nat with
         | Data data =>
             fst (axiosWithRetry_from origin fuel url retries delay timeout i w)
             = Ret (Some data)
         | Failure e =>
             Z.of_nat k = retries - 1 - i
             /\ fst (axiosWithRetry_from origin fuel url retries delay timeout i w)
                = Throw e
         end.
Proof.
  induction fuel as [|fuel IH]; intros i w Hi Hfuel; [lia|].
  rewrite axiosWithRetry_from_step.
  rewrite (proj2 (Z.ltb_lt i retries)) by lia. cbv zeta.
  destruct (origin url (issued w)) as [data|e] eqn:Hreply.
  - exists 0%nat. rewrite Nat.add_0_r, Hreply. cbn [fst snd retry_log].
    split; [lia|]. split; [intros j Hj; lia|]. split; [|reflexivity].
    now rewrite Nat.add_1_r.
  - destruct (Z.eqb_spec i (retries - 1)) as [Hlast|Hmore].
    + exists 0%nat. rewrite Nat.add_0_r, Hreply. cbn [fst snd retry_log].
      split; [lia|]. split; [intros j Hj; lia|]. split; [|split; [lia|reflexivity]].
      now rewrite Nat.add_1_r.
    + set (w2 := {| issued := S (issued w);
                    log := (log w ++ [EvGet url (Some timeout)]) ++ [EvSleep delay] |}).
      destruct (IH (i + 1) w2 ltac:(lia) ltac:(lia)) as (k & Hk & Hfail & Hsnd & Hfst).
      exists (S k). split; [lia|]. split; [|split].
      * intros j Hj. destruct j as [|j].
        -- exists e. now rewrite Nat.add_0_r.
        -- destruct (Hfail j ltac:(lia)) as (e' & He').
           exists e'. cbn [issued w2] in He'.
           now replace (issued w + S j)%nat with (S (issued w) + j)%nat by lia.
      * rewrite Hsnd. cbn [issued log w2 retry_log]. f_equal; [lia|].
        now rewrite <- !app_assoc.
      * cbn [issued w2] in Hfst.
        replace (issued w + S k)%nat with (S (issued w) + k)%nat by lia.
        destruct (origin url (S (issued w) + k)%nat); [exact Hfst|].
        destruct Hfst as [Hlast Hthrow]. split; [lia | exact Hthrow].
Qed.

(** C5. For [maxAttempts >= 1] (and fuel for that many passes) the Fetcher
    makes [k + 1 <= maxAttempts] attempts, where the first [k] fail and
    each of them is followed by the wait of [delayMs]; it returns the
    response of the first attempt that succeeds, and when attempt number
    [maxAttempts] fails too it throws that attempt's error unchanged. *)
Theorem axiosWithRetry_bounded_retry (fuel : nat) (w : World) :
  1 <= retries ->
  (Z.to_nat retries <= fuel)%nat ->
  exists k : nat,
    Z.of_nat (S k) <= retries
    /\ (forall j, (j < k)%nat ->
          exists e, origin url (issued w + j)%nat = Failure e)
    /\ snd (axiosWithRetry origin fuel url retries delay timeout w)
       = {| issued := issued w + S k;
            log := log w ++ retry_log url delay timeout k |}
    /\ count_gets (log (snd (axiosWithRetry origin fuel url retries delay timeout w)))
       = (count_gets (log w) + S k)%nat
    /\ match origin url (issued w + k)%nat with
       | Data data =>
           fst (axiosWithRetry origin fuel url retries delay timeout w)
           = Ret (Some data)
       | Failure e =>
           Z.of_nat (S k) = retries
           /\ fst (axiosWithRetry origin fuel url retries delay timeout w)
              = Throw e
       end.
Proof.
  intros Hretries Hfuel. unfold axiosWithRetry.
  destruct (axiosWithRetry_from_spec fuel 0 w ltac:(lia)
              ltac:(rewrite Z.sub_0_r; exact Hfuel))
    as (k & Hk & Hfail & Hsnd & Hfst).
  exists k. split; [lia|]. split; [exact Hfail|]. split; [exact Hsnd|]. split.
  - rewrite Hsnd. cbn [log]. now rewrite count_gets_app, count_gets_retry_log.
  - destruct (origin url (issued w + k)%nat); [exact Hfst|].
    destruct Hfst as [Hlast Hthrow]. split; [lia | exact Hthrow].
Qed.

End FetcherProperties.

Lemma axiosWithRetry_bounded_retry_witness :
  exists k : nat,
    Z.of_nat (S k) <= 3
    /\ (forall j, (j < k)%nat ->
          exists e, flaky_origin 5 [] "" (Some "u") (issued fresh_world + j)%nat
                    = Failure e)
    /\ snd (axiosWithRetry (flaky_origin 5 [] "") 3 (Some "u") 3 1000 10000 fresh_world)
       = {| issued := issued fresh_world + S k;
            log := log fresh_world ++ retry_log (Some "u") 1000 10000 k |}
    /\ count_gets
         (log (snd (axiosWithRetry (flaky_origin 5 [] "") 3 (Some "u") 3 1000 10000
                      fresh_world)))
       = (count_gets (log fresh_world) + S k)%nat
    /\ match flaky_origin 5 [] "" (Some "u") (issued fresh_world + k)%nat with
       | Data data =>
           fst (axiosWithRetry (flaky_origin 5 [] "") 3 (Some "u") 3 1000 10000
                  fresh_world)
           = Ret (Some data)
       | Failure e =>
           Z.of_nat (S k) = 3
           /\ fst (axiosWithRetry (flaky_origin 5 [] "") 3 (Some "u") 3 1000 10000
                     fresh_world)
              = Throw e
       end.
Proof.
  apply (axiosWithRetry_bounded_retry (flaky_origin 5 [] "") (Some "u") 3 1000 10000
           3 fresh_world); [lia | vm_compute; lia].
Defined.

(** Three failures with the default arguments: three attempts, two waits,
    and the error of the third attempt. *)
Example axiosWithRetry_all_attempts_fail :
  axiosWithRetry (flaky_origin 3 [] "") 3 (Some "u") 3 1000 10000 fresh_world
  = (Throw (NetworkError "ECONNRESET"),
     {| issued := 3;
        log := [EvGet (Some "u") (Some 10000); EvSleep 1000;
                EvGet (Some "u") (Some 10000); EvSleep 1000;
                EvGet (Some "u") (Some 10000)] |}).
Proof. vm_compute. reflexivity. Qed.

(** One failure: the second attempt is returned. *)
Example axiosWithRetry_second_attempt :
  axiosWithRetry (flaky_origin 1 [] "x") 3 (Some "u") 3 1000 10000 fresh_world
  = (Ret (Some (Html (mkDocument [] "x"))),
     {| issued := 2;
        log := [EvGet (Some "u") (Some 10000); EvSleep 1000;
                EvGet (Some "u") (Some 10000)] |}).
Proof. vm_compute. reflexivity. Qed.

(** ** PaginationCrawler *)

Section CrawlerProperties.
Context `{Extractors}.
Variable origin : option string -> nat -> Reply.
Variable extractListingInfo : ListingNode -> Listing.

Lemma getLinksFromPage_run (url : string) (w : World) :
  getLinksFromPage origin extractListingInfo url w
  = (Ret (page_result extractListingInfo (origin (Some url) (issued w))), after_get url w).
Proof.
  unfold getLinksFromPage, try_catch, bind, axios_get, page_result, after_get.
  destruct (origin (Some url) (issued w)) as [[doc|e]|e]; cbn; try reflexivity.
  destruct (map extractListingInfo (listing_nodes doc)); reflexivity.
Qed.

Lemma crawl_body_run (baseUrl : string) (st : Crawl) (w : World) :
  crawl_body origin extractListingInfo baseUrl st w
  = match page_result extractListingInfo (origin (Some (page_url baseUrl st)) (issued w)) with
    | ([], _) => (Ret BreakEmpty, after_get (page_url baseUrl st) w)
    | (listings, pageHasInactive) =>
        (Ret (Continue {| allListings := allListings st ++ listings;
                          currentPage := currentPage st + 1;
                          foundInactive := pageHasInactive |}),
         after_sleep 1500 (after_get (page_url baseUrl st) w))
    end.
Proof.
  unfold crawl_body. fold (page_url baseUrl st).
  unfold try_catch at 1. unfold bind at 1. rewrite getLinksFromPage_run.
  destruct (page_result extractListingInfo (origin (Some (page_url baseUrl st)) (issued w)))
    as [[|l ls] found]; reflexivity.
Qed.

Lemma count_gets_after_get (url : string) (w : World) :
  count_gets (log (after_get url w)) = S (count_gets (log w)).
Proof. cbn. rewrite count_gets_app. cbn. lia. Qed.

Lemma count_gets_after_sleep (ms : Z) (w : World) :
  count_gets (log (after_sleep ms w)) = count_gets (log w).
Proof. cbn. rewrite count_gets_app. cbn. lia. Qed.

(** The loop, entered in any state, ends when it has fuel for the pages
    that are left, and makes no more requests than pages are left. *)
Lemma crawl_loop_terminates (baseUrl : string) (maxPages : Z) (fuel : nat) :
  forall (st : Crawl) (w : World),
    (Z.to_nat (maxPages + 1 - currentPage st) <= fuel)%nat ->
    exists st' w',
      crawl_loop origin extractListingInfo fuel baseUrl maxPages st w = (Ret st', w')
      /\ (count_gets (log w')
          <= count_gets (log w) + Z.to_nat (maxPages + 1 - currentPage st))%nat.
Proof.
  induction fuel as [|fuel IH]; intros st w Hfuel.
  - cbn [crawl_loop].
    destruct (negb (foundInactive st) && (currentPage st <=? maxPages)) eqn:Htest.
    + apply andb_prop in Htest. destruct Htest as [_ Hle].
      apply Z.leb_le in Hle. lia.
    + exists st, w. split; [reflexivity | lia].
  - cbn [crawl_loop].
    destruct (negb (foundInactive st) && (currentPage st <=? maxPages)) eqn:Htest.
    + apply andb_prop in Htest. destruct Htest as [_ Hle]. apply Z.leb_le in Hle.
      unfold bind at 1. rewrite crawl_body_run.
      destruct (page_result extractListingInfo (origin (Some (page_url baseUrl st)) (issued w)))
        as [[|l ls] found].
      * exists st, (after_get (page_url baseUrl st) w).
        split; [reflexivity|]. rewrite count_gets_after_get. lia.
      * set (st1 := {| allListings := allListings st ++ l :: ls;
                       currentPage := currentPage st + 1;
                       foundInactive := found |}).
        set (w1 := after_sleep 1500 (after_get (page_url baseUrl st) w)).
        destruct (IH st1 w1) as (st' & w' & Hrun & Hcount).
        { cbn [currentPage st1]. lia. }
        exists st', w'. split; [exact Hrun|].
        unfold w1 in Hcount.
        rewrite count_gets_after_sleep, count_gets_after_get in Hcount.
        cbn [currentPage st1] in Hcount. lia.
    + exists st, w. split; [reflexivity | lia].
Qed.

(** C2. For every origin, base URL and page cap [maxPages], the crawl
    loop, given fuel for [maxPages] passes, ends with a result, and it has
    then fetched at most [maxPages] pages (none when [maxPages] is below 1). *)
Theorem crawl_terminates_within_maxPages (baseUrl : string) (maxPages : Z)
    (fuel : nat) :
  (Z.to_nat maxPages <= fuel)%nat ->
  exists st w,
    crawl origin extractListingInfo fuel baseUrl maxPages fresh_world = (Ret st, w)
    /\ Z.of_nat (count_gets (log w)) <= Z.max 0 maxPages
    /\ (0 <= maxPages -> Z.of_nat (count_gets (log w)) <= maxPages).
Proof.
  intros Hfuel. unfold crawl.
  destruct (crawl_loop_terminates baseUrl maxPages fuel crawl_start fresh_world)
    as (st & w & Hrun & Hcount).
  { cbn [currentPage crawl_start]. replace (maxPages + 1 - 1) with maxPages by lia.
    exact Hfuel. }
  exists st, w. split; [exact Hrun|].
  cbn [currentPage crawl_start log fresh_world count_gets] in Hcount. lia.
Qed.

(** One pass from a state in which the loop test holds. *)
Lemma crawl_loop_step (baseUrl : string) (maxPages : Z) (fuel : nat)
    (st : Crawl) (w : World) :
  foundInactive st = false ->
  currentPage st <= maxPages ->
  crawl_loop origin extractListingInfo (S fuel) baseUrl maxPages st w
  = match page_result extractListingInfo (origin (Some (page_url baseUrl st)) (issued w)) with
    | ([], _) => (Ret st, after_get (page_url baseUrl st) w)
    | (listings, pageHasInactive) =>
        crawl_loop origin extractListingInfo fuel baseUrl maxPages
          {| allListings := allListings st ++ listings;
             currentPage := currentPage st + 1;
             foundInactive := pageHasInactive |}
          (after_sleep 1500 (after_get (page_url baseUrl st) w))
    end.
Proof.
  intros Hactive Hpage. cbn [crawl_loop].
  rewrite Hactive, (proj2 (Z.leb_le _ _) Hpage). cbn [negb andb].
  unfold bind at 1. rewrite crawl_body_run.
  destruct (page_result extractListingInfo (origin (Some (page_url baseUrl st)) (issued w)))
    as [[|l ls] found]; reflexivity.
Qed.

(** The loop does nothing once [foundInactive] is set. *)
Lemma crawl_loop_stopped (baseUrl : string) (maxPages : Z) (fuel : nat)
    (st : Crawl) (w : World) :
  foundInactive st = true ->
  crawl_loop origin extractListingInfo fuel baseUrl maxPages st w = (Ret st, w).
Proof. intros Hfound. destruct fuel; cbn [crawl_loop]; now rewrite Hfound. Qed.

(** C3. In any state in which the loop runs, if the page fetched has a
    listing whose status, lower-cased, contains "not active", "inactive",
    "sold" or "pending", then the loop ends with all listings of that page
    appended to the accumulator, and the request for that page is the last
    one: the log gains this request and the politeness wait, nothing else. *)
Theorem crawl_stops_at_inactive_page (baseUrl : string) (maxPages : Z)
    (fuel : nat) (st : Crawl) (w : World) (doc : Document) :
  foundInactive st = false ->
  currentPage st <= maxPages ->
  origin (Some (page_url baseUrl st)) (issued w) = Data (Html doc) ->
  (exists element,
      In element (listing_nodes doc)
      /\ is_inactive_status (status (extractListingInfo element)) = true) ->
  crawl_loop origin extractListingInfo (S fuel) baseUrl maxPages st w
  = (Ret {| allListings :=
              allListings st ++ map extractListingInfo (listing_nodes doc);
            currentPage := currentPage st + 1;
            foundInactive := true |},
     {| issued := S (issued w);
        log := log w ++ [EvGet (Some (page_url baseUrl st)) None; EvSleep 1500] |}).
Proof.
  intros Hactive Hpage Hreply (element & Hin & Hinactive).
  rewrite (crawl_loop_step _ _ _ _ _ Hactive Hpage), Hreply.
  cbn [page_result].
  assert (Hsome : existsb (fun listing => is_inactive_status (status listing))
                    (map extractListingInfo (listing_nodes doc)) = true).
  { apply existsb_exists. exists (extractListingInfo element).
    split; [now apply in_map | exact Hinactive]. }
  destruct (map extractListingInfo (listing_nodes doc)) as [|l ls] eqn:Hmap.
  - discriminate Hsome.
  - rewrite Hsome, crawl_loop_stopped by reflexivity.
    unfold after_sleep, after_get. cbn [issued log].
    now rewrite <- app_assoc.
Qed.

(** C10. [getLinksFromPage] always returns: it makes its one request, and
    when the request or the parsing fails the value is
    [{ listings: [], foundInactive: false }]. The loop body therefore never
    leaves through the loop's own [catch]; a failed page leaves it through
    the empty-listings [break], as a page without listings does, and the
    loop ends with its state, the accumulator included, as it was. *)
Theorem getLinksFromPage_never_throws (baseUrl : string) (maxPages : Z)
    (fuel : nat) (st : Crawl) (w : World) :
  let url := page_url baseUrl st in
  let reply := origin (Some url) (issued w) in
  (exists page,
      getLinksFromPage origin extractListingInfo url w = (Ret page, after_get url w)
      /\ (page_failed reply = true -> page = ([], false)))
  /\ (forall error,
        fst (crawl_body origin extractListingInfo baseUrl st w)
        <> Ret (BreakCatch error))
  /\ (page_failed reply = true \/ fst (page_result extractListingInfo reply) = [] ->
      crawl_body origin extractListingInfo baseUrl st w
      = (Ret BreakEmpty, after_get url w))
  /\ (page_failed reply = true \/ fst (page_result extractListingInfo reply) = [] ->
      foundInactive st = false -> currentPage st <= maxPages ->
      crawl_loop origin extractListingInfo (S fuel) baseUrl maxPages st w
      = (Ret st, after_get url w)).
Proof.
  intros url reply.
  assert (Hempty : page_failed reply = true \/ fst (page_result extractListingInfo reply) = [] ->
                   exists found, page_result extractListingInfo reply = ([], found)).
  { intros [Hfailed|Hnone].
    - exists false. destruct reply as [[doc|e]|e]; [discriminate | reflexivity..].
    - destruct (page_result extractListingInfo reply) as [listings found]. cbn in Hnone. subst.
      now exists found. }
  split; [|split; [|split]].
  - exists (page_result extractListingInfo reply). split; [apply getLinksFromPage_run|].
    intros Hfailed. destruct reply as [[doc|e]|e]; [discriminate | reflexivity..].
  - intros error. rewrite crawl_body_run. fold url. fold reply.
    destruct (page_result extractListingInfo reply) as [[|l ls] found]; cbn; discriminate.
  - intros Hcase. destruct (Hempty Hcase) as (found & Hpage).
    rewrite crawl_body_run. fold url. fold reply. now rewrite Hpage.
  - intros Hcase Hactive Hpage. destruct (Hempty Hcase) as (found & Hres).
    rewrite (crawl_loop_step _ _ _ _ _ Hactive Hpage). fold url. fold reply.
    now rewrite Hres.
Qed.

End CrawlerProperties.

(** *** Concrete crawls *)

Lemma crawl_terminates_within_maxPages_witness :
  exists st w,
    crawl endless_origin BotJs.extractListingInfo 3 listings_url 3 fresh_world
    = (Ret st, w)
    /\ Z.of_nat (count_gets (log w)) <= Z.max 0 3
    /\ (0 <= 3 -> Z.of_nat (count_gets (log w)) <= 3).
Proof.
  apply (crawl_terminates_within_maxPages endless_origin BotJs.extractListingInfo
           listings_url 3 3). vm_compute. lia.
Defined.

(** With pages that never end the cap is what stops the crawl: exactly
    [maxPages] pages are fetched. *)
Example crawl_endless_origin_capped :
  let '(r, w) := crawl endless_origin BotJs.extractListingInfo 3 listings_url 3
                   fresh_world in
  (exists st, r = Ret st /\ List.length (allListings st) = 6%nat /\ currentPage st = 4)
  /\ count_gets (log w) = 3%nat.
Proof. vm_compute. split; [eexists; repeat split | reflexivity]. Qed.

Example statuses_active_sold_active :
  map is_inactive_status ["Active"; "Sold"; "Active"] = [false; true; false].
Proof. vm_compute. reflexivity. Qed.

Lemma crawl_stops_at_inactive_page_witness :
  crawl_loop (fun _ _ => Data (Html sold_page)) BotJs.extractListingInfo 20
    listings_url 20 crawl_start fresh_world
  = (Ret {| allListings :=
              allListings crawl_start
              ++ map BotJs.extractListingInfo (listing_nodes sold_page);
            currentPage := currentPage crawl_start + 1;
            foundInactive := true |},
     {| issued := S (issued fresh_world);
        log := log fresh_world
               ++ [EvGet (Some (page_url listings_url crawl_start)) None;
                   EvSleep 1500] |}).
Proof.
  apply (crawl_stops_at_inactive_page (fun _ _ => Data (Html sold_page))
           BotJs.extractListingInfo listings_url 20 19 crawl_start fresh_world
           sold_page).
  - reflexivity.
  - vm_compute. discriminate.
  - reflexivity.
  - exists (sample_node "4" "Sold"). split; [right; left; reflexivity|].
    vm_compute. reflexivity.
Defined.

(** A whole crawl: page 1 is active, page 2 is the example page; the five
    listings are kept in page order and page 3 is never asked for. *)
Example crawl_boundary_origin :
  let '(r, w) := crawl boundary_origin BotJs.extractListingInfo 20 listings_url 20
                   fresh_world in
  (exists st,
      r = Ret st
      /\ map listingId (allListings st)
         = [Some "1"; Some "2"; Some "3"; Some "4"; Some "5"]
      /\ foundInactive st = true)
  /\ log w = [EvGet (Some "https://dorisgee.com/mylistings.html?_pg=1") None;
              EvSleep 1500;
              EvGet (Some "https://dorisgee.com/mylistings.html?_pg=2") None;
              EvSleep 1500].
Proof. vm_compute. split; [eexists; repeat split | reflexivity]. Qed.

Lemma getLinksFromPage_never_throws_witness :
  getLinksFromPage dead_origin BotJs.extractListingInfo
    (page_url listings_url crawl_start) fresh_world
  = (Ret ([], false), after_get (page_url listings_url crawl_start) fresh_world)
  /\ crawl_body dead_origin BotJs.extractListingInfo listings_url crawl_start
       fresh_world
     = (Ret BreakEmpty, after_get (page_url listings_url crawl_start) fresh_world)
  /\ crawl_loop dead_origin BotJs.extractListingInfo 20 listings_url 20 crawl_start
       fresh_world
     = (Ret crawl_start, after_get (page_url listings_url crawl_start) fresh_world).
Proof.
  destruct (getLinksFromPage_never_throws dead_origin BotJs.extractListingInfo
              listings_url 20 19 crawl_start fresh_world)
    as ((page & Hrun & Hpage) & _ & Hbody & Hloop).
  split; [|split].
  - rewrite Hrun. now rewrite (Hpage eq_refl).
  - apply Hbody. left. reflexivity.
  - apply Hloop; [left; reflexivity | reflexivity | vm_compute; discriminate].
Defined.

(** C6, on the code. The listing-index page is fetched by a plain
    [axios.get(url)], outside the Fetcher: when the first reply is an error
    and the next would be the page, [getLinksFromPage] has made one request,
    without the Fetcher's configuration, and returns no listings, so the
    crawl ends empty-handed; the detail path, facing the same origin, waits
    and asks again. *)
Theorem getLinksFromPage_single_attempt :
  let origin := flaky_origin 1 (listing_nodes active_page) "Bright unit." in
  let url := "https://dorisgee.com/mylistings.html?_pg=1" in
  BotJs.getLinksFromPage origin url fresh_world
    = (Ret ([], false), {| issued := 1; log := [EvGet (Some url) None] |})
  /\ Services.getLinksFromPage origin url fresh_world
    = (Ret ([], false), {| issued := 1; log := [EvGet (Some url) None] |})
  /\ BotJs.crawl origin 20 listings_url 20 fresh_world
    = (Ret crawl_start, {| issued := 1; log := [EvGet (Some url) None] |})
  /\ log (snd (Services.scrapeListingDetails origin 3 (Some url) fresh_world))
    = [EvGet (Some url) (Some 10000); EvSleep 1000; EvGet (Some url) (Some 10000)].
Proof. vm_compute. repeat split; reflexivity. Qed.

(** For every origin and every page, the index fetch is that one plain
    request, whatever the reply. *)
Lemma getLinksFromPage_one_plain_request `{Extractors}
    (origin : option string -> nat -> Reply)
    (extractListingInfo : ListingNode -> Listing) (url : string) (w : World) :
  snd (getLinksFromPage origin extractListingInfo url w)
  = {| issued := S (issued w); log := log w ++ [EvGet (Some url) None] |}.
Proof. now rewrite getLinksFromPage_run. Qed.

(** ** DetailEnricher *)

Section EnricherProperties.
Context `{Extractors}.
Variable origin : option string -> nat -> Reply.
Variable parseDetailedInfo : string -> Completion (option DetailedInfo).

(** With fuel for the Fetcher's three passes, [scrapeListingDetails]
    returns; it neither throws nor runs out of fuel. *)
Lemma scrapeListingDetails_returns (fuel : nat) (url : option string) (w : World) :
  (3 <= fuel)%nat ->
  exists info,
    fst (scrapeListingDetails origin parseDetailedInfo fuel url w) = Ret info.
Proof.
  intros Hfuel.
  destruct (axiosWithRetry_from_spec origin url 3 1000 10000 fuel 0 w
              ltac:(lia) ltac:(exact Hfuel)) as (k & _ & _ & _ & Hfst).
  change (axiosWithRetry_from origin fuel url 3 1000 10000 0 w)
    with (axiosWithRetry origin fuel url 3 1000 10000 w) in Hfst.
  unfold scrapeListingDetails, try_catch, bind.
  destruct (axiosWithRetry origin fuel url 3 1000 10000 w) as [r w'].
  cbn [fst] in Hfst.
  destruct (origin url (issued w + k)%nat) as [data|e].
  - subst r. destruct data as [doc|e]; cbn.
    + destruct (parseDetailedInfo (cleanText (info_container_text doc)));
        cbn; eauto.
    + eauto.
  - destruct Hfst as [_ ->]. cbn. eauto.
Qed.

(** A fetch that fails permanently makes [detailedInfo] null. *)
Lemma scrapeListingDetails_permanent_failure (fuel : nat) (url : option string) :
  (3 <= fuel)%nat ->
  fetch_fails_permanently origin url ->
  fst (scrapeListingDetails origin parseDetailedInfo fuel url fresh_world) = Ret None.
Proof.
  intros Hfuel Hdown.
  destruct (axiosWithRetry_from_spec origin url 3 1000 10000 fuel 0 fresh_world
              ltac:(lia) ltac:(exact Hfuel)) as (k & Hk & _ & _ & Hfst).
  change (axiosWithRetry_from origin fuel url 3 1000 10000 0 fresh_world)
    with (axiosWithRetry origin fuel url 3 1000 10000 fresh_world) in Hfst.
  unfold scrapeListingDetails, try_catch, bind.
  destruct (axiosWithRetry origin fuel url 3 1000 10000 fresh_world) as [r w'].
  cbn [fst] in Hfst. cbn [issued fresh_world Nat.add] in Hfst.
  destruct (Hdown k ltac:(lia)) as (e & He). rewrite He in Hfst.
  destruct Hfst as [_ ->]. reflexivity.
Qed.

Lemma enrich_task_returns (fuel : nat) (listing : Listing) :
  (3 <= fuel)%nat ->
  enrich_task origin parseDetailedInfo fuel listing = Ret (enriched origin parseDetailedInfo fuel listing).
Proof.
  intros Hfuel. unfold enrich_task, enriched, detail_of, try_catch, bind.
  destruct (scrapeListingDetails_returns fuel (shareUrl listing) fresh_world Hfuel)
    as (info & Hinfo).
  destruct (scrapeListingDetails origin parseDetailedInfo fuel (shareUrl listing)
              fresh_world) as [r w].
  cbn [fst] in *. subst r. reflexivity.
Qed.

Lemma promise_all_returns (fuel : nat) (listings : list Listing) :
  (3 <= fuel)%nat ->
  promise_all (map (enrich_task origin parseDetailedInfo fuel) listings)
  = Ret (map (enriched origin parseDetailedInfo fuel) listings).
Proof.
  intros Hfuel. induction listings as [|l ls IH]; cbn [map promise_all].
  - reflexivity.
  - now rewrite enrich_task_returns, IH.
Qed.

(** The enrichment phase is the filter over the enriched records. *)
Lemma enrich_all_returns (fuel : nat) (listings : list Listing) :
  (3 <= fuel)%nat ->
  enrich_all origin parseDetailedInfo fuel listings
  = Ret (filter has_details (map (enriched origin parseDetailedInfo fuel) listings)).
Proof.
  intros Hfuel. unfold enrich_all. now rewrite promise_all_returns.
Qed.

(** The final dataset holds exactly the enriched records whose
    [detailedInfo] is not null, in the order of the summaries. *)
Lemma enrich_all_exactly_non_null (fuel : nat) (listings : list Listing) :
  (3 <= fuel)%nat ->
  exists out,
    enrich_all origin parseDetailedInfo fuel listings = Ret out
    /\ Forall (fun e => detailedInfo e <> None) out
    /\ (forall e,
          In e out <->
          (exists listing,
              In listing listings
              /\ enrich_task origin parseDetailedInfo fuel listing = Ret e)
          /\ detailedInfo e <> None).
Proof.
  intros Hfuel. exists (filter has_details (map (enriched origin parseDetailedInfo fuel) listings)).
  split; [now apply enrich_all_returns|]. split.
  - apply Forall_forall. intros e He. apply filter_In in He.
    destruct He as [_ He]. unfold has_details in He.
    destruct (detailedInfo e); [discriminate | discriminate He].
  - intros e. rewrite filter_In, in_map_iff. split.
    + intros [(listing & <- & Hin) Hdet]. split.
      * exists listing. split; [exact Hin | now apply enrich_task_returns].
      * unfold has_details in Hdet. destruct (detailedInfo (enriched origin parseDetailedInfo fuel listing));
          [discriminate | discriminate Hdet].
    + intros [(listing & Hin & Htask) Hdet].
      rewrite enrich_task_returns in Htask by exact Hfuel.
      injection Htask as <-. split; [now exists listing|].
      unfold has_details. now destruct (detailedInfo (enriched origin parseDetailedInfo fuel listing)).
Qed.

(** Enrichment isolation: a listing whose detail fetch fails permanently
    is dropped, and the dataset is what it would be without that listing. *)
Lemma enrich_all_isolation (fuel : nat) (before after : list Listing)
    (failing : Listing) :
  (3 <= fuel)%nat ->
  fetch_fails_permanently origin (shareUrl failing) ->
  enrich_all origin parseDetailedInfo fuel (before ++ failing :: after)
  = enrich_all origin parseDetailedInfo fuel (before ++ after).
Proof.
  intros Hfuel Hdown. rewrite !enrich_all_returns by exact Hfuel. f_equal.
  rewrite !map_app, !filter_app. cbn [map filter].
  replace (has_details (enriched origin parseDetailedInfo fuel failing)) with false; [reflexivity|].
  unfold has_details, enriched, detail_of. cbn [detailedInfo].
  now rewrite scrapeListingDetails_permanent_failure.
Qed.

Lemma filter_all_true {A} (f : A -> bool) (l : list A) :
  (forall x, In x l -> f x = true) -> filter f l = l.
Proof.
  induction l as [|a l IH]; intros Hall; cbn; [reflexivity|].
  rewrite (Hall a (or_introl eq_refl)). f_equal. apply IH.
  intros x Hx. apply Hall. now right.
Qed.

(** One failure among ten: nine records, those of the other nine
    listings, provided these are enriched (a reply within three attempts,
    and a parser that returns details for its text). *)
Lemma enrich_all_nine_of_ten (fuel : nat) (before after : list Listing)
    (failing : Listing) :
  (3 <= fuel)%nat ->
  List.length (before ++ failing :: after) = 10%nat ->
  fetch_fails_permanently origin (shareUrl failing) ->
  (forall listing, In listing (before ++ after) -> detail_of origin parseDetailedInfo fuel listing <> None) ->
  exists out,
    enrich_all origin parseDetailedInfo fuel (before ++ failing :: after) = Ret out
    /\ List.length out = 9%nat
    /\ out = map (enriched origin parseDetailedInfo fuel) (before ++ after)
    /\ enrich_all origin parseDetailedInfo fuel (before ++ after) = Ret out.
Proof.
  intros Hfuel Hten Hdown Hothers.
  exists (map (enriched origin parseDetailedInfo fuel) (before ++ after)).
  assert (Hkeep : filter has_details (map (enriched origin parseDetailedInfo fuel) (before ++ after))
                  = map (enriched origin parseDetailedInfo fuel) (before ++ after)).
  { apply filter_all_true. intros e He. apply in_map_iff in He.
    destruct He as (listing & <- & Hin). specialize (Hothers listing Hin).
    unfold has_details, enriched. cbn [detailedInfo].
    now destruct (detail_of origin parseDetailedInfo fuel listing). }
  rewrite enrich_all_isolation by assumption.
  rewrite enrich_all_returns by exact Hfuel. rewrite Hkeep.
  repeat split. rewrite length_map. rewrite length_app in *. cbn in Hten. lia.
Qed.

End EnricherProperties.

(** *** bot.js: no listing is ever enriched *)

Lemma BotJs_scrapeListingDetails_null `{Extractors}
    (origin : option string -> nat -> Reply) (fuel : nat) (url : option string)
    (w : World) :
  (3 <= fuel)%nat ->
  fst (BotJs.scrapeListingDetails origin fuel url w) = Ret None.
Proof.
  intros Hfuel.
  destruct (axiosWithRetry_from_spec origin url 3 1000 10000 fuel 0 w
              ltac:(lia) ltac:(exact Hfuel)) as (k & _ & _ & _ & Hfst).
  change (axiosWithRetry_from origin fuel url 3 1000 10000 0 w)
    with (axiosWithRetry origin fuel url 3 1000 10000 w) in Hfst.
  unfold BotJs.scrapeListingDetails, scrapeListingDetails, try_catch, bind.
  destruct (axiosWithRetry origin fuel url 3 1000 10000 w) as [r w'].
  cbn [fst] in Hfst.
  destruct (origin url (issued w + k)%nat) as [data|e].
  - subst r. destruct data as [doc|e]; cbn; [|reflexivity].
    unfold BotJs.parseDetailedInfo.
    destruct (JS.truthy (cleanText (info_container_text doc))); reflexivity.
  - destruct Hfst as [_ ->]. reflexivity.
Qed.

(** Whatever the origin replies, the dataset of bot.js is empty. *)
Lemma BotJs_enrich_all_empty `{Extractors}
    (origin : option string -> nat -> Reply) (fuel : nat)
    (listings : list Listing) :
  (3 <= fuel)%nat ->
  BotJs.enrich_all origin fuel listings = Ret [].
Proof.
  intros Hfuel. unfold BotJs.enrich_all.
  rewrite enrich_all_returns by exact Hfuel. f_equal.
  induction listings as [|l ls IH]; cbn [map filter]; [reflexivity|].
  unfold has_details at 1. unfold enriched at 1. cbn [detailedInfo].
  unfold detail_of.
  pose proof (BotJs_scrapeListingDetails_null origin fuel (shareUrl l) fresh_world
                Hfuel) as Hnull.
  unfold BotJs.scrapeListingDetails in Hnull. rewrite Hnull. exact IH.
Qed.

(** C1, on the code. Of ten summaries the detail fetch of one fails
    permanently and the other nine pages arrive with their text. The
    modular variant returns the nine records, in order; bot.js returns an
    empty dataset, from the enrichment phase and so from the whole run,
    because its [parseDetailedInfo] throws on every non-empty text and
    [scrapeListingDetails] turns that into null. *)
Theorem BotJs_enrichment_drops_every_listing :
  fetch_fails_permanently one_down_origin (Some "https://dorisgee.com/listing/3")
  /\ map (fun node => page_failed (one_down_origin (attr_data_share_url node) 0))
       ten_nodes
     = [false; false; false; true; false; false; false; false; false; false]
  /\ BotJs.enrich_all one_down_origin 3 (map BotJs.extractListingInfo ten_nodes)
     = Ret []
  /\ fst (BotJs.scrapeAllListingsWithDetails one_down_origin 20 listings_url 20
            fresh_world)
     = Ret []
  /\ (exists out,
        fst (Services.scrapeAllListingsWithDetails one_down_origin 20 listings_url 20
               fresh_world) = Ret out
        /\ List.length out = 9%nat)
  /\ (exists out,
        Services.enrich_all one_down_origin 3
          (map Services.extractListingInfo ten_nodes) = Ret out
        /\ List.length out = 9%nat
        /\ map (fun e => listingId (summary e)) out
           = [Some "0"; Some "1"; Some "2"; Some "4"; Some "5"; Some "6";
              Some "7"; Some "8"; Some "9"]
        /\ Forall (fun e =>
                     option_map description (detailedInfo e)
                     = Some "Bright corner unit.") out).
Proof.
  split; [|split; [|split; [|split; [|split]]]].
  - intros j _. eexists. reflexivity.
  - vm_compute. reflexivity.
  - vm_compute. reflexivity.
  - vm_compute. reflexivity.
  - eexists. split; [vm_compute; reflexivity | reflexivity].
  - eexists. split; [vm_compute; reflexivity|].
    split; [reflexivity|]. split; [reflexivity|].
    repeat constructor.
Qed.

(** The same input through the general statement for the modular variant:
    nine records, identical to the run without the failing listing. *)
Example Services_nine_of_ten :
  let listings := map Services.extractListingInfo ten_nodes in
  exists out,
    Services.enrich_all one_down_origin 3 listings = Ret out
    /\ List.length out = 9%nat
    /\ Services.enrich_all one_down_origin 3 (firstn 3 listings ++ skipn 4 listings)
       = Ret out.
Proof.
  cbv zeta.
  destruct (enrich_all_nine_of_ten one_down_origin Services.parseDetailedInfo 3
              (firstn 3 (map Services.extractListingInfo ten_nodes))
              (skipn 4 (map Services.extractListingInfo ten_nodes))
              (Services.extractListingInfo (sample_node "3" "Active")))
    as (out & Hrun & Hlen & _ & Hwithout).
  - lia.
  - reflexivity.
  - intros j _. eexists. reflexivity.
  - intros listing Hin. each_member Hin ltac:(vm_compute; discriminate).
  - exists out. repeat split; assumption.
Qed.

(** ** PipelineRunner *)

(** With fuel for the page cap and for the Fetcher's three passes, a run
    of [scrapeAllListingsWithDetails] returns a dataset, and every record
    of it has details. *)
Lemma scrapeAllListingsWithDetails_returns `{Extractors}
    (origin : option string -> nat -> Reply)
    (extractListingInfo : ListingNode -> Listing)
    (parseDetailedInfo : string -> Completion (option DetailedInfo))
    (fuel : nat) (baseUrl : string) (maxPages : Z) :
  (3 <= fuel)%nat ->
  (Z.to_nat maxPages <= fuel)%nat ->
  exists out w,
    scrapeAllListingsWithDetails origin extractListingInfo parseDetailedInfo fuel
      baseUrl maxPages fresh_world = (Ret out, w)
    /\ Forall (fun e => detailedInfo e <> None) out.
Proof.
  intros Hfetch Hpages. unfold scrapeAllListingsWithDetails, bind, crawl.
  destruct (crawl_loop_terminates origin extractListingInfo baseUrl maxPages fuel
              crawl_start fresh_world) as (st & w & Hrun & _).
  { cbn [currentPage crawl_start]. replace (maxPages + 1 - 1) with maxPages by lia.
    exact Hpages. }
  rewrite Hrun.
  destruct (enrich_all_exactly_non_null origin parseDetailedInfo fuel
              (allListings st) Hfetch) as (out & Hout & Hall & _).
  exists out, w. now rewrite Hout.
Qed.

(** * Further properties of the code *)

(** ** [trim] and [cleanText] *)

Lemma trimStart_starts_clean (s : string) : starts_clean (JS.trimStart s) = true.
Proof.
  induction s as [|c s IH]; [reflexivity|].
  cbn [JS.trimStart]. destruct (JS.is_space c) eqn:Hc; [exact IH|].
  cbn [starts_clean]. now rewrite Hc.
Qed.

Lemma trimEnd_ends_clean (s : string) : ends_clean (JS.trimEnd s) = true.
Proof.
  induction s as [|c s IH]; [reflexivity|].
  cbn [JS.trimEnd]. destruct (JS.trimEnd s) as [|d t] eqn:Ht.
  - destruct (JS.is_space c) eqn:Hc; [reflexivity|].
    cbn [ends_clean]. now rewrite Hc.
  - exact IH.
Qed.

Lemma trimEnd_starts_clean (s : string) :
  starts_clean s = true -> starts_clean (JS.trimEnd s) = true.
Proof.
  destruct s as [|c s]; [reflexivity|]. cbn [starts_clean JS.trimEnd].
  intros Hc. destruct (JS.trimEnd s); [|exact Hc].
  destruct (JS.is_space c) eqn:Hspace; [discriminate Hc|].
  cbn [starts_clean]. now rewrite Hspace.
Qed.

Lemma trimStart_fixed (s : string) :
  starts_clean s = true -> JS.trimStart s = s.
Proof.
  destruct s as [|c s]; [reflexivity|]. cbn [starts_clean JS.trimStart].
  now destruct (JS.is_space c).
Qed.

Lemma trimEnd_fixed (s : string) :
  ends_clean s = true -> JS.trimEnd s = s.
Proof.
  induction s as [|c s IH]; [reflexivity|].
  intros Hend. cbn [JS.trimEnd]. destruct s as [|d s'].
  - cbn in *. now destruct (JS.is_space c).
  - rewrite IH by exact Hend. reflexivity.
Qed.

(** What [trim] returns has white space at neither end, and [trim] leaves
    such a string alone. *)
Lemma trim_clean (s : string) :
  starts_clean (JS.trim s) = true /\ ends_clean (JS.trim s) = true.
Proof.
  unfold JS.trim. split.
  - apply trimEnd_starts_clean, trimStart_starts_clean.
  - apply trimEnd_ends_clean.
Qed.

Lemma trim_fixed (s : string) :
  starts_clean s = true -> ends_clean s = true -> JS.trim s = s.
Proof.
  intros Hs He. unfold JS.trim. rewrite trimStart_fixed by exact Hs.
  now apply trimEnd_fixed.
Qed.

Lemma single_spaced_weaken (b : bool) (s : string) :
  single_spaced b s = true -> single_spaced false s = true.
Proof.
  destruct s as [|c s]; [reflexivity|]. cbn [single_spaced].
  destruct (JS.is_space c); [|trivial].
  intros H. apply andb_prop in H. destruct H as [H Hrest].
  apply andb_prop in H. destruct H as [Hc _]. now rewrite Hc, Hrest.
Qed.

Lemma single_spaced_starts_clean (b : bool) (s : string) :
  single_spaced b s = true -> starts_clean s = true ->
  single_spaced true s = true.
Proof.
  destruct s as [|c s]; [reflexivity|]. cbn [single_spaced starts_clean].
  destruct (JS.is_space c); [discriminate 2 | trivial].
Qed.

Lemma collapse_spaces_single_spaced (b : bool) (s : string) :
  single_spaced b (JS.collapse_spaces b s) = true.
Proof.
  revert b. induction s as [|c s IH]; intros b; [reflexivity|].
  cbn [JS.collapse_spaces]. destruct (JS.is_space c) eqn:Hc.
  - destruct b; [apply IH|].
    cbn [single_spaced]. change (JS.is_space " ") with true.
    cbn. apply IH.
  - cbn [single_spaced]. rewrite Hc. apply IH.
Qed.

Lemma trimStart_single_spaced (b : bool) (s : string) :
  single_spaced b s = true -> single_spaced false (JS.trimStart s) = true.
Proof.
  revert b. induction s as [|c s IH]; intros b Hs; [reflexivity|].
  cbn [JS.trimStart]. destruct (JS.is_space c) eqn:Hc.
  - cbn [single_spaced] in Hs. rewrite Hc in Hs.
    apply andb_prop in Hs. destruct Hs as [_ Hrest]. now apply (IH true).
  - now apply (single_spaced_weaken b).
Qed.

Lemma trimEnd_single_spaced (b : bool) (s : string) :
  single_spaced b s = true -> single_spaced b (JS.trimEnd s) = true.
Proof.
  revert b. induction s as [|c s IH]; intros b Hs; [reflexivity|].
  cbn [single_spaced] in Hs. cbn [JS.trimEnd].
  destruct (JS.is_space c) eqn:Hc.
  - apply andb_prop in Hs. destruct Hs as [Hhead Hrest].
    specialize (IH true Hrest). destruct (JS.trimEnd s) as [|d t]; [reflexivity|].
    cbn [single_spaced]. rewrite Hc, Hhead. exact IH.
  - specialize (IH false Hs). destruct (JS.trimEnd s) as [|d t].
    + cbn [single_spaced]. now rewrite Hc.
    + cbn [single_spaced]. rewrite Hc. exact IH.
Qed.

Lemma collapse_spaces_fixed (b : bool) (s : string) :
  single_spaced b s = true -> JS.collapse_spaces b s = s.
Proof.
  revert b. induction s as [|c s IH]; intros b Hs; [reflexivity|].
  cbn [single_spaced] in Hs. cbn [JS.collapse_spaces].
  destruct (JS.is_space c) eqn:Hc.
  - apply andb_prop in Hs. destruct Hs as [Hhead Hrest].
    apply andb_prop in Hhead. destruct Hhead as [Heq Hb].
    apply Ascii.eqb_eq in Heq. subst c.
    destruct b; [discriminate Hb|]. now rewrite IH.
  - now rewrite IH.
Qed.

(** The three facts about a cleaned text. *)
Lemma cleanText_shape (text : string) :
  single_spaced false (cleanText text) = true
  /\ starts_clean (cleanText text) = true
  /\ ends_clean (cleanText text) = true.
Proof.
  unfold cleanText. split; [|apply trim_clean].
  unfold JS.trim. apply trimEnd_single_spaced.
  apply (trimStart_single_spaced false), collapse_spaces_single_spaced.
Qed.

(** X1. [cleanText] is idempotent: cleaning a cleaned text changes nothing. *)
Theorem cleanText_idempotent (text : string) :
  cleanText (cleanText text) = cleanText text.
Proof.
  destruct (cleanText_shape text) as (Hsingle & Hstart & Hend).
  unfold cleanText at 1. rewrite collapse_spaces_fixed by exact Hsingle.
  now apply trim_fixed.
Qed.

(** Splitting at spaces a text that is single-spaced and does not end in
    white space: words throughout, after one empty token when the text
    starts with a space. *)
Lemma split_single_spaced (s : string) :
  forall b,
    single_spaced b s = true -> ends_clean s = true -> s <> "" ->
    if starts_clean s then forallb is_word (JS.split " " s) = true
    else exists rest,
        JS.split " " s = "" :: rest /\ forallb is_word rest = true.
Proof.
  induction s as [|c s IH]; intros b Hs Hend Hne; [contradiction|].
  cbn [single_spaced] in Hs. cbn [starts_clean JS.split].
  destruct (JS.is_space c) eqn:Hc; cbn [negb].
  - apply andb_prop in Hs. destruct Hs as [Hhead Hrest].
    apply andb_prop in Hhead. destruct Hhead as [Heq _].
    apply Ascii.eqb_eq in Heq. subst c. rewrite Ascii.eqb_refl.
    exists (JS.split " " s). split; [reflexivity|].
    destruct s as [|d s']; [cbn in Hend; discriminate|].
    specialize (IH true Hrest Hend ltac:(discriminate)).
    assert (Hd : starts_clean (String d s') = true).
    { cbn [single_spaced] in Hrest. cbn [starts_clean].
      destruct (JS.is_space d); [|reflexivity].
      rewrite andb_false_r in Hrest. discriminate. }
    now rewrite Hd in IH.
  - assert (Hnot : Ascii.eqb c " " = false).
    { destruct (Ascii.eqb_spec c " ") as [->|]; [|reflexivity].
      vm_compute in Hc. discriminate. }
    rewrite Hnot. destruct s as [|d s'].
    + cbn. now rewrite Hc.
    + specialize (IH false Hs Hend ltac:(discriminate)).
      destruct (starts_clean (String d s')) eqn:Hd.
      * pose proof (split_not_nil " " (String d s')) as Hnil.
        destruct (JS.split " " (String d s')) as [|p ps]; [contradiction|].
        cbn [forallb] in *. apply andb_prop in IH. destruct IH as [Hp Hps].
        rewrite Hps, andb_true_r. unfold is_word in *. cbn [JS.truthy no_space].
        apply andb_prop in Hp. destruct Hp as [_ Hp]. now rewrite Hc, Hp.
      * destruct IH as (rest & -> & Hrest). cbn [forallb].
        rewrite Hrest, andb_true_r. unfold is_word. cbn. now rewrite Hc.
Qed.

Lemma cleanText_split_words (text : string) :
  cleanText text = ""
  \/ forallb is_word (JS.split " " (cleanText text)) = true.
Proof.
  destruct (cleanText_shape text) as (Hsingle & Hstart & Hend).
  destruct (cleanText text) as [|c s] eqn:Hclean; [now left|]. right.
  pose proof (split_single_spaced (String c s) false Hsingle Hend
                ltac:(discriminate)) as Hsplit.
  now rewrite Hstart in Hsplit.
Qed.

(** X2. A cleaned text is empty or a sequence of words with one space
    between them: split at spaces it gives only non-empty tokens free of
    white space, and these joined by single spaces are the text. *)
Theorem cleanText_words (text : string) :
  (cleanText text = ""
   \/ forallb is_word (JS.split " " (cleanText text)) = true)
  /\ JS.join " " (JS.split " " (cleanText text)) = cleanText text.
Proof. split; [apply cleanText_split_words | apply join_split]. Qed.

(** ** The regular-expression matcher *)

Lemma string_app_empty (s t : string) : s ++ t = "" -> s = "" /\ t = "".
Proof. destruct s; cbn; [intros ->; now split | discriminate]. Qed.

Lemma nullable_matches (r : JS.regex) :
  JS.nullable r = true <-> regex_matches r "".
Proof.
  split.
  - induction r as [| |p|r1 IH1 r2 IH2|r1 IH1 r2 IH2]; cbn [JS.nullable]; intros Hn.
    + discriminate.
    + constructor.
    + discriminate.
    + apply andb_prop in Hn. destruct Hn as [H1 H2].
      change "" with ("" ++ ""). constructor; auto.
    + apply orb_prop in Hn. destruct Hn as [H1|H2];
        [apply MatchAltL | apply MatchAltR]; auto.
  - intros Hm. remember "" as s eqn:Hs.
    induction Hm as [|p c Hp|r1 r2 s1 s2 _ IH1 _ IH2|r1 r2 s _ IH|r1 r2 s _ IH];
      cbn [JS.nullable].
    + reflexivity.
    + discriminate.
    + apply string_app_empty in Hs. destruct Hs as [-> ->].
      now rewrite IH1, IH2.
    + now rewrite IH.
    + rewrite IH by assumption. apply orb_true_r.
Qed.

Lemma deriv_matches (c : ascii) (r : JS.regex) :
  forall s, regex_matches (JS.deriv c r) s <-> regex_matches r (String c s).
Proof.
  induction r as [| |p|r1 IH1 r2 IH2|r1 IH1 r2 IH2]; intros s; cbn [JS.deriv].
  - split; intros Hm; inversion Hm.
  - split; intros Hm; inversion Hm.
  - destruct (p c) eqn:Hp; split; intros Hm.
    + inversion Hm; subst. now constructor.
    + inversion Hm; subst. constructor.
    + inversion Hm.
    + inversion Hm; subst. congruence.
  - split.
    + intros Hm.
      assert (Hleft : regex_matches (JS.Cat (JS.deriv c r1) r2) s ->
                      regex_matches (JS.Cat r1 r2) (String c s)).
      { intros Hcat. inversion Hcat as [| |? ? s1 s2 H1 H2| |]; subst.
        change (String c (s1 ++ s2)) with (String c s1 ++ s2).
        constructor; [now apply IH1 | exact H2]. }
      destruct (JS.nullable r1) eqn:Hn; [|now apply Hleft].
      inversion Hm as [| | |? ? ? Hl|? ? ? Hr]; subst; [now apply Hleft|].
      change (String c s) with ("" ++ String c s).
      constructor; [now apply nullable_matches | now apply IH2].
    + intros Hm. remember (String c s) as cs eqn:Hcs.
      remember (JS.Cat r1 r2) as r eqn:Hr.
      destruct Hm as [|? ? ?|r1' r2' s1 s2 H1 H2|? ? ? ?|? ? ? ?]; try discriminate.
      injection Hr as -> ->.
      destruct s1 as [|d s1].
      * cbn in Hcs. subst s2. apply nullable_matches in H1. rewrite H1.
        apply MatchAltR. now apply IH2.
      * cbn in Hcs. injection Hcs as Hd Hs. subst d s.
        assert (Hcat : regex_matches (JS.Cat (JS.deriv c r1) r2) (s1 ++ s2)).
        { constructor; [now apply IH1 | exact H2]. }
        destruct (JS.nullable r1); [now apply MatchAltL | exact Hcat].
  - split; intros Hm.
    + inversion Hm; subst; [apply MatchAltL; now apply IH1
                           | apply MatchAltR; now apply IH2].
    + inversion Hm; subst; [apply MatchAltL; now apply IH1
                           | apply MatchAltR; now apply IH2].
Qed.

(** The matcher by derivatives decides the language of the expression. *)
Lemma test_anchored_matches (r : JS.regex) (s : string) :
  JS.test_anchored r s = true <-> regex_matches r s.
Proof.
  revert r. induction s as [|c s IH]; intros r; cbn [JS.test_anchored].
  - apply nullable_matches.
  - rewrite IH. apply deriv_matches.
Qed.

Lemma matches_cls_inv (p : ascii -> bool) (s : string) :
  regex_matches (JS.Cls p) s -> exists c, s = String c "" /\ p c = true.
Proof. intros Hm. inversion Hm; subst. eauto. Qed.

Lemma matches_cat_inv (r1 r2 : JS.regex) (s : string) :
  regex_matches (JS.Cat r1 r2) s ->
  exists s1 s2, s = s1 ++ s2 /\ regex_matches r1 s1 /\ regex_matches r2 s2.
Proof. intros Hm. inversion Hm; subst. eauto. Qed.

Lemma is_postal_gives_shape (part : string) :
  is_postal part = true -> postal_shape part.
Proof.
  unfold is_postal. rewrite test_anchored_matches. unfold postal_regex.
  intros Hm.
  apply matches_cat_inv in Hm. destruct Hm as (sa & s1 & -> & Ha & Hm).
  apply matches_cat_inv in Hm. destruct Hm as (sb & s2 & -> & Hb & Hm).
  apply matches_cat_inv in Hm. destruct Hm as (sc & s3 & -> & Hc & Hm).
  apply matches_cat_inv in Hm. destruct Hm as (gap & s4 & -> & Hgap & Hm).
  apply matches_cat_inv in Hm. destruct Hm as (sd & s5 & -> & Hd & Hm).
  apply matches_cat_inv in Hm. destruct Hm as (se & sf & -> & He & Hf).
  apply matches_cls_inv in Ha, Hb, Hc, Hd, He, Hf.
  destruct Ha as (a & -> & Ha), Hb as (b & -> & Hb), Hc as (c & -> & Hc),
           Hd as (d & -> & Hd), He as (e & -> & He), Hf as (f & -> & Hf).
  exists a, b, c, d, e, f, gap. cbn [String.append].
  repeat (split; [first [reflexivity | assumption]|]).
  unfold JS.Opt in Hgap. inversion Hgap as [| | |? ? ? Hl|? ? ? Hr]; subst.
  - inversion Hl. now left.
  - apply matches_cls_inv in Hr. destruct Hr as (w & -> & Hw). right. eauto.
Qed.

(** X3. The postal-code test accepts exactly the strings made of a capital
    letter, a digit, a capital letter, at most one white-space character,
    a digit, a capital letter and a digit. *)
Theorem is_postal_shape (part : string) :
  is_postal part = true <-> postal_shape part.
Proof.
  split; [apply is_postal_gives_shape|].
  unfold is_postal. rewrite test_anchored_matches. unfold postal_regex.
  intros (a & b & c & d & e & f & gap & -> & Ha & Hb & Hc & Hd & He & Hf & Hgap).
  change (String a (String b (String c (gap ++ String d (String e (String f ""))))))
    with (String a "" ++ String b "" ++ String c "" ++ gap
          ++ String d "" ++ String e "" ++ String f "").
  repeat (constructor; [now constructor|]).
  constructor.
  - unfold JS.Opt. destruct Hgap as [->|(w & -> & Hw)];
      [apply MatchAltL; constructor | apply MatchAltR; now constructor].
  - repeat (constructor; [now constructor|]). now constructor.
Qed.

(** ** AddressParser, continued *)

Lemma find_first {A} (f : A -> bool) (l : list A) (x : A) :
  List.find f l = Some x ->
  exists before after : list A,
    l = (before ++ x :: after)%list
    /\ f x = true
    /\ (forall y, In y before -> f y = false).
Proof.
  induction l as [|a l IH]; cbn [List.find]; [discriminate|].
  destruct (f a) eqn:Ha.
  - intros [= ->]. exists [], l. repeat split; [assumption | contradiction].
  - intros Hfind. destruct (IH Hfind) as (before & after & -> & Hx & Hbefore).
    exists (a :: before), after. repeat split; [assumption|].
    intros y [<-|Hy]; [assumption | now apply Hbefore].
Qed.

Lemma array_indexOf_from_first (x : string) (before after : list string) (i : Z) :
  ~ In x before ->
  JS.array_indexOf_from i x (before ++ x :: after)
  = i + Z.of_nat (List.length before).
Proof.
  revert i. induction before as [|y before IH]; intros i Hnotin;
    cbn [app JS.array_indexOf_from List.length].
  - rewrite String.eqb_refl. lia.
  - destruct (String.eqb_spec y x) as [->|_]; [exfalso; apply Hnotin; now left|].
    rewrite IH by (intros Hin; apply Hnotin; now right). lia.
Qed.

Lemma slice_from_after_prefix {A} (before : list A) (x : A) (after : list A) :
  JS.slice_from (Z.of_nat (List.length before) + 1) (before ++ x :: after) = after.
Proof.
  unfold JS.slice_from.
  replace (Z.of_nat (List.length before) + 1 <? 0) with false
    by (symmetry; apply Z.ltb_ge; lia).
  rewrite length_app. cbn [List.length].
  replace (Z.to_nat (Z.min (Z.of_nat (List.length before) + 1)
                       (Z.of_nat (List.length before + S (List.length after)))))
    with (List.length before + 1)%nat by lia.
  rewrite skipn_app. rewrite skipn_all2 by lia.
  replace (List.length before + 1 - List.length before)%nat with 1%nat by lia.
  reflexivity.
Qed.

Lemma is_postal_truthy (part : string) : is_postal part = true -> JS.truthy part = true.
Proof. destruct part; [vm_compute; discriminate | reflexivity]. Qed.

(** X4. When some token of the address is a postal code, [postalCode] is
    the first such token and [neighborhood] is made of the tokens after
    it, joined by spaces. *)
Theorem parseAddress_with_postal (addressString pc : string) :
  List.find is_postal (JS.split " " addressString) = Some pc ->
  exists before after : list string,
    JS.split " " addressString = (before ++ pc :: after)%list
    /\ (forall part, In part before -> is_postal part = false)
    /\ is_postal pc = true
    /\ postalCode (parseAddress addressString) = pc
    /\ neighborhood (parseAddress addressString) = JS.join " " after.
Proof.
  intros Hfind. destruct (find_first _ _ _ Hfind) as (before & after & Hparts & Hpc & Hbefore).
  exists before, after. split; [exact Hparts|]. split; [exact Hbefore|].
  split; [exact Hpc|].
  unfold parseAddress. cbn [postalCode neighborhood]. rewrite Hfind.
  assert (Hself : JS.or_else (Some pc) "" = pc) by apply or_else_some_self.
  rewrite Hself, or_else_some_self. split; [reflexivity|].
  rewrite Hparts. unfold JS.array_indexOf.
  rewrite array_indexOf_from_first.
  - now rewrite Z.add_0_l, slice_from_after_prefix.
  - intros Hin. specialize (Hbefore pc Hin). congruence.
Qed.

Lemma parseAddress_with_postal_witness :
  exists before after : list string,
    JS.split " " "4500 Kingsway Ave Burnaby V5H2A9 Metrotown Centre"
    = (before ++ "V5H2A9" :: after)%list
    /\ (forall part, In part before -> is_postal part = false)
    /\ is_postal "V5H2A9" = true
    /\ postalCode (parseAddress "4500 Kingsway Ave Burnaby V5H2A9 Metrotown Centre")
       = "V5H2A9"
    /\ neighborhood (parseAddress "4500 Kingsway Ave Burnaby V5H2A9 Metrotown Centre")
       = JS.join " " after.
Proof.
  apply (parseAddress_with_postal
           "4500 Kingsway Ave Burnaby V5H2A9 Metrotown Centre" "V5H2A9").
  vm_compute. reflexivity.
Defined.

(** X5. [city] is never anything but the empty string or one of Burnaby,
    Vancouver and Richmond, and then it is the first token of the address
    that is one of the three. *)
Theorem parseAddress_city (addressString : string) :
  (city (parseAddress addressString) = ""
   /\ forall part, In part (JS.split " " addressString) -> is_city part = false)
  \/ (exists before after : list string,
        JS.split " " addressString
        = (before ++ city (parseAddress addressString) :: after)%list
        /\ (forall part, In part before -> is_city part = false)
        /\ In (city (parseAddress addressString))
             ["Burnaby"; "Vancouver"; "Richmond"]).
Proof.
  unfold parseAddress. cbn [city].
  destruct (List.find is_city (JS.split " " addressString)) as [name|] eqn:Hfind.
  - right. destruct (find_first _ _ _ Hfind) as (before & after & Hparts & Hname & Hbefore).
    assert (Hin : In name ["Burnaby"; "Vancouver"; "Richmond"]).
    { unfold is_city in Hname.
      apply orb_prop in Hname. destruct Hname as [Hname|Hname].
      - apply orb_prop in Hname. destruct Hname as [Hname|Hname];
          apply String.eqb_eq in Hname; subst; cbn; auto.
      - apply String.eqb_eq in Hname; subst; cbn; auto. }
    assert (Hself : JS.or_else (Some name) "" = name) by apply or_else_some_self.
    rewrite Hself. exists before, after. repeat split; assumption.
  - left. split; [reflexivity|].
    intros part Hin. destruct (is_city part) eqn:Hcity; [|reflexivity].
    pose proof (find_none _ _ Hfind part Hin). congruence.
Qed.

Lemma no_space_app (s t : string) :
  no_space (s ++ t) = no_space s && no_space t.
Proof.
  induction s as [|c s IH]; [reflexivity|].
  cbn [String.append no_space]. now rewrite IH, andb_assoc.
Qed.

Lemma words_have_no_empty (parts : list string) :
  forallb is_word parts = true -> after_first_empty parts = None.
Proof.
  induction parts as [|p ps IH]; [reflexivity|].
  cbn [forallb after_first_empty]. intros Hall.
  apply andb_prop in Hall. destruct Hall as [Hp Hps].
  destruct p; [discriminate Hp | now apply IH].
Qed.

(** X6. On a cleaned address text, as [extractListingInfo] passes it:
    [postalCode] is empty or six characters, letter and digit in turn; and
    when no token is a postal code, [neighborhood] is the whole cleaned
    text. *)
Theorem parseAddress_of_cleanText (text : string) :
  let address := parseAddress (cleanText text) in
  (postalCode address = ""
   \/ exists a b c d e f,
        postalCode address
        = String a (String b (String c (String d (String e (String f "")))))
        /\ JS.is_upper a = true /\ JS.is_digit b = true /\ JS.is_upper c = true
        /\ JS.is_digit d = true /\ JS.is_upper e = true /\ JS.is_digit f = true)
  /\ (List.find is_postal (JS.split " " (cleanText text)) = None ->
      postalCode address = "" /\ neighborhood address = cleanText text).
Proof.
  cbv zeta. split.
  - destruct (List.find is_postal (JS.split " " (cleanText text))) as [pc|] eqn:Hfind.
    + right. destruct (find_some _ _ Hfind) as [Hin Hpc].
      unfold parseAddress. cbn [postalCode]. rewrite Hfind.
      assert (Hself : JS.or_else (Some pc) "" = pc) by apply or_else_some_self.
      rewrite Hself. apply is_postal_gives_shape in Hpc.
      destruct Hpc as (a & b & c & d & e & f & gap & -> & Ha & Hb & Hc & Hd & He & Hf & Hgap).
      destruct Hgap as [->|(w & -> & Hw)].
      * exists a, b, c, d, e, f. repeat split; assumption.
      * exfalso. destruct (cleanText_split_words text) as [Hempty|Hwords].
        -- rewrite Hempty in Hin. cbn in Hin. destruct Hin as [Hin|[]]. discriminate.
        -- rewrite forallb_forall in Hwords. specialize (Hwords _ Hin).
           unfold is_word in Hwords. apply andb_prop in Hwords.
           destruct Hwords as [_ Hwords]. cbn [no_space String.append] in Hwords.
           rewrite Hw in Hwords. cbn in Hwords.
           repeat rewrite andb_false_r in Hwords. discriminate.
    + left. unfold parseAddress. cbn [postalCode]. now rewrite Hfind.
  - intros Hnone. unfold parseAddress. cbn [postalCode neighborhood].
    rewrite Hnone. change (JS.or_else None "") with "". split; [reflexivity|].
    rewrite or_else_some_self, slice_after_indexOf_empty.
    destruct (cleanText_split_words text) as [Hempty|Hwords].
    + rewrite Hempty. reflexivity.
    + rewrite (words_have_no_empty _ Hwords). apply join_split.
Qed.

Lemma parseAddress_of_cleanText_witness :
  postalCode (parseAddress (cleanText "  88   Garden  City Rd ")) = ""
  /\ neighborhood (parseAddress (cleanText "  88   Garden  City Rd "))
     = cleanText "  88   Garden  City Rd ".
Proof.
  apply (parseAddress_of_cleanText "  88   Garden  City Rd ").
  vm_compute. reflexivity.
Defined.

(** ** Searching in strings, continued *)

Lemma prefix_of_app (pat rest : string) : String.prefix pat (pat ++ rest) = true.
Proof.
  induction pat as [|c pat IH]; [now destruct rest|].
  cbn [String.append String.prefix].
  destruct (Ascii.ascii_dec c c) as [_|Hne]; [exact IH | contradiction].
Qed.

(** [indexOf] finds what occurs. *)
Lemma indexOf_from_finds (pat rest : string) (before : string) :
  forall i, 0 <= i -> 0 <= JS.indexOf_from i pat (before ++ pat ++ rest).
Proof.
  induction before as [|c before IH]; intros i Hi.
  - cbn [String.append]. destruct (pat ++ rest) as [|d s] eqn:Hs.
    + cbn [JS.indexOf_from]. rewrite <- Hs, prefix_of_app. exact Hi.
    + cbn [JS.indexOf_from]. rewrite <- Hs, prefix_of_app. exact Hi.
  - cbn [String.append JS.indexOf_from].
    destruct (String.prefix pat (String c (before ++ pat ++ rest))); [exact Hi|].
    apply IH. lia.
Qed.

Lemma indexOf_from_absent (pat s : string) :
  ~ occurs_in pat s -> forall i, JS.indexOf_from i pat s = -1.
Proof.
  induction s as [|c s IH]; intros Habsent i; cbn [JS.indexOf_from].
  - destruct (String.prefix pat "") eqn:Hp; [|reflexivity].
    exfalso. apply Habsent. destruct (prefix_app _ _ Hp) as (rest & Hrest).
    now exists "", rest.
  - destruct (String.prefix pat (String c s)) eqn:Hp.
    + exfalso. apply Habsent. destruct (prefix_app _ _ Hp) as (rest & Hrest).
      now exists "", rest.
    + apply IH. intros (before & rest & ->). apply Habsent.
      now exists (String c before), rest.
Qed.

(** [indexOf] is [-1] exactly when the pattern does not occur. *)
Lemma indexOf_absent_iff (pat s : string) :
  JS.indexOf pat s = -1 <-> ~ occurs_in pat s.
Proof.
  unfold JS.indexOf. split.
  - intros Hidx (before & rest & ->).
    pose proof (indexOf_from_finds pat rest before 0 ltac:(lia)). lia.
  - intros Habsent. now apply indexOf_from_absent.
Qed.

Lemma js_substring_to_negative (s : string) : JS.substring 0 (-1) s = "".
Proof.
  unfold JS.substring.
  replace (Z.min (Z.max 0 0) (Z.of_nat (String.length s))) with 0 by lia.
  replace (Z.min (Z.max (-1) 0) (Z.of_nat (String.length s))) with 0 by lia.
  cbn. apply substring_0_0.
Qed.

(** ** DetailTextParser: the description, continued *)

(** X7. A blob in which neither "Documents & Links:" nor "General Info:"
    occurs has the empty description, whatever it contains. *)
Theorem extractDescription_without_markers (text : string) :
  ~ occurs_in "Documents & Links:" text ->
  ~ occurs_in "General Info:" text ->
  extractDescription text = "".
Proof.
  intros Hdocs Hgeneral. unfold extractDescription.
  apply indexOf_absent_iff in Hdocs, Hgeneral. rewrite Hdocs, Hgeneral.
  cbn [Z.ltb Z.compare]. now rewrite js_substring_to_negative.
Qed.

Lemma extractDescription_without_markers_witness :
  extractDescription "Bright corner unit. Year built: 1994" = "".
Proof.
  apply (extractDescription_without_markers "Bright corner unit. Year built: 1994");
    apply indexOf_absent_iff; vm_compute; reflexivity.
Defined.

(** X8. When "Documents & Links:" does not occur and "General Info:" does,
    the description is the trimmed text before the first "General Info:". *)
Theorem extractDescription_general_only (text : string) :
  ~ occurs_in "Documents & Links:" text ->
  occurs_in "General Info:" text ->
  exists before rest,
    text = before ++ "General Info:" ++ rest
    /\ Z.of_nat (String.length before) = JS.indexOf "General Info:" text
    /\ extractDescription text = JS.trim before.
Proof.
  intros Hdocs (b & r & Htext). unfold extractDescription.
  apply indexOf_absent_iff in Hdocs. rewrite Hdocs. cbn [Z.ltb Z.compare].
  assert (Hfound : 0 <= JS.indexOf "General Info:" text).
  { rewrite Htext. apply indexOf_from_finds. lia. }
  destruct (indexOf_occurrence _ _ Hfound) as (before & rest & Hsplit & Hlen).
  exists before, rest. split; [exact Hsplit|]. split; [exact Hlen|].
  rewrite <- Hlen. rewrite Hsplit at 1. now rewrite js_substring_prefix.
Qed.

Lemma extractDescription_general_only_witness :
  exists before rest,
    "Bright corner unit.  General Info: Condo" = before ++ "General Info:" ++ rest
    /\ Z.of_nat (String.length before)
       = JS.indexOf "General Info:" "Bright corner unit.  General Info: Condo"
    /\ extractDescription "Bright corner unit.  General Info: Condo" = JS.trim before.
Proof.
  apply (extractDescription_general_only "Bright corner unit.  General Info: Condo").
  - apply indexOf_absent_iff. vm_compute. reflexivity.
  - exists "Bright corner unit.  ", " Condo". reflexivity.
Defined.

(** ** SummaryExtractor: the price, continued *)

Lemma digit_not_price_sign (c : ascii) :
  JS.is_digit c = true -> is_dollar_or_comma c = false /\ JS.is_space c = false.
Proof.
  destruct c as [b0 b1 b2 b3 b4 b5 b6 b7].
  destruct b0, b1, b2, b3, b4, b5, b6, b7; vm_compute; intros H;
    first [discriminate H | split; reflexivity].
Qed.

(** After the signs are removed only the digits are left, and they are
    read to the end. *)
Lemma read_digits_stripped (s : string) :
  only_price_chars s = true ->
  forall acc n,
  exists m,
    read_digits acc n (JS.remove_chars is_dollar_or_comma s)
    = (digits_number acc s, m, "")
    /\ (n <= m)%nat
    /\ (has_digit s = true -> (n < m)%nat).
Proof.
  induction s as [|c s IH]; intros Hchars acc n.
  - exists n. cbn. repeat split; [lia | discriminate].
  - cbn [only_price_chars] in Hchars. apply andb_prop in Hchars.
    destruct Hchars as [Hc Hrest].
    cbn [JS.remove_chars digits_number has_digit].
    destruct (JS.is_digit c) eqn:Hdigit.
    + destruct (digit_not_price_sign c Hdigit) as [Hsign _]. rewrite Hsign.
      cbn [read_digits]. rewrite Hdigit.
      destruct (IH Hrest (acc * 10 + (JS.code c - 48))%N (S n)) as (m & Hread & Hle & _).
      exists m. repeat split; [exact Hread | lia | intros _; lia].
    + cbn [orb] in Hc. rewrite Hc.
      destruct (IH Hrest acc n) as (m & Hread & Hle & Hlt).
      exists m. repeat split; assumption.
Qed.

Lemma stripped_starts_with_digit (s : string) :
  only_price_chars s = true -> has_digit s = true ->
  exists c rest,
    JS.remove_chars is_dollar_or_comma s = String c rest /\ JS.is_digit c = true.
Proof.
  induction s as [|c s IH]; intros Hchars Hdigit; [discriminate|].
  cbn [only_price_chars] in Hchars. apply andb_prop in Hchars.
  destruct Hchars as [Hc Hrest]. cbn [JS.remove_chars has_digit] in *.
  destruct (JS.is_digit c) eqn:Hd.
  - destruct (digit_not_price_sign c Hd) as [Hsign _]. rewrite Hsign. eauto.
  - cbn [orb] in Hc, Hdigit. rewrite Hc. now apply IH.
Qed.

(** [parseFloat] on a text that starts with a digit: no white space to
    skip, no sign, not "Infinity". *)
Lemma parseFloat_digit_start (c : ascii) (rest : string) :
  JS.is_digit c = true ->
  parseFloat (String c rest)
  = let '(ip, ni, t2) := read_digits 0 0 (String c rest) in
    match t2 with
    | String "." r =>
        let '(m, nf, t3) := read_digits ip 0 r in
        match ni, nf with
        | O, O => NaN
        | _, _ => Dec false m (read_exponent t3 - Z.of_nat nf)
        end
    | _ =>
        match ni with
        | O => NaN
        | S _ => Dec false ip (read_exponent t2)
        end
    end.
Proof.
  destruct c as [b0 b1 b2 b3 b4 b5 b6 b7].
  destruct b0, b1, b2, b3, b4, b5, b6, b7; intros H;
    first [discriminate H | reflexivity].
Qed.

Lemma space_not_digit (c : ascii) : JS.is_space c = true -> JS.is_digit c = false.
Proof.
  destruct c as [b0 b1 b2 b3 b4 b5 b6 b7].
  destruct b0, b1, b2, b3, b4, b5, b6, b7; vm_compute; intros H;
    first [discriminate H | reflexivity].
Qed.

(** Trimming removes no digit. *)
Lemma digits_number_trim (s : string) (acc : N) :
  digits_number acc (JS.trim s) = digits_number acc s.
Proof.
  unfold JS.trim.
  assert (Hend : forall t a, digits_number a (JS.trimEnd t) = digits_number a t).
  { induction t as [|c t IH]; intros a; [reflexivity|].
    cbn [JS.trimEnd digits_number].
    destruct (JS.is_digit c) eqn:Hd.
    - rewrite <- IH. destruct (JS.trimEnd t) as [|d t'].
      + destruct (JS.is_space c) eqn:Hs.
        * rewrite (space_not_digit c Hs) in Hd. discriminate.
        * cbn [digits_number]. now rewrite Hd.
      + cbn [digits_number]. now rewrite Hd.
    - rewrite <- IH. destruct (JS.trimEnd t) as [|d t'].
      + destruct (JS.is_space c); [reflexivity|]. cbn [digits_number]. now rewrite Hd.
      + cbn [digits_number]. now rewrite Hd. }
  rewrite Hend. revert acc. induction s as [|c s IH]; intros acc; [reflexivity|].
  cbn [JS.trimStart]. destruct (JS.is_space c) eqn:Hs; [|reflexivity].
  cbn [digits_number]. rewrite (space_not_digit c Hs). apply IH.
Qed.

(** X9. A price text made of digits, dollar signs and commas, with at
    least one digit and white space around it at most, has as amount the
    number its digits spell, in bot.js and in the modular variant alike. *)
Theorem price_amount_of_digits `{Extractors} (element : ListingNode) :
  only_price_chars (JS.trim (price_container_text element)) = true ->
  has_digit (JS.trim (price_container_text element)) = true ->
  amount (price (BotJs.extractListingInfo element))
    = Dec false (digits_number 0 (price_container_text element)) 0
  /\ amount (price (Services.extractListingInfo element))
    = Dec false (digits_number 0 (price_container_text element)) 0.
Proof.
  intros Hchars Hdigit.
  unfold BotJs.extractListingInfo, Services.extractListingInfo, listing_of_node.
  cbn [price amount]. unfold parsePrice.
  set (text := JS.trim (price_container_text element)) in *.
  assert (Hamount : parseFloat (JS.remove_chars is_dollar_or_comma text)
                    = Dec false (digits_number 0 text) 0).
  { destruct (stripped_starts_with_digit text Hchars Hdigit) as (c & rest & Hstrip & Hc).
    destruct (read_digits_stripped text Hchars 0%N 0%nat) as (m & Hread & _ & Hlt).
    specialize (Hlt Hdigit). rewrite Hstrip in *.
    rewrite (parseFloat_digit_start c rest Hc), Hread.
    destruct m; [lia | reflexivity]. }
  assert (Hsame : digits_number 0 text = digits_number 0 (price_container_text element)).
  { subst text. apply digits_number_trim. }
  rewrite Hamount, Hsame. split; [reflexivity|].
  cbn [number_or_zero]. unfold rounds_to_zero.
  destruct (N.eqb_spec (digits_number 0 (price_container_text element)) 0) as [->|_];
    reflexivity.
Qed.

Lemma price_amount_of_digits_witness :
  amount (price (BotJs.extractListingInfo (node_with_price " $2,049,000 ")))
    = Dec false (digits_number 0 " $2,049,000 ") 0
  /\ amount (price (Services.extractListingInfo (node_with_price " $2,049,000 ")))
    = Dec false (digits_number 0 " $2,049,000 ") 0.
Proof.
  apply (price_amount_of_digits (node_with_price " $2,049,000 ")); reflexivity.
Defined.

Example digits_number_example : digits_number 0 " $2,049,000 " = 2049000%N.
Proof. reflexivity. Qed.

(** ** Fetcher, continued *)

(** X10. With [maxAttempts] at or below 0 the Fetcher makes no request,
    waits for nothing and returns [undefined] without throwing. *)
Theorem axiosWithRetry_no_attempts (origin : option string -> nat -> Reply)
    (fuel : nat) (url : option string) (retries delay timeout : Z) (w : World) :
  retries <= 0 ->
  axiosWithRetry origin fuel url retries delay timeout w = (Ret None, w).
Proof.
  intros Hretries. unfold axiosWithRetry.
  destruct fuel; cbn [axiosWithRetry_from];
    now rewrite (proj2 (Z.ltb_ge 0 retries) Hretries).
Qed.

Lemma axiosWithRetry_no_attempts_witness :
  axiosWithRetry endless_origin 5 (Some "u") 0 1000 10000 fresh_world
  = (Ret None, fresh_world).
Proof.
  apply (axiosWithRetry_no_attempts endless_origin 5 (Some "u") 0 1000 10000
           fresh_world). lia.
Defined.

(** ** PaginationCrawler, continued *)

Section CrawlerTraceProperties.
Context `{Extractors}.
Variable origin : option string -> nat -> Reply.
Variable extractListingInfo : ListingNode -> Listing.

(** X11. The crawl asks for the pages in increasing page number, each
    once, and waits 1.5 s after each page that has listings; what it has
    accumulated at the end is what it started with followed by the
    listings of those pages, page after page. A request without a wait
    after it is made only for a page without listings (or one that
    failed), and it is the last. *)
Theorem crawl_accumulates_in_page_order (baseUrl : string) (maxPages : Z)
    (fuel : nat) :
  forall (st : Crawl) (w : World),
    (Z.to_nat (maxPages + 1 - currentPage st) <= fuel)%nat ->
    exists (n : nat) (stopped_empty : bool) (st' : Crawl) (w' : World),
      crawl_loop origin extractListingInfo fuel baseUrl maxPages st w = (Ret st', w')
      /\ Z.of_nat n <= Z.max 0 (maxPages + 1 - currentPage st)
      /\ allListings st'
         = (allListings st
            ++ List.concat (pages_from origin extractListingInfo baseUrl (currentPage st)
                         (issued w) n))%list
      /\ currentPage st' = currentPage st + Z.of_nat n
      /\ Forall (fun listings => listings <> [])
           (pages_from origin extractListingInfo baseUrl (currentPage st) (issued w) n)
      /\ log w'
         = (log w ++ rounds_log baseUrl (currentPage st) n
            ++ (if stopped_empty
                then [EvGet (Some (numbered_url baseUrl (currentPage st + Z.of_nat n))) None]
                else []))%list
      /\ (stopped_empty = true ->
          pages_from origin extractListingInfo baseUrl
            (currentPage st + Z.of_nat n) (issued w + n) 1 = [[]]).
Proof.
  induction fuel as [|fuel IH]; intros st w Hfuel.
  - exists 0%nat, false, st, w. cbn [crawl_loop].
    destruct (negb (foundInactive st) && (currentPage st <=? maxPages)) eqn:Htest.
    + apply andb_prop in Htest. destruct Htest as [_ Hle].
      apply Z.leb_le in Hle. lia.
    + cbn [pages_from rounds_log List.concat]. rewrite !app_nil_r, Z.add_0_r.
      repeat split; [lia | constructor | discriminate].
  - destruct (foundInactive st) eqn:Hfound.
    { exists 0%nat, false, st, w. rewrite crawl_loop_stopped by exact Hfound.
      cbn [pages_from rounds_log List.concat]. rewrite !app_nil_r, Z.add_0_r.
      repeat split; [lia | constructor | discriminate]. }
    destruct (Z.leb_spec (currentPage st) maxPages) as [Hpage|Hpage].
    2:{ exists 0%nat, false, st, w. cbn [crawl_loop].
        rewrite Hfound, (proj2 (Z.leb_gt _ _) Hpage). cbn [negb andb].
        cbn [pages_from rounds_log List.concat]. rewrite !app_nil_r, Z.add_0_r.
        repeat split; [lia | constructor | discriminate]. }
    rewrite (crawl_loop_step origin extractListingInfo baseUrl maxPages fuel st w
               Hfound Hpage).
    unfold page_url. fold (numbered_url baseUrl (currentPage st)).
    destruct (page_result extractListingInfo
                (origin (Some (numbered_url baseUrl (currentPage st)))
                   (issued w))) as [[|l ls] found] eqn:Hres.
    + exists 0%nat, true, st, (after_get (numbered_url baseUrl (currentPage st)) w).
      cbn [pages_from rounds_log List.concat app]. rewrite !app_nil_r, !Z.add_0_r, Nat.add_0_r.
      rewrite Hres. repeat split; [lia | constructor].
    + set (st1 := {| allListings := (allListings st ++ l :: ls)%list;
                     currentPage := currentPage st + 1;
                     foundInactive := found |}).
      set (w1 := after_sleep 1500
                   (after_get (numbered_url baseUrl (currentPage st)) w)).
      destruct (IH st1 w1) as (n & stopped & st' & w' & Hrun & Hn & Hacc & Hcur & Hall & Hlog & Hstop).
      { cbn [currentPage st1]. lia. }
      exists (S n), stopped, st', w'. cbn [currentPage st1 allListings] in *.
      cbn [issued w1 after_sleep after_get log] in *.
      split; [exact Hrun|]. split; [lia|].
      cbn [pages_from rounds_log List.concat]. rewrite Hres. cbn [fst].
      split; [rewrite Hacc; now rewrite <- app_assoc|].
      split; [lia|].
      split; [constructor; [discriminate | exact Hall]|].
      split.
      * rewrite Hlog. replace (currentPage st + 1 + Z.of_nat n)
          with (currentPage st + Z.of_nat (S n)) by lia.
        rewrite <- !app_assoc. reflexivity.
      * intros Hs. specialize (Hstop Hs).
        replace (currentPage st + Z.of_nat (S n))
          with (currentPage st + 1 + Z.of_nat n) by lia.
        now replace (issued w + S n)%nat with (S (issued w) + n)%nat by lia.
Qed.

(** The crawl over pages that all have listings, none of them inactive. *)
Lemma crawl_loop_all_active (baseUrl : string) (maxPages : Z) (n : nat) :
  forall (fuel : nat) (st : Crawl) (w : World),
    foundInactive st = false ->
    currentPage st + Z.of_nat n = maxPages + 1 ->
    (n <= fuel)%nat ->
    (forall k, (k < n)%nat ->
       exists l ls,
         page_result extractListingInfo
           (origin (Some (numbered_url baseUrl (currentPage st + Z.of_nat k)))
              (issued w + k)%nat)
         = (l :: ls, false)) ->
    crawl_loop origin extractListingInfo fuel baseUrl maxPages st w
    = (Ret {| allListings :=
                allListings st
                ++ List.concat (pages_from origin extractListingInfo baseUrl
                             (currentPage st) (issued w) n);
              currentPage := maxPages + 1;
              foundInactive := false |},
       {| issued := issued w + n;
          log := log w ++ rounds_log baseUrl (currentPage st) n |}).
Proof.
  induction n as [|n IH]; intros fuel st w Hfound Hpage Hfuel Hpages.
  - destruct st as [acc cp fi], w as [i l]. cbn in *. subst fi.
    replace cp with (maxPages + 1) by lia.
    destruct fuel; cbn [crawl_loop foundInactive currentPage];
      rewrite (proj2 (Z.leb_gt (maxPages + 1) maxPages)) by lia;
      cbn [negb andb]; unfold ret; now rewrite !app_nil_r, Nat.add_0_r.
  - destruct fuel as [|fuel]; [lia|].
    rewrite (crawl_loop_step origin extractListingInfo baseUrl maxPages fuel st w
               Hfound ltac:(lia)).
    unfold page_url. fold (numbered_url baseUrl (currentPage st)).
    destruct (Hpages 0%nat ltac:(lia)) as (l & ls & Hfirst).
    rewrite Z.add_0_r, Nat.add_0_r in Hfirst. rewrite Hfirst.
    rewrite IH.
    + cbn [allListings currentPage issued log after_sleep after_get pages_from
             rounds_log List.concat].
      rewrite Hfirst. cbn [fst]. f_equal; f_equal.
      * now rewrite <- app_assoc.
      * lia.
      * now rewrite <- !app_assoc.
    + reflexivity.
    + cbn [currentPage]. lia.
    + lia.
    + intros k Hk. cbn [currentPage issued after_sleep after_get].
      destruct (Hpages (S k) ltac:(lia)) as (l' & ls' & Hk').
      exists l', ls'.
      replace (currentPage st + 1 + Z.of_nat k)
        with (currentPage st + Z.of_nat (S k)) by lia.
      now replace (S (issued w) + k)%nat with (issued w + S k)%nat by lia.
Qed.

(** X12. The page cap. When each of the first [maxPages] pages has
    listings and none of them is inactive, the crawl fetches exactly
    [maxPages] pages, keeps all their listings in page order, and stops
    with [foundInactive] unset, without asking for a further page. *)
Theorem crawl_stops_at_page_cap (baseUrl : string) (maxPages : Z) (fuel : nat) :
  0 <= maxPages ->
  (Z.to_nat maxPages <= fuel)%nat ->
  (forall k, (k < Z.to_nat maxPages)%nat ->
     exists l ls,
       page_result extractListingInfo
         (origin (Some (numbered_url baseUrl (1 + Z.of_nat k))) k)
       = (l :: ls, false)) ->
  crawl origin extractListingInfo fuel baseUrl maxPages fresh_world
  = (Ret {| allListings :=
              List.concat (pages_from origin extractListingInfo baseUrl 1 0
                        (Z.to_nat maxPages));
            currentPage := maxPages + 1;
            foundInactive := false |},
     {| issued := Z.to_nat maxPages;
        log := rounds_log baseUrl 1 (Z.to_nat maxPages) |}).
Proof.
  intros Hcap Hfuel Hpages. unfold crawl.
  rewrite (crawl_loop_all_active baseUrl maxPages (Z.to_nat maxPages) fuel
             crawl_start fresh_world);
    [reflexivity | reflexivity | cbn [currentPage crawl_start]; lia | exact Hfuel
     | exact Hpages].
Qed.

End CrawlerTraceProperties.

Lemma count_gets_rounds_log (baseUrl : string) (page : Z) (n : nat) :
  count_gets (rounds_log baseUrl page n) = n.
Proof.
  revert page. induction n as [|n IH]; intros page; [reflexivity|].
  cbn [rounds_log count_gets]. now rewrite IH.
Qed.

Lemma crawl_accumulates_in_page_order_witness :
  exists (n : nat) (stopped_empty : bool) (st' : Crawl) (w' : World),
    crawl_loop boundary_origin BotJs.extractListingInfo 20 listings_url 20
      crawl_start fresh_world = (Ret st', w')
    /\ Z.of_nat n <= Z.max 0 (20 + 1 - currentPage crawl_start)
    /\ allListings st'
       = (allListings crawl_start
          ++ List.concat (pages_from boundary_origin BotJs.extractListingInfo
                            listings_url (currentPage crawl_start)
                            (issued fresh_world) n))%list
    /\ currentPage st' = currentPage crawl_start + Z.of_nat n
    /\ Forall (fun listings => listings <> [])
         (pages_from boundary_origin BotJs.extractListingInfo listings_url
            (currentPage crawl_start) (issued fresh_world) n)
    /\ log w'
       = (log fresh_world ++ rounds_log listings_url (currentPage crawl_start) n
          ++ (if stopped_empty
              then [EvGet (Some (numbered_url listings_url
                                   (currentPage crawl_start + Z.of_nat n))) None]
              else []))%list
    /\ (stopped_empty = true ->
        pages_from boundary_origin BotJs.extractListingInfo listings_url
          (currentPage crawl_start + Z.of_nat n) (issued fresh_world + n) 1 = [[]]).
Proof.
  apply (crawl_accumulates_in_page_order boundary_origin BotJs.extractListingInfo
           listings_url 20 20 crawl_start fresh_world).
  vm_compute. lia.
Defined.

Lemma crawl_stops_at_page_cap_witness :
  crawl endless_origin BotJs.extractListingInfo 3 listings_url 3 fresh_world
  = (Ret {| allListings :=
              List.concat (pages_from endless_origin BotJs.extractListingInfo
                             listings_url 1 0 (Z.to_nat 3));
            currentPage := 3 + 1;
            foundInactive := false |},
     {| issued := Z.to_nat 3;
        log := rounds_log listings_url 1 (Z.to_nat 3) |}).
Proof.
  apply (crawl_stops_at_page_cap endless_origin BotJs.extractListingInfo
           listings_url 3 3).
  - lia.
  - vm_compute. lia.
  - intros k _. eexists. eexists. lazy. reflexivity.
Defined.

(** ** DetailEnricher, continued *)

Section EnricherComposition.
Context `{Extractors}.
Variable origin : option string -> nat -> Reply.
Variable parseDetailedInfo : string -> Completion (option DetailedInfo).

(** X13. The dataset of two batches of summaries put together is the
    dataset of the first followed by the dataset of the second: no
    listing's enrichment depends on which other listings are in the
    batch. *)
Theorem enrich_all_app (fuel : nat) (first second : list Listing) :
  (3 <= fuel)%nat ->
  exists out1 out2,
    enrich_all origin parseDetailedInfo fuel first = Ret out1
    /\ enrich_all origin parseDetailedInfo fuel second = Ret out2
    /\ enrich_all origin parseDetailedInfo fuel (first ++ second)
       = Ret (out1 ++ out2)%list.
Proof.
  intros Hfuel. rewrite !enrich_all_returns by exact Hfuel.
  eexists. eexists. split; [reflexivity|]. split; [reflexivity|].
  now rewrite map_app, filter_app.
Qed.

Lemma map_summary_filter (fuel : nat) (listings : list Listing) :
  map summary (filter has_details (map (enriched origin parseDetailedInfo fuel) listings))
  = filter (gets_details origin parseDetailedInfo fuel) listings.
Proof.
  induction listings as [|l ls IH]; [reflexivity|].
  cbn [map filter]. unfold has_details at 1, gets_details at 1.
  unfold enriched at 1. cbn [detailedInfo].
  destruct (detail_of origin parseDetailedInfo fuel l); cbn [map]; now rewrite IH.
Qed.

(** X14. The dataset keeps the order of the summaries: its summaries are
    those of the listings that got details, in their original order and
    unchanged, each with the details fetched for its own [shareUrl]; it
    never holds more records than there were summaries. *)
Theorem enrich_all_keeps_order (fuel : nat) (listings : list Listing) :
  (3 <= fuel)%nat ->
  exists out,
    enrich_all origin parseDetailedInfo fuel listings = Ret out
    /\ map summary out = filter (gets_details origin parseDetailedInfo fuel) listings
    /\ Forall (fun e =>
                 detailedInfo e
                 = detail_of origin parseDetailedInfo fuel (summary e)
                 /\ detailedInfo e <> None) out
    /\ (List.length out <= List.length listings)%nat.
Proof.
  intros Hfuel. rewrite enrich_all_returns by exact Hfuel.
  eexists. split; [reflexivity|]. split; [apply map_summary_filter|]. split.
  - apply Forall_forall. intros e He. apply filter_In in He.
    destruct He as [He Hdet]. apply in_map_iff in He.
    destruct He as (l & <- & _). split; [reflexivity|].
    unfold has_details in Hdet. destruct (detailedInfo _); [discriminate | discriminate Hdet].
  - etransitivity; [apply filter_length_le|]. now rewrite length_map.
Qed.

(** X15. [scrapeListingDetails] never throws: it returns details or null
    after one to three requests for the URL, each with the 10 s timeout,
    and a 1 s wait between one request and the next. *)
Theorem scrapeListingDetails_never_throws (fuel : nat) (url : option string)
    (w : World) :
  (3 <= fuel)%nat ->
  exists info (k : nat),
    (k < 3)%nat
    /\ scrapeListingDetails origin parseDetailedInfo fuel url w
       = (Ret info,
          {| issued := issued w + S k;
             log := log w ++ retry_log url 1000 10000 k |}).
Proof.
  intros Hfuel.
  destruct (axiosWithRetry_from_spec origin url 3 1000 10000 fuel 0 w
              ltac:(lia) ltac:(exact Hfuel)) as (k & Hk & _ & Hsnd & Hfst).
  change (axiosWithRetry_from origin fuel url 3 1000 10000 0 w)
    with (axiosWithRetry origin fuel url 3 1000 10000 w) in Hsnd, Hfst.
  unfold scrapeListingDetails, try_catch, bind.
  destruct (axiosWithRetry origin fuel url 3 1000 10000 w) as [r w'].
  cbn [fst snd] in Hsnd, Hfst. subst w'.
  destruct (origin url (issued w + k)%nat) as [data|e].
  - subst r. destruct data as [doc|e]; cbn.
    + destruct (parseDetailedInfo (cleanText (info_container_text doc)));
        cbn; eexists; exists k; (split; [lia | reflexivity]).
    + eexists; exists k; (split; [lia | reflexivity]).
  - destruct Hfst as [_ ->]. cbn. eexists; exists k; (split; [lia | reflexivity]).
Qed.

End EnricherComposition.

Lemma enrich_all_app_witness :
  exists out1 out2,
    Services.enrich_all one_down_origin 3
      (firstn 4 (map Services.extractListingInfo ten_nodes)) = Ret out1
    /\ Services.enrich_all one_down_origin 3
         (skipn 4 (map Services.extractListingInfo ten_nodes)) = Ret out2
    /\ Services.enrich_all one_down_origin 3
         (firstn 4 (map Services.extractListingInfo ten_nodes)
          ++ skipn 4 (map Services.extractListingInfo ten_nodes))
       = Ret (out1 ++ out2)%list.
Proof.
  apply (enrich_all_app one_down_origin Services.parseDetailedInfo 3
           (firstn 4 (map Services.extractListingInfo ten_nodes))
           (skipn 4 (map Services.extractListingInfo ten_nodes))).
  lia.
Defined.

Lemma enrich_all_keeps_order_witness :
  exists out,
    Services.enrich_all one_down_origin 3 (map Services.extractListingInfo ten_nodes)
    = Ret out
    /\ map summary out
       = filter (gets_details one_down_origin Services.parseDetailedInfo 3)
           (map Services.extractListingInfo ten_nodes)
    /\ Forall (fun e =>
                 detailedInfo e
                 = detail_of one_down_origin Services.parseDetailedInfo 3 (summary e)
                 /\ detailedInfo e <> None) out
    /\ (List.length out
        <= List.length (map Services.extractListingInfo ten_nodes))%nat.
Proof.
  apply (enrich_all_keeps_order one_down_origin Services.parseDetailedInfo 3
           (map Services.extractListingInfo ten_nodes)).
  lia.
Defined.

Lemma scrapeListingDetails_never_throws_witness :
  exists info (k : nat),
    (k < 3)%nat
    /\ scrapeListingDetails dead_origin Services.parseDetailedInfo 3
         (Some "https://dorisgee.com/listing/3") fresh_world
       = (Ret info,
          {| issued := issued fresh_world + S k;
             log := log fresh_world
                    ++ retry_log (Some "https://dorisgee.com/listing/3") 1000 10000 k |}).
Proof.
  apply (scrapeListingDetails_never_throws dead_origin Services.parseDetailedInfo 3
           (Some "https://dorisgee.com/listing/3") fresh_world).
  lia.
Defined.

(** X16. In the modular variant, a detail page that arrives at the first
    attempt costs one request and no wait; when the cleaned text of its
    info container is empty the result is null (the listing will be
    dropped), and otherwise it is the details parsed from that cleaned
    text. *)
Theorem Services_scrapeListingDetails_first_reply `{Extractors}
    (origin : option string -> nat -> Reply) (fuel : nat) (url : option string)
    (w : World) (doc : Document) :
  (1 <= fuel)%nat ->
  origin url (issued w) = Data (Html doc) ->
  Services.scrapeListingDetails origin fuel url w
  = (Ret (match cleanText (info_container_text doc) with
          | EmptyString => None
          | String _ _ =>
              Some {| description :=
                        extractDescription (cleanText (info_container_text doc));
                      fields :=
                        extractDetailFields (cleanText (info_container_text doc)) |}
          end),
     {| issued := S (issued w);
        log := log w ++ [EvGet url (Some 10000)] |}).
Proof.
  intros Hfuel Hreply. destruct fuel as [|fuel]; [lia|].
  unfold Services.scrapeListingDetails, scrapeListingDetails, axiosWithRetry.
  unfold try_catch at 1. unfold bind at 1.
  rewrite axiosWithRetry_from_step. cbn [Z.ltb Z.compare]. cbv zeta. rewrite Hreply.
  unfold bind, ret, cheerio_load, lift, Services.parseDetailedInfo. cbn.
  destruct (cleanText (info_container_text doc)); reflexivity.
Qed.

Lemma Services_scrapeListingDetails_first_reply_witness :
  Services.scrapeListingDetails one_down_origin 3
    (Some "https://dorisgee.com/listing/5") fresh_world
  = (Ret (match cleanText (info_container_text detail_page) with
          | EmptyString => None
          | String _ _ =>
              Some {| description :=
                        extractDescription (cleanText (info_container_text detail_page));
                      fields :=
                        extractDetailFields (cleanText (info_container_text detail_page)) |}
          end),
     {| issued := S (issued fresh_world);
        log := log fresh_world
               ++ [EvGet (Some "https://dorisgee.com/listing/5") (Some 10000)] |}).
Proof.
  apply (Services_scrapeListingDetails_first_reply one_down_origin 3
           (Some "https://dorisgee.com/listing/5") fresh_world detail_page).
  - lia.
  - reflexivity.
Defined.

(** X17. A run of bot.js returns the empty dataset, whatever the origin
    serves: its [parseDetailedInfo] never returns details. *)
Theorem BotJs_run_always_empty `{Extractors}
    (origin : option string -> nat -> Reply) (fuel : nat) (baseUrl : string)
    (maxPages : Z) :
  (3 <= fuel)%nat ->
  (Z.to_nat maxPages <= fuel)%nat ->
  exists w,
    BotJs.scrapeAllListingsWithDetails origin fuel baseUrl maxPages fresh_world
    = (Ret [], w)
    /\ Z.of_nat (count_gets (log w)) <= Z.max 0 maxPages.
Proof.
  intros Hfetch Hpages.
  unfold BotJs.scrapeAllListingsWithDetails, scrapeAllListingsWithDetails, bind, crawl.
  destruct (crawl_loop_terminates origin BotJs.extractListingInfo baseUrl maxPages fuel
              crawl_start fresh_world) as (st & w & Hrun & Hcount).
  { cbn [currentPage crawl_start]. replace (maxPages + 1 - 1) with maxPages by lia.
    exact Hpages. }
  rewrite Hrun. exists w. split.
  - pose proof (BotJs_enrich_all_empty origin fuel (allListings st) Hfetch) as Hempty.
    unfold BotJs.enrich_all in Hempty. now rewrite Hempty.
  - cbn [currentPage crawl_start log fresh_world count_gets] in Hcount. lia.
Qed.

Lemma BotJs_run_always_empty_witness :
  exists w,
    BotJs.scrapeAllListingsWithDetails one_down_origin 20 listings_url 20 fresh_world
    = (Ret [], w)
    /\ Z.of_nat (count_gets (log w)) <= Z.max 0 20.
Proof.
  apply (BotJs_run_always_empty one_down_origin 20 listings_url 20);
    vm_compute; lia.
Defined.

(** ** utils.js: [parseDimensions] *)

Lemma split_lacking (sep : ascii) (s : string) :
  lacks_char sep s = true -> JS.split sep s = [s].
Proof.
  induction s as [|c s IH]; [reflexivity|].
  cbn [lacks_char JS.split]. intros Hs. apply andb_prop in Hs.
  destruct Hs as [Hc Hrest]. apply negb_true_iff in Hc. rewrite Hc.
  now rewrite (IH Hrest).
Qed.

Lemma split_app_sep (sep : ascii) (a b : string) :
  lacks_char sep a = true ->
  JS.split sep (a ++ String sep b) = a :: JS.split sep b.
Proof.
  induction a as [|c a IH]; intros Ha.
  - cbn [String.append JS.split]. now rewrite Ascii.eqb_refl.
  - cbn [lacks_char] in Ha. apply andb_prop in Ha. destruct Ha as [Hc Hrest].
    apply negb_true_iff in Hc. cbn [String.append JS.split].
    now rewrite Hc, (IH Hrest).
Qed.

Lemma string_app_assoc (s t u : string) : (s ++ t) ++ u = s ++ t ++ u.
Proof. induction s as [|c s IH]; [reflexivity|]. cbn. now rewrite IH. Qed.

Lemma trimEnd_app_space (a : string) : JS.trimEnd (a ++ " ") = JS.trimEnd a.
Proof.
  induction a as [|c a IH]; [reflexivity|].
  cbn [String.append JS.trimEnd]. now rewrite IH.
Qed.

Lemma trim_app_space (a : string) : JS.trim (a ++ " ") = JS.trim a.
Proof.
  unfold JS.trim. induction a as [|c a IH]; [reflexivity|].
  cbn [String.append JS.trimStart]. destruct (JS.is_space c); [exact IH|].
  apply (trimEnd_app_space (String c a)).
Qed.

(** X18. [parseDimensions] takes apart what [extractRooms] puts together:
    for two texts without a multiplication sign, written with " × "
    between them, it returns the first, trimmed, as length and the
    second, trimmed, as width. *)
Theorem parseDimensions_of_pair (a b : string) :
  lacks_char Utils.times_sign a = true ->
  lacks_char Utils.times_sign b = true ->
  Utils.parseDimensions (a ++ String " " (String Utils.times_sign (String " " b)))
  = {| Utils.length := JS.trim a; Utils.width := JS.trim b |}.
Proof.
  intros Ha Hb. unfold Utils.parseDimensions.
  assert (Hsplit : JS.split Utils.times_sign
                     (a ++ String " " (String Utils.times_sign (String " " b)))
                   = [a ++ " "; String " " b]).
  { replace (a ++ String " " (String Utils.times_sign (String " " b)))
      with ((a ++ " ") ++ String Utils.times_sign (String " " b))
      by (rewrite string_app_assoc; reflexivity).
    rewrite split_app_sep.
    - f_equal. apply split_lacking. cbn [lacks_char]. now rewrite Hb.
    - clear Hb. induction a as [|c a IH]; [reflexivity|].
      cbn [lacks_char String.append] in *. apply andb_prop in Ha.
      destruct Ha as [Hc Hrest]. now rewrite Hc, IH. }
  rewrite Hsplit. cbn [map nth_error]. rewrite trim_app_space.
  change (JS.trim (String " " b)) with (JS.trim b).
  now rewrite !or_else_some_self.
Qed.

Lemma parseDimensions_of_pair_witness :
  Utils.parseDimensions
    ("20'6 " ++ String " " (String Utils.times_sign (String " " " 15'2")))
  = {| Utils.length := JS.trim "20'6 "; Utils.width := JS.trim " 15'2" |}.
Proof.
  apply (parseDimensions_of_pair "20'6 " " 15'2"); reflexivity.
Defined.

(** X19. Without a multiplication sign in its argument, [parseDimensions]
    returns the whole trimmed text as length and the empty string as
    width. *)
Theorem parseDimensions_without_sign (dimStr : string) :
  lacks_char Utils.times_sign dimStr = true ->
  Utils.parseDimensions dimStr
  = {| Utils.length := JS.trim dimStr; Utils.width := "" |}.
Proof.
  intros Hs. unfold Utils.parseDimensions. rewrite (split_lacking _ _ Hs).
  cbn [map nth_error]. now rewrite or_else_some_self.
Qed.

Lemma parseDimensions_without_sign_witness :
  Utils.parseDimensions " 12 by 14 "
  = {| Utils.length := JS.trim " 12 by 14 "; Utils.width := "" |}.
Proof.
  apply (parseDimensions_without_sign " 12 by 14 "). reflexivity.
Defined.

(** ** The backtracking matcher *)

Lemma star_loop_sound (a : Rx.rx) (g : bool)
    (step : string -> Rx.Caps -> Rx.Cont -> option (string * Rx.Caps)) (k : Rx.Cont) :
  (forall s c k' x, step s c k' = Some x ->
     exists s1 c1, Rx.matches a s c s1 c1 /\ k' s1 c1 = Some x) ->
  forall n s c x,
    Rx.star_loop step g k n s c = Some x ->
    exists s1 c1, Rx.matches (Rx.Star g a) s c s1 c1 /\ k s1 c1 = Some x.
Proof.
  intros Hstep. induction n as [|n IH]; intros s c x Hrun; cbn [Rx.star_loop] in Hrun.
  - destruct g; [|destruct (k s c) eqn:Hk; [|discriminate]];
      exists s, c; (split; [constructor|]); congruence.
  - destruct (step s c
                (fun s1 c1 =>
                   if (String.length s1 <? String.length s)%nat
                   then Rx.star_loop step g k n s1 c1 else None)) as [y|] eqn:Hagain.
    + assert (Hvia : exists s2 c2, Rx.matches (Rx.Star g a) s c s2 c2 /\ k s2 c2 = Some y).
      { destruct (Hstep _ _ _ _ Hagain) as (s1 & c1 & Ha & Hk1).
        destruct (String.length s1 <? String.length s)%nat; [|discriminate].
        destruct (IH _ _ _ Hk1) as (s2 & c2 & Hstar & Hk2).
        exists s2, c2. split; [econstructor 7; eassumption | exact Hk2]. }
      destruct g.
      * injection Hrun as <-. exact Hvia.
      * destruct (k s c) eqn:Hk.
        -- injection Hrun as <-. exists s, c. split; [constructor | exact Hk].
        -- injection Hrun as <-. exact Hvia.
    + destruct g; [|destruct (k s c) eqn:Hk; [|discriminate]];
        exists s, c; (split; [constructor|]); congruence.
Qed.

(** Whatever [run] returns, it got from its continuation, at the end of a
    match of the pattern. *)
Lemma run_sound (r : Rx.rx) :
  forall s c k x,
    Rx.run r s c k = Some x ->
    exists s1 c1, Rx.matches r s c s1 c1 /\ k s1 c1 = Some x.
Proof.
  induction r as [|p|a IHa b IHb|a IHa b IHb|g a IHa|i a IHa|a IHa];
    intros s c k x Hrun; cbn [Rx.run] in Hrun.
  - exists s, c. split; [constructor | exact Hrun].
  - destruct s as [|ch s]; [discriminate|].
    destruct (p ch) eqn:Hp; [|discriminate].
    exists s, c. split; [now constructor | exact Hrun].
  - destruct (IHa _ _ _ _ Hrun) as (s1 & c1 & Ha & Hb).
    destruct (IHb _ _ _ _ Hb) as (s2 & c2 & Hb' & Hk).
    exists s2, c2. split; [econstructor; eassumption | exact Hk].
  - destruct (Rx.run a s c k) as [y|] eqn:Ha.
    + injection Hrun as <-. destruct (IHa _ _ _ _ Ha) as (s1 & c1 & Hm & Hk).
      exists s1, c1. split; [now apply Rx.MAltL | exact Hk].
    + destruct (IHb _ _ _ _ Hrun) as (s1 & c1 & Hm & Hk).
      exists s1, c1. split; [now apply Rx.MAltR | exact Hk].
  - exact (star_loop_sound a g (Rx.run a) k IHa _ _ _ _ Hrun).
  - destruct (IHa _ _ _ _ Hrun) as (s1 & c1 & Hm & Hk).
    eexists. eexists. split; [apply Rx.MGroup; exact Hm | exact Hk].
  - destruct (Rx.run a s c (fun s1 c1 => Some (s1, c1))) as [[s' c']|] eqn:Ha;
      [|discriminate].
    destruct (IHa _ _ _ _ Ha) as (s1 & c1 & Hm & Hk).
    injection Hk as -> ->.
    exists s, c'. split; [econstructor; exact Hm | exact Hrun].
Qed.

(** A match leaves a suffix of the text. *)
Lemma matches_suffix (r : Rx.rx) (s : string) (c : Rx.Caps) (s1 : string)
    (c1 : Rx.Caps) :
  Rx.matches r s c s1 c1 -> exists u, s = u ++ s1.
Proof.
  induction 1 as [s c|p ch s c Hp|a b s c s1 c1 s2 c2 _ [u Hu] _ [v Hv]
                  |a b s c s1 c1 _ IH|a b s c s1 c1 _ IH
                  |g a s c|g a s c s1 c1 s2 c2 _ [u Hu] _ [v Hv]
                  |i a s c s1 c1 _ IH|a s c s1 c1 _ _].
  - now exists "".
  - now exists (String ch "").
  - exists (u ++ v). subst. now rewrite string_app_assoc.
  - exact IH.
  - exact IH.
  - now exists "".
  - exists (u ++ v). subst. now rewrite string_app_assoc.
  - exact IH.
  - now exists "".
Qed.

Lemma consumed_app (u s1 : string) : Rx.consumed (u ++ s1) s1 = u.
Proof.
  unfold Rx.consumed. rewrite string_length_app.
  replace (String.length u + String.length s1 - String.length s1)%nat
    with (String.length u) by lia.
  apply substring_0_length.
Qed.

Lemma lacks_char_app (ch : ascii) (s t : string) :
  lacks_char ch (s ++ t) = lacks_char ch s && lacks_char ch t.
Proof.
  induction s as [|c s IH]; [reflexivity|].
  cbn [String.append lacks_char]. now rewrite IH, andb_assoc.
Qed.

(** In a text without the character [ch], no group holds it. *)
Lemma matches_lacks (ch : ascii) (r : Rx.rx) (s : string) (c : Rx.Caps)
    (s1 : string) (c1 : Rx.Caps) :
  Rx.matches r s c s1 c1 ->
  lacks_char ch s = true ->
  Forall (fun entry => lacks_char ch (snd entry) = true) c ->
  lacks_char ch s1 = true
  /\ Forall (fun entry => lacks_char ch (snd entry) = true) c1.
Proof.
  induction 1 as [s c|p x s c Hp|a b s c s1 c1 s2 c2 _ IH1 _ IH2
                  |a b s c s1 c1 _ IH|a b s c s1 c1 _ IH
                  |g a s c|g a s c s1 c1 s2 c2 _ IH1 _ IH2
                  |i a s c s1 c1 Hm IH|a s c s1 c1 _ IH]; intros Hs Hc.
  - now split.
  - cbn [lacks_char] in Hs. apply andb_prop in Hs. now split.
  - destruct (IH1 Hs Hc) as [Hs1 Hc1]. now apply IH2.
  - now apply IH.
  - now apply IH.
  - now split.
  - destruct (IH1 Hs Hc) as [Hs1 Hc1]. now apply IH2.
  - destruct (IH Hs Hc) as [Hs1 Hc1]. split; [exact Hs1|].
    constructor; [|exact Hc1]. cbn [snd].
    destruct (matches_suffix _ _ _ _ _ Hm) as (u & ->).
    rewrite consumed_app. rewrite lacks_char_app in Hs.
    now apply andb_prop in Hs.
  - destruct (IH Hs Hc) as [_ Hc1]. now split.
Qed.

(** What [search] returns are the groups of a match somewhere in the
    text. *)
Lemma search_sound (r : Rx.rx) (s : string) (caps : Rx.Caps) :
  Rx.search r s = Some caps ->
  exists before s0 s1, s = before ++ s0 /\ Rx.matches r s0 [] s1 caps.
Proof.
  induction s as [|ch s IH]; cbn [Rx.search].
  - destruct (Rx.run r "" [] Rx.accept) as [[s' c']|] eqn:Hrun; [|discriminate].
    intros [= <-]. destruct (run_sound _ _ _ _ _ Hrun) as (s1 & c1 & Hm & Hk).
    unfold Rx.accept in Hk. injection Hk as -> ->. now exists "", "", s'.
  - destruct (Rx.run r (String ch s) [] Rx.accept) as [[s' c']|] eqn:Hrun.
    + intros [= <-]. destruct (run_sound _ _ _ _ _ Hrun) as (s1 & c1 & Hm & Hk).
      unfold Rx.accept in Hk. injection Hk as -> ->.
      now exists "", (String ch s), s'.
    + intros Hrest. destruct (IH Hrest) as (before & s0 & s1 & -> & Hm).
      now exists (String ch before), s0, s1.
Qed.

Lemma search_lacks (ch : ascii) (r : Rx.rx) (s : string) (caps : Rx.Caps)
    (i : nat) (text : string) :
  Rx.search r s = Some caps ->
  lacks_char ch s = true ->
  Rx.group i caps = Some text ->
  lacks_char ch text = true.
Proof.
  intros Hsearch Hs Hgroup.
  destruct (search_sound _ _ _ Hsearch) as (before & s0 & s1 & -> & Hm).
  rewrite lacks_char_app in Hs. apply andb_prop in Hs. destruct Hs as [_ Hs0].
  destruct (matches_lacks ch _ _ _ _ _ Hm Hs0 (Forall_nil _)) as [_ Hcaps].
  clear Hm Hsearch. induction caps as [|[j t] caps IH]; [discriminate|].
  cbn [Rx.group] in Hgroup. inversion Hcaps as [|? ? Ht Hrest]; subst.
  destruct (Nat.eqb j i).
  - injection Hgroup as <-. exact Ht.
  - now apply IH.
Qed.

(** ** DetailTextParser: the rooms *)

Lemma single_spaced_lacks_line_feed (b : bool) (s : string) :
  single_spaced b s = true -> lacks_char ParsersJs.line_feed s = true.
Proof.
  revert b. induction s as [|c s IH]; intros b Hs; [reflexivity|].
  cbn [single_spaced] in Hs. cbn [lacks_char].
  destruct (JS.is_space c) eqn:Hc.
  - apply andb_prop in Hs. destruct Hs as [Hhead Hrest].
    apply andb_prop in Hhead. destruct Hhead as [Heq _].
    apply Ascii.eqb_eq in Heq. subst c. now rewrite (IH true Hrest).
  - rewrite (IH false Hs), andb_true_r.
    destruct (Ascii.eqb_spec c ParsersJs.line_feed) as [->|]; [|reflexivity].
    vm_compute in Hc. discriminate.
Qed.

Lemma rooms_of_one_line (line : string) :
  (List.length (ParsersJs.rooms_of_lines [line]) <= 1)%nat.
Proof.
  cbn [ParsersJs.rooms_of_lines]. destruct (ParsersJs.room_of_line line); cbn; lia.
Qed.

(** X20. [extractRooms] returns at most one room for a text without a
    line feed, and so for every text that has gone through [cleanText], as
    the text given to [parseDetailedInfo] has: the room section is split
    at line feeds, and [cleanText] has turned them all into spaces. *)
Theorem extractRooms_at_most_one :
  (forall text,
      lacks_char ParsersJs.line_feed text = true ->
      (List.length (ParsersJs.extractRooms text) <= 1)%nat)
  /\ (forall raw,
        (List.length (ParsersJs.extractRooms (cleanText raw)) <= 1)%nat).
Proof.
  assert (Hone : forall text,
             lacks_char ParsersJs.line_feed text = true ->
             (List.length (ParsersJs.extractRooms text) <= 1)%nat).
  { intros text Htext. unfold ParsersJs.extractRooms.
    destruct (Rx.search ParsersJs.room_section_rx text) as [caps|] eqn:Hsearch;
      [|cbn; lia].
    destruct (Rx.group 1 caps) as [section|] eqn:Hgroup.
    - pose proof (search_lacks _ _ _ _ _ _ Hsearch Htext Hgroup) as Hsection.
      rewrite or_else_some_self, (split_lacking _ _ Hsection).
      apply rooms_of_one_line.
    - cbn [JS.or_else JS.split]. apply rooms_of_one_line. }
  split; [exact Hone|].
  intros raw. apply Hone.
  destruct (cleanText_shape raw) as (Hsingle & _ & _).
  now apply (single_spaced_lacks_line_feed false).
Qed.

(** ** Patterns that open with a label *)

Lemma run_lit_fail (label : string) :
  forall s c k, String.prefix label s = false -> Rx.run (Rx.lit label) s c k = None.
Proof.
  induction label as [|a label IH]; intros s c k Hp.
  - destruct s; discriminate.
  - cbn [Rx.lit Rx.run]. destruct s as [|ch s]; [reflexivity|].
    cbn [String.prefix] in Hp.
    destruct (Ascii.eqb_spec a ch) as [->|Hne]; [|reflexivity].
    destruct (Ascii.ascii_dec ch ch) as [_|Hne]; [|contradiction].
    now apply IH.
Qed.

Lemma run_lit_prefix (label : string) :
  forall s c k, Rx.run (Rx.lit label) (label ++ s) c k = k s c.
Proof.
  induction label as [|a label IH]; intros s c k; [reflexivity|].
  cbn [Rx.lit Rx.run String.append]. now rewrite Ascii.eqb_refl, IH.
Qed.

Lemma occurs_in_tail (pat : string) (ch : ascii) (s : string) :
  ~ occurs_in pat (String ch s) -> ~ occurs_in pat s.
Proof.
  intros Habsent (before & rest & ->). apply Habsent.
  now exists (String ch before), rest.
Qed.

Lemma absent_not_prefix (pat s : string) :
  ~ occurs_in pat s -> String.prefix pat s = false.
Proof.
  intros Habsent. destruct (String.prefix pat s) eqn:Hp; [|reflexivity].
  exfalso. apply Habsent. destruct (prefix_app _ _ Hp) as (rest & ->).
  now exists "", rest.
Qed.

(** A pattern that opens with a label finds nothing in a text in which
    the label does not occur. *)
Lemma search_label_absent (label : string) (r : Rx.rx) (s : string) :
  ~ occurs_in label s -> Rx.search (Rx.Seq (Rx.lit label) r) s = None.
Proof.
  induction s as [|ch s IH]; intros Habsent; cbn [Rx.search Rx.run].
  - now rewrite run_lit_fail by now apply absent_not_prefix.
  - rewrite run_lit_fail by now apply absent_not_prefix.
    apply IH. now apply occurs_in_tail in Habsent.
Qed.

(** X21. Each extractor of [parseDetailedInfo] reports "missing", and
    nothing else, when its label does not occur in the text: null for the
    year built, the construction, the taxes and the lot area, the empty
    list for parking, heating, amenities and rooms. *)
Theorem detail_extractors_without_label (text : string) :
  (~ occurs_in "Year built:" text -> ParsersJs.extractYearBuilt text = None)
  /\ (~ occurs_in "Parking:" text -> ParsersJs.extractParking text = [])
  /\ (~ occurs_in "Heating:" text -> ParsersJs.extractHeating text = [])
  /\ (~ occurs_in "Features Included:" text -> ParsersJs.extractAmenities text = [])
  /\ (~ occurs_in "Construction:" text -> ParsersJs.extractConstruction text = None)
  /\ (~ occurs_in "Room Information:" text -> ParsersJs.extractRooms text = [])
  /\ (~ occurs_in "Taxes:" text -> ParsersJs.extractTaxes text = None)
  /\ (~ occurs_in "Lot Area:" text ->
      ParsersJs.extractLotInfo text = {| ParsersJs.area := None |}).
Proof.
  unfold ParsersJs.extractYearBuilt, ParsersJs.extractParking,
    ParsersJs.extractHeating, ParsersJs.extractAmenities, ParsersJs.comma_list,
    ParsersJs.extractConstruction, ParsersJs.extractRooms, ParsersJs.extractTaxes,
    ParsersJs.extractLotInfo.
  unfold ParsersJs.year_built_rx, ParsersJs.sentence_rx, ParsersJs.room_section_rx,
    ParsersJs.taxes_rx, ParsersJs.sqft_rx.
  repeat split; intros Habsent; now rewrite search_label_absent.
Qed.

Lemma detail_extractors_without_label_witness :
  ParsersJs.extractFields "Bright corner unit close to transit"
  = {| ParsersJs.features :=
         {| ParsersJs.yearBuilt := None; ParsersJs.parking := [];
            ParsersJs.heating := []; ParsersJs.amenities := [];
            ParsersJs.construction := None |};
       ParsersJs.rooms := [];
       ParsersJs.taxes := None;
       ParsersJs.lotInfo := {| ParsersJs.area := None |} |}.
Proof.
  destruct (detail_extractors_without_label "Bright corner unit close to transit")
    as (Hyear & Hparking & Hheating & Hamenities & Hconstruction & Hrooms & Htaxes & Hlot).
  unfold ParsersJs.extractFields.
  rewrite Hyear, Hparking, Hheating, Hamenities, Hconstruction, Hrooms, Htaxes, Hlot;
    first [reflexivity | apply indexOf_absent_iff; vm_compute; reflexivity].
Defined.

(** X22. [extractDetailsFromSummary] leaves out, rather than sets to zero,
    each property whose label does not occur in the summary text. *)
Theorem extractDetailsFromSummary_without_label (summaryText : string) :
  (~ occurs_in "MLS" summaryText ->
   ParsersJs.mlsNumber (ParsersJs.extractDetailsFromSummary summaryText) = None)
  /\ (~ occurs_in "Bedrooms:" summaryText ->
      ParsersJs.bedrooms (ParsersJs.extractDetailsFromSummary summaryText) = None)
  /\ (~ occurs_in "Bathrooms:" summaryText ->
      ParsersJs.bathrooms (ParsersJs.extractDetailsFromSummary summaryText) = None)
  /\ (~ occurs_in "Floor Area:" summaryText ->
      ParsersJs.floorArea (ParsersJs.extractDetailsFromSummary summaryText) = None).
Proof.
  unfold ParsersJs.extractDetailsFromSummary.
  cbn [ParsersJs.mlsNumber ParsersJs.bedrooms ParsersJs.bathrooms ParsersJs.floorArea].
  unfold ParsersJs.mls_rx, ParsersJs.count_rx, ParsersJs.sqft_rx.
  repeat split; intros Habsent; now rewrite search_label_absent.
Qed.

Lemma extractDetailsFromSummary_without_label_witness :
  ParsersJs.mlsNumber
    (ParsersJs.extractDetailsFromSummary "Bedrooms: 3 Floor Area: 1,250 sq. ft.")
  = None
  /\ ParsersJs.bathrooms
       (ParsersJs.extractDetailsFromSummary "Bedrooms: 3 Floor Area: 1,250 sq. ft.")
     = None.
Proof.
  destruct (extractDetailsFromSummary_without_label
              "Bedrooms: 3 Floor Area: 1,250 sq. ft.") as (Hmls & _ & Hbath & _).
  split; [apply Hmls | apply Hbath]; apply indexOf_absent_iff; vm_compute; reflexivity.
Defined.

Example extractDetailsFromSummary_partial :
  ParsersJs.extractDetailsFromSummary "Bedrooms: 3 Floor Area: 1,250 sq. ft."
  = {| ParsersJs.mlsNumber := None;
       ParsersJs.bedrooms := Some (Dec false 3 0);
       ParsersJs.bathrooms := None;
       ParsersJs.floorArea :=
         Some {| ParsersJs.sqft := Dec false 1250 0; ParsersJs.sqm := Dec false 0 0 |} |}.
Proof. vm_compute. reflexivity. Qed.

(** ** What a match of the year patterns looks like *)







Lemma read_digits_all (s : string) :
  forallb JS.is_digit (list_ascii_of_string s) = true ->
  forall acc n,
    read_digits acc n s = (digits_number acc s, (n + String.length s)%nat, "").
Proof.
  induction s as [|c s IH]; intros Hs acc n.
  - cbn. now rewrite Nat.add_0_r.
  - cbn [list_ascii_of_string forallb] in Hs. apply andb_prop in Hs.
    destruct Hs as [Hc Hrest]. cbn [read_digits digits_number String.length].
    rewrite Hc, (IH Hrest). f_equal. f_equal. lia.
Qed.

(** [parseInt] on a text that starts with a digit and does not go on with
    an [x]: the decimal digits at its start. *)
Lemma parseInt_digit_start (c : ascii) (rest : string) :
  JS.is_digit c = true ->
  match rest with
  | String x _ => negb (Ascii.eqb x "x" || Ascii.eqb x "X")
  | EmptyString => true
  end = true ->
  parseInt (String c rest)
  = let '(v, n, _) := read_digits 0 0 (String c rest) in
    match n with
    | O => NaN
    | S _ => Dec false v 0
    end.
Proof.
  intros Hc Hx.
  destruct c as [b0 b1 b2 b3 b4 b5 b6 b7].
  destruct b0, b1, b2, b3, b4, b5, b6, b7;
    first [discriminate Hc | reflexivity | idtac].
  destruct rest as [|x r]; [reflexivity|].
  apply negb_true_iff in Hx.
  unfold parseInt. cbn [JS.trimStart]. change (JS.is_space "0") with false.
  cbv iota beta. rewrite Hx. reflexivity.
Qed.

(** [parseInt] of a text of digits is the number they spell. *)
Lemma parseInt_digits (d : string) :
  d <> "" ->
  forallb JS.is_digit (list_ascii_of_string d) = true ->
  parseInt d = Dec false (digits_number 0 d) 0.
Proof.
  intros Hne Hd. destruct d as [|c rest]; [contradiction|].
  pose proof Hd as Hall.
  cbn [list_ascii_of_string forallb] in Hd. apply andb_prop in Hd.
  destruct Hd as [Hc Hrest].
  rewrite parseInt_digit_start.
  - rewrite (read_digits_all _ Hall). reflexivity.
  - exact Hc.
  - destruct rest as [|x r]; [reflexivity|].
    cbn [list_ascii_of_string forallb] in Hrest. apply andb_prop in Hrest.
    destruct Hrest as [Hx _].
    destruct x as [b0 b1 b2 b3 b4 b5 b6 b7].
    destruct b0, b1, b2, b3, b4, b5, b6, b7;
      first [discriminate Hx | reflexivity].
Qed.

Lemma or_else_some_nonempty (c : ascii) (s d : string) :
  JS.or_else (Some (String c s)) d = String c s.
Proof. reflexivity. Qed.



(** ** Where the label patterns find their match *)

Lemma run_seq (a b : Rx.rx) (s : string) (c : Rx.Caps) (k : Rx.Cont) :
  Rx.run (Rx.Seq a b) s c k = Rx.run a s c (fun s1 c1 => Rx.run b s1 c1 k).
Proof. reflexivity. Qed.

Lemma run_group (i : nat) (a : Rx.rx) (s : string) (c : Rx.Caps) (k : Rx.Cont) :
  Rx.run (Rx.Group i a) s c k
  = Rx.run a s c (fun s1 c1 => k s1 ((i, Rx.consumed s s1) :: c1)).
Proof. reflexivity. Qed.

Lemma run_chr (p : ascii -> bool) (ch : ascii) (s : string) (c : Rx.Caps)
    (k : Rx.Cont) :
  Rx.run (Rx.Chr p) (String ch s) c k = if p ch then k s c else None.
Proof. reflexivity. Qed.

Lemma run_star (g : bool) (a : Rx.rx) (s : string) (c : Rx.Caps) (k : Rx.Cont) :
  Rx.run (Rx.Star g a) s c k
  = Rx.star_loop (Rx.run a) g k (String.length s) s c.
Proof. reflexivity. Qed.

Lemma search_unfold (r : Rx.rx) (s : string) :
  Rx.search r s
  = match Rx.run r s [] Rx.accept with
    | Some (_, caps) => Some caps
    | None =>
        match s with
        | String _ rest => Rx.search r rest
        | EmptyString => None
        end
    end.
Proof. destruct s; reflexivity. Qed.

(** The search passes over the text before the first occurrence of the
    label its pattern opens with. *)
Lemma search_skips_before (label : string) (r : Rx.rx) (s : string) :
  forall before i,
    JS.indexOf_from i label (before ++ s) = i + Z.of_nat (String.length before) ->
    Rx.search (Rx.Seq (Rx.lit label) r) (before ++ s)
    = Rx.search (Rx.Seq (Rx.lit label) r) s.
Proof.
  induction before as [|ch before IH]; intros i Hfirst; [reflexivity|].
  cbn [String.append JS.indexOf_from String.length] in Hfirst.
  destruct (String.prefix label (String ch (before ++ s))) eqn:Hp; [lia|].
  cbn [String.append]. rewrite search_unfold, run_seq, run_lit_fail by exact Hp.
  apply (IH (i + 1)). rewrite Hfirst. lia.
Qed.

(** A greedy star over a character class takes the whole run of the class
    when what follows the run lets the rest of the pattern match. *)
Lemma star_loop_class_greedy (p : ascii -> bool) (k : Rx.Cont) (s : string)
    (caps : Rx.Caps) (x : string * Rx.Caps) :
  match s with String c _ => p c = false | EmptyString => True end ->
  k s caps = Some x ->
  forall u n,
    forallb p (list_ascii_of_string u) = true ->
    (String.length u <= n)%nat ->
    Rx.star_loop (Rx.run (Rx.Chr p)) true k n (u ++ s) caps = Some x.
Proof.
  intros Hhead Hk. induction u as [|ch u IH]; intros n Hu Hn.
  - cbn [String.append]. destruct n; cbn [Rx.star_loop Rx.run].
    + now rewrite Hk.
    + destruct s as [|c s']; [now rewrite Hk|]. now rewrite Hhead, Hk.
  - destruct n as [|n]; [cbn in Hn; lia|].
    cbn [list_ascii_of_string forallb] in Hu. apply andb_prop in Hu.
    destruct Hu as [Hch Hu].
    cbn [String.append Rx.star_loop Rx.run]. rewrite Hch.
    replace (String.length (u ++ s) <? String.length (String ch (u ++ s)))%nat
      with true by (symmetry; apply Nat.ltb_lt; cbn [String.length]; lia).
    rewrite IH; [reflexivity | exact Hu | cbn [String.length] in Hn; lia].
Qed.

Lemma run_rep_class (p : ascii -> bool) :
  forall n d s caps k,
    String.length d = n ->
    forallb p (list_ascii_of_string d) = true ->
    Rx.run (Rx.rep n (Rx.Chr p)) (d ++ s) caps k = k s caps.
Proof.
  induction n as [|n IH]; intros d s caps k Hlen Hd.
  - destruct d; [reflexivity | discriminate Hlen].
  - destruct d as [|ch d]; [discriminate Hlen|].
    cbn [list_ascii_of_string forallb] in Hd. apply andb_prop in Hd.
    destruct Hd as [Hch Hd]. injection Hlen as Hlen.
    cbn [Rx.rep String.append]. rewrite run_seq. cbn [Rx.run]. rewrite Hch.
    now apply IH.
Qed.

Lemma digit_not_space (c : ascii) : JS.is_digit c = true -> JS.is_space c = false.
Proof.
  destruct c as [b0 b1 b2 b3 b4 b5 b6 b7].
  destruct b0, b1, b2, b3, b4, b5, b6, b7; first [discriminate | reflexivity].
Qed.

(** X24. The year built is found: when the first "Year built:" of the text
    is followed, after any white space, by four digits, [extractYearBuilt]
    returns the number these digits spell, whatever comes before the label
    and after the digits. *)
Theorem extractYearBuilt_finds_year (before gap d rest : string) :
  JS.indexOf "Year built:" (before ++ "Year built:" ++ gap ++ d ++ rest)
  = Z.of_nat (String.length before) ->
  forallb JS.is_space (list_ascii_of_string gap) = true ->
  String.length d = 4%nat ->
  forallb JS.is_digit (list_ascii_of_string d) = true ->
  ParsersJs.extractYearBuilt (before ++ "Year built:" ++ gap ++ d ++ rest)
  = Some (Dec false (digits_number 0 d) 0).
Proof.
  intros Hfirst Hgap Hlen Hd.
  unfold ParsersJs.extractYearBuilt, ParsersJs.year_built_rx.
  rewrite (search_skips_before _ _ _ before 0) by exact Hfirst.
  rewrite search_unfold, run_seq, run_lit_prefix, run_seq.
  change (Rx.run (Rx.Star true Rx.ws) (gap ++ d ++ rest) [] ?k)
    with (Rx.star_loop (Rx.run (Rx.Chr JS.is_space)) true k
            (String.length (gap ++ d ++ rest)) (gap ++ d ++ rest) []).
  rewrite (star_loop_class_greedy _ _ _ _ (rest, [(1%nat, d)])).
  - cbn [Rx.group Nat.eqb].
    destruct d as [|d0 d']; [discriminate Hlen|].
    rewrite or_else_some_nonempty. f_equal.
    apply parseInt_digits; [discriminate | exact Hd].
  - destruct d as [|d0 d']; [discriminate Hlen|]. cbn [String.append].
    cbn [list_ascii_of_string forallb] in Hd. apply andb_prop in Hd.
    now apply digit_not_space.
  - rewrite run_group. unfold Rx.digit.
    rewrite (run_rep_class _ 4 d) by assumption.
    unfold Rx.accept. now rewrite consumed_app.
  - exact Hgap.
  - clear. induction gap as [|c gap IH]; cbn [String.append String.length]; lia.
Qed.

Lemma extractYearBuilt_finds_year_witness :
  ParsersJs.extractYearBuilt
    ("Built well. " ++ "Year built:" ++ "  " ++ "1994" ++ " Taxes: $3,456.78 / 2023")
  = Some (Dec false (digits_number 0 "1994") 0).
Proof.
  apply (extractYearBuilt_finds_year "Built well. " "  " "1994"
           " Taxes: $3,456.78 / 2023"); vm_compute; reflexivity.
Defined.

(** The pattern [Label:([^.]+)] at the first occurrence of its label takes
    the text up to the next full stop, or up to the end where there is
    none. *)
Lemma search_sentence (label before body rest : string) :
  JS.indexOf label (before ++ label ++ body ++ rest)
  = Z.of_nat (String.length before) ->
  body <> "" ->
  forallb ParsersJs.not_dot (list_ascii_of_string body) = true ->
  rest = "" \/ (exists r, rest = String "." r) ->
  Rx.search (ParsersJs.sentence_rx label) (before ++ label ++ body ++ rest)
  = Some [(1%nat, body)].
Proof.
  intros Hfirst Hne Hbody Hrest. unfold ParsersJs.sentence_rx.
  rewrite (search_skips_before _ _ _ before 0) by exact Hfirst.
  rewrite search_unfold, run_seq, run_lit_prefix, run_group.
  destruct body as [|ch body]; [contradiction|].
  cbn [list_ascii_of_string forallb] in Hbody. apply andb_prop in Hbody.
  destruct Hbody as [Hch Hbody].
  unfold Rx.plus. rewrite run_seq. cbn [String.append].
  rewrite run_chr, Hch, run_star.
  rewrite (star_loop_class_greedy _ _ _ _ (rest, [(1%nat, String ch body)])).
  - reflexivity.
  - destruct Hrest as [->|(r & ->)]; [exact I | reflexivity].
  - unfold Rx.accept.
    change (String ch (body ++ rest)) with (String ch body ++ rest).
    now rewrite consumed_app.
  - exact Hbody.
  - clear. induction body as [|c body IH]; cbn [String.append String.length]; lia.
Qed.

(** X25. The sentence after a label is found: when the first occurrence
    of the label is followed by a non-empty text [body] without a full
    stop, which ends at a full stop or at the end of the text, the list
    extractors ([extractParking], [extractHeating] and [extractAmenities]
    are [comma_list] at their labels) return the trimmed pieces of the
    trimmed [body] between its commas, and [extractConstruction] the
    trimmed [body]. *)
Theorem sentence_extractors_found (label before body rest : string) :
  JS.indexOf label (before ++ label ++ body ++ rest)
  = Z.of_nat (String.length before) ->
  body <> "" ->
  forallb ParsersJs.not_dot (list_ascii_of_string body) = true ->
  rest = "" \/ (exists r, rest = String "." r) ->
  ParsersJs.comma_list label (before ++ label ++ body ++ rest)
  = map JS.trim (JS.split "," (JS.trim body))
  /\ (label = "Construction:" ->
      ParsersJs.extractConstruction (before ++ label ++ body ++ rest)
      = Some (JS.trim body)).
Proof.
  intros Hfirst Hne Hbody Hrest.
  pose proof (search_sentence _ _ _ _ Hfirst Hne Hbody Hrest) as Hsearch.
  split.
  - unfold ParsersJs.comma_list. rewrite Hsearch. cbn [Rx.group Nat.eqb].
    now rewrite or_else_some_self.
  - intros ->. unfold ParsersJs.extractConstruction. rewrite Hsearch.
    cbn [Rx.group Nat.eqb]. now rewrite or_else_some_self.
Qed.

Lemma sentence_extractors_found_witness :
  ParsersJs.extractParking
    ("Heating: Baseboard, Hot Water. " ++ "Parking:"
     ++ " Garage; Double , Open " ++ ". Year built: 1994")
  = ["Garage; Double"; "Open"].
Proof.
  apply (sentence_extractors_found "Parking:" "Heating: Baseboard, Hot Water. "
           " Garage; Double , Open " ". Year built: 1994").
  - vm_compute. reflexivity.
  - discriminate.
  - vm_compute. reflexivity.
  - right. now exists " Year built: 1994".
Defined.

(** ** The chat sessions *)

Lemma sessions_get_set_same (k : string) (v : ChatService.Session) m :
  ChatService.sessions_get k (ChatService.sessions_set k v m) = Some v.
Proof.
  induction m as [|[k' v'] m IH]; cbn [ChatService.sessions_set ChatService.sessions_get].
  - now rewrite String.eqb_refl.
  - destruct (String.eqb k' k) eqn:Hk; cbn [ChatService.sessions_get].
    + now rewrite String.eqb_refl.
    + now rewrite Hk.
Qed.


Lemma sessions_get_delete_same (k : string) m :
  ChatService.sessions_get k (ChatService.sessions_delete k m) = None.
Proof.
  induction m as [|[k' v'] m IH]; [reflexivity|].
  cbn [ChatService.sessions_delete].
  destruct (String.eqb k' k) eqn:Hk; [exact IH|].
  cbn [ChatService.sessions_get]. now rewrite Hk.
Qed.

Lemma sessions_get_delete_other (k k' : string) m :
  k' <> k ->
  ChatService.sessions_get k' (ChatService.sessions_delete k m)
  = ChatService.sessions_get k' m.
Proof.
  intros Hne. induction m as [|[k0 v0] m IH]; [reflexivity|].
  cbn [ChatService.sessions_delete ChatService.sessions_get].
  destruct (String.eqb_spec k0 k) as [->|Hk0].
  - destruct (String.eqb_spec k k') as [->|_]; [contradiction | exact IH].
  - cbn [ChatService.sessions_get]. now rewrite IH.
Qed.

Lemma cleanupSession_sessions (sessionId : string) (del_ok : bool) sv :
  ChatService.sessions (ChatService.cleanupSession sessionId del_ok sv)
  = ChatService.sessions_delete sessionId (ChatService.sessions sv).
Proof.
  unfold ChatService.cleanupSession.
  destruct (ChatService.sessions_get sessionId (ChatService.sessions sv)) as [session|];
    [|reflexivity].
  destruct (ChatService.threadId session) as [thread|]; [|reflexivity].
  destruct (JS.truthy thread), del_ok; reflexivity.
Qed.

Lemma cleanupSession_timers (sessionId : string) (del_ok : bool) sv :
  ChatService.timers (ChatService.cleanupSession sessionId del_ok sv)
  = ChatService.timers sv.
Proof.
  unfold ChatService.cleanupSession.
  destruct (ChatService.sessions_get sessionId (ChatService.sessions sv)) as [session|];
    [|reflexivity].
  destruct (ChatService.threadId session) as [thread|]; [|reflexivity].
  destruct (JS.truthy thread), del_ok; reflexivity.
Qed.

(** X26. [cleanupSession] always forgets the session, also when deleting
    its thread fails, and no other session; [clear_chat] goes out only
    for a session with a thread whose deletion succeeded; and the timers
    that were started for the session stay pending. *)
Theorem cleanupSession_forgets_the_session
    (sessionId : string) (del_ok : bool) (sv : ChatService.Service) :
  let sv' := ChatService.cleanupSession sessionId del_ok sv in
  ChatService.sessions_has sessionId (ChatService.sessions sv') = false
  /\ (forall other,
        other <> sessionId ->
        ChatService.sessions_get other (ChatService.sessions sv')
        = ChatService.sessions_get other (ChatService.sessions sv))
  /\ ChatService.timers sv' = ChatService.timers sv
  /\ (In (ChatService.ClearChat sessionId) (ChatService.emitted sv') ->
      In (ChatService.ClearChat sessionId) (ChatService.emitted sv)
      \/ (del_ok = true
          /\ exists session thread,
              ChatService.sessions_get sessionId (ChatService.sessions sv) = Some session
              /\ ChatService.threadId session = Some thread
              /\ JS.truthy thread = true)).
Proof.
  cbv zeta. repeat split.
  - unfold ChatService.sessions_has.
    now rewrite cleanupSession_sessions, sessions_get_delete_same.
  - intros other Hne. rewrite cleanupSession_sessions.
    now apply sessions_get_delete_other.
  - apply cleanupSession_timers.
  - unfold ChatService.cleanupSession.
    destruct (ChatService.sessions_get sessionId (ChatService.sessions sv))
      as [session|] eqn:Hget; [|now left].
    destruct (ChatService.threadId session) as [thread|] eqn:Hthread; [|now left].
    destruct (JS.truthy thread) eqn:Htruthy; [|now left].
    destruct del_ok.
    + intros _. right. split; [reflexivity|]. now exists session, thread.
    + cbn [ChatService.emitted ChatService.with_sessions ChatService.emit].
      intros Hin. apply in_app_or in Hin. destruct Hin as [Hin|[Habs|[]]].
      * now left.
      * discriminate Habs.
Qed.







Lemma find_app_some {A} (p : A -> bool) (l l' : list A) (x : A) :
  find p l = Some x -> find p (l ++ l')%list = Some x.
Proof.
  induction l as [|a l IH]; [discriminate|]. cbn [find app].
  destruct (p a); [trivial | exact IH].
Qed.

Lemma find_filter_some {A} (p q : A -> bool) (l : list A) (x : A) :
  (forall y, p y = true -> q y = true) ->
  find p l = Some x -> find p (filter q l) = Some x.
Proof.
  intros Hpq. induction l as [|a l IH]; [discriminate|]. cbn [find filter].
  destruct (p a) eqn:Hp.
  - intros [= ->]. rewrite (Hpq _ Hp). cbn [find]. now rewrite Hp.
  - intros Hfind. destruct (q a); [cbn [find]; rewrite Hp|]; now apply IH.
Qed.

Lemma disconnect_known (now : Z) (sessionId : string)
    (session : ChatService.Session) (sv : ChatService.Service) :
  JS.truthy sessionId = true ->
  ChatService.sessions_get sessionId (ChatService.sessions sv) = Some session ->
  ChatService.disconnect now (Some sessionId, sv)
  = (Some sessionId,
     {| ChatService.sessions :=
          ChatService.sessions_set sessionId
            {| ChatService.threadId := ChatService.threadId session;
               ChatService.lastActive := ChatService.lastActive session;
               ChatService.timeoutId := Some (ChatService.next_handle sv) |}
            (ChatService.sessions sv);
        ChatService.timers :=
          (ChatService.timers sv
           ++ [{| ChatService.handle := ChatService.next_handle sv;
                  ChatService.target := sessionId;
                  ChatService.due := now + ChatService.SESSION_TIMEOUT |}])%list;
        ChatService.next_handle := S (ChatService.next_handle sv);
        ChatService.emitted := ChatService.emitted sv |}).
Proof.
  intros Htruthy Hget. unfold ChatService.disconnect. cbn [fst snd].
  now rewrite Htruthy, Hget.
Qed.

Lemma resume_session_known (sessionId uuid : string) (now : Z)
    (session : ChatService.Session) (socket : option string)
    (sv : ChatService.Service) :
  JS.truthy sessionId = true ->
  ChatService.sessions_get sessionId (ChatService.sessions sv) = Some session ->
  ChatService.resume_session (Some sessionId) uuid now (socket, sv)
  = (Some sessionId, ChatService.refreshSession session sessionId now sv).
Proof.
  intros Htruthy Hget. unfold ChatService.resume_session, ChatService.sessions_has.
  cbn [snd]. now rewrite Htruthy, Hget.
Qed.

(** X28. A timer outlives a disconnect. Take a session whose recorded
    timer [a] is pending. After its socket disconnects and another socket
    resumes the session, the session is there and [a] is still pending,
    since [disconnect] starts a timer without clearing [a] and
    [refreshSession] clears only the timer of the disconnect; and when [a]
    fires, it removes the resumed session. *)
Theorem disconnect_leaves_stale_timer
    (sv : ChatService.Service) (sessionId : string) (session : ChatService.Session)
    (a : ChatService.Timer) (now1 now2 : Z) (uuid : string) (del_ok : bool) :
  JS.truthy sessionId = true ->
  ChatService.sessions_get sessionId (ChatService.sessions sv) = Some session ->
  find (fun t => Nat.eqb (ChatService.handle t) (ChatService.handle a))
    (ChatService.timers sv) = Some a ->
  ChatService.target a = sessionId ->
  (ChatService.handle a < ChatService.next_handle sv)%nat ->
  let gone := ChatService.disconnect now1 (Some sessionId, sv) in
  let back := ChatService.resume_session (Some sessionId) uuid now2 (None, snd gone) in
  fst back = Some sessionId
  /\ ChatService.sessions_has sessionId (ChatService.sessions (snd back)) = true
  /\ In a (ChatService.timers (snd back))
  /\ ChatService.sessions_has sessionId
       (ChatService.sessions (ChatService.fire (ChatService.handle a) del_ok (snd back)))
     = false.
Proof.
  intros Htruthy Hget Hfind Htarget Hfresh. cbv zeta.
  rewrite (disconnect_known _ _ _ _ Htruthy Hget). cbn [snd].
  erewrite resume_session_known;
    [|exact Htruthy | cbn [ChatService.sessions]; apply sessions_get_set_same].
  cbn [fst snd]. unfold ChatService.refreshSession.
  cbn [ChatService.timeoutId ChatService.clearTimeout ChatService.setTimeout
       ChatService.with_sessions ChatService.sessions ChatService.timers
       ChatService.next_handle ChatService.emitted ChatService.threadId fst snd].
  set (keep := fun t : ChatService.Timer =>
                 negb (Nat.eqb (ChatService.handle t) (ChatService.next_handle sv))).
  assert (Hpending :
            find (fun t => Nat.eqb (ChatService.handle t) (ChatService.handle a))
              (filter keep
                 (ChatService.timers sv
                  ++ [{| ChatService.handle := ChatService.next_handle sv;
                         ChatService.target := sessionId;
                         ChatService.due := now1 + ChatService.SESSION_TIMEOUT |}])
               ++ [{| ChatService.handle := S (ChatService.next_handle sv);
                      ChatService.target := sessionId;
                      ChatService.due := now2 + ChatService.SESSION_TIMEOUT |}])%list
            = Some a).
  { apply find_app_some, find_filter_some; [|now apply find_app_some].
    intros t Ht. apply Nat.eqb_eq in Ht. unfold keep.
    apply negb_true_iff, Nat.eqb_neq. lia. }
  repeat split.
  - unfold ChatService.sessions_has. now rewrite sessions_get_set_same.
  - apply find_some in Hpending. exact (proj1 Hpending).
  - unfold ChatService.fire. cbn [ChatService.timers].
    match goal with
    | |- context [find ?p ?l] =>
        replace (find p l) with (Some a) by (symmetry; exact Hpending)
    end.
    unfold ChatService.sessions_has.
    now rewrite cleanupSession_sessions, Htarget, sessions_get_delete_same.
Qed.

Lemma disconnect_leaves_stale_timer_witness :
  ChatService.sessions_has "session-1"
    (ChatService.sessions
       (ChatService.fire 0 true
          (snd (ChatService.resume_session (Some "session-1") "session-2" 9000
                  (None, snd (ChatService.disconnect 7000
                                (Some "session-1", resumed_service)))))))
  = false.
Proof.
  apply (disconnect_leaves_stale_timer resumed_service "session-1"
           {| ChatService.threadId := None; ChatService.lastActive := 5000;
              ChatService.timeoutId := Some 0%nat |}
           {| ChatService.handle := 0; ChatService.target := "session-1";
              ChatService.due := 5000 + ChatService.SESSION_TIMEOUT |}
           7000 9000 "session-2" true);
    vm_compute; reflexivity.
Defined.
